(** * The file-based vector store and the query pipeline of self-notes

    A shallow embedding of [src/src/vectorstore.py] (class [VectorStore]) and
    of [src/src/query.py] (function [query]), with the parts of numpy and json
    they call.

    - Python floats are IEEE binary64 numbers: Rocq's primitive [float].
    - [np.float32] values are IEEE binary32 numbers, modelled with the
      Standard Library's [spec_float] at precision 24 and exponent bound 128;
      every operation rounds to nearest, ties to even.  Sums run from left
      to right; numpy leaves the order of a reduction to its kernels, and no
      statement below rests on it (the evaluated examples use vectors whose
      sums are exact in any order).  A Python scalar next to a float32 value
      is rounded to float32 (numpy 2 promotion).
    - [np.argsort] is a class: any function that meets numpy's documented
      contract.  The insertion sort that keeps equal values in index order
      is its one instance here.
    - A metadata dict is a finite map from strings to JSON scalars (strings
      and integers, as the indexer stores them).
    - The two persisted artifacts are optional files of a [Disk] record; a
      file holds the value that [np.save] or [json.dump] wrote, and reading
      gives that value back.  I/O failures are outside the model.
    - An exception is a result of its own ([Raise]); the state it leaves is
      the state at the point where it was raised.
    - A finite float32 value stands for the real number mantissa times
      two to the exponent ([F32_value]); the bound on the rounding error of
      a similarity is proved over the Standard Library's real numbers, from
      the definitions of the operations.

    The development goes on to [src/src/indexer.py] ([index_all_pages],
    [get_indexed_sources]), [src/src/notion.py] ([get_client],
    [parse_page_id], [fetch_page_recursive], [fetch_root_pages]) and
    [src/api.py] ([chat_completions]).

    - The text splitter, the embedding model and the generation model are
      functions the pipelines are given; their calls are logged.
    - A character of a string is a character of the Python string, below
      256; [re], [str.lower] and [str.strip] are modelled on these.
    - The Notion client is a state of any type with the calls the traversal
      makes on it; the functions that read its answers
      ([get_page_title], [get_page_url], [get_page_content_and_children])
      are given with it, with the types their signatures declare, and may
      raise.  A generator is the list of what it yields, with the exception
      that ends it, if one does.  The depth of the recursion is bounded by
      a fuel; the interpreter's own recursion limit is outside the model.
    - [json.dumps], [len(text.split())], [uuid.uuid4] and [time.time] are
      given to the request handler. *)

From Stdlib Require Import ZArith List String Floats Lia.
From stdpp Require Import gmap strings list sorting pretty.
From Stdlib Require Import Reals Lra.

Local Open Scope string_scope.
Local Open Scope list_scope.

(** ** Exceptions and results *)

Inductive exn :=
| ValueError   (* numpy: inhomogeneous input, mismatched shapes *)
| AxisError    (* numpy: axis out of bounds *)
| IndexError   (* list index out of range *)
| KeyError.    (* missing dict key *)

Inductive outcome (A : Type) :=
| Return (a : A)
| Raise (e : exn).
Arguments Return {A} a.
Arguments Raise {A} e.

#[export] Instance outcome_ret : MRet outcome := @Return.
#[export] Instance outcome_bind : MBind outcome := λ A B f m,
  match m with
  | Return a => f a
  | Raise e => Raise e
  end.
#[export] Instance outcome_fmap : FMap outcome := λ A B f m,
  match m with
  | Return a => Return (f a)
  | Raise e => Raise e
  end.

Definition returns {A} (m : outcome A) : Prop := ∃ a, m = Return a.

(** Code with effects: a computation on a state of type [S] that returns or
    raises, and leaves a state either way. *)
Definition SE (S A : Type) : Type := S → outcome A * S.

#[export] Instance SE_ret {S} : MRet (SE S) := λ A a w, (Return a, w).
#[export] Instance SE_bind {S} : MBind (SE S) := λ A B f m w,
  match m w with
  | (Return a, w') => f a w'
  | (Raise e, w') => (Raise e, w')
  end.

Definition lift {S A} (o : outcome A) : SE S A := λ w, (o, w).

(** A list comprehension whose body may raise: the first exception ends it. *)
Fixpoint comprehension {A B} (f : A → outcome B) (l : list A) : outcome (list B) :=
  match l with
  | [] => Return []
  | x :: l' => y ← f x; ys ← comprehension f l'; Return (y :: ys)
  end.

(** ** JSON scalars and metadata dicts *)

Inductive jvalue :=
| JStr (s : string)
| JInt (z : Z).

#[export] Instance jvalue_eq_dec : EqDecision jvalue.
Proof. solve_decision. Defined.

#[export] Instance jvalue_countable : Countable jvalue.
Proof.
  refine (inj_countable'
            (λ v, match v with JStr s => inl s | JInt z => inr z end)
            (λ x, match x with inl s => JStr s | inr z => JInt z end) _).
  by intros [].
Defined.

Abbreviation dict := (gmap string jvalue).

(** [d[key]] *)
Definition getitem (d : dict) (key : string) : outcome jvalue :=
  match d !! key with
  | Some v => Return v
  | None => Raise KeyError
  end.

(** [l[i]] for a non-negative index *)
Definition list_getitem {A} (l : list A) (i : nat) : outcome A :=
  match l !! i with
  | Some x => Return x
  | None => Raise IndexError
  end.

(** [str(v)], as an f-string prints a value *)
Definition py_str (v : jvalue) : string :=
  match v with
  | JStr s => s
  | JInt z => pretty z
  end.

(** ** IEEE binary32 arithmetic *)

Module F32.
Definition prec : Z := 24.
Definition emax : Z := 128.

Definition t := spec_float.

(** Rounding of a Python float to [np.float32]. *)
Definition of_float (x : float) : t :=
  match Prim2SF x with
  | S754_finite s m e => binary_round prec emax s m e
  | y => y
  end.

Definition add : t → t → t := SFadd prec emax.
Definition sub : t → t → t := SFsub prec emax.
Definition mul : t → t → t := SFmul prec emax.
Definition div : t → t → t := SFdiv prec emax.
Definition sqrt : t → t := SFsqrt prec emax.

Definition zero : t := S754_zero false.
Definition one : t := of_float 1.
(** The literal [1e-10] (the binary64 number nearest to it), as float32. *)
Definition epsilon : t := of_float 0x1.b7cdfd9d7bdbbp-34.

Definition is_nan (x : t) : bool :=
  match x with S754_nan => true | _ => false end.

(** The order numpy sorts floats by: [a < b], with NaN after everything. *)
Definition lt (a b : t) : bool :=
  SFltb a b || (is_nan b && negb (is_nan a)).

(** [np.add.reduce]: a running sum from zero. *)
Definition sum (l : list t) : t := fold_left add l zero.

(** The inner product of two vectors of one length. *)
Definition dot (u v : list t) : t := sum (zip_with mul u v).

(** A key that orders floats as [lt] does: class, then exponent, then
    mantissa, the last two negated below zero. *)
Definition rank (x : t) : Z * Z * Z :=
  match x with
  | S754_nan => (3, 0, 0)
  | S754_infinity false => (2, 0, 0)
  | S754_infinity true => (-2, 0, 0)
  | S754_zero _ => (0, 0, 0)
  | S754_finite false m e => (1, e, Z.pos m)
  | S754_finite true m e => (-1, - e, Z.neg m)
  end%Z.

Definition lex_ltb (a b : Z * Z * Z) : bool :=
  let '(a1, a2, a3) := a in
  let '(b1, b2, b3) := b in
  ((a1 <? b1) || ((a1 =? b1) && ((a2 <? b2) || ((a2 =? b2) && (a3 <? b3)))))%Z.
End F32.

#[export] Instance F32_inhabited : Inhabited F32.t := populate F32.zero.

(** ** numpy arrays of one or two dimensions *)

Inductive ndarray :=
| Arr1 (xs : list F32.t)                        (* shape (len xs,) *)
| Arr2 (cols : nat) (rows : list (list F32.t)). (* shape (len rows, cols) *)

Module np.
(** [np.array(embeddings, dtype=np.float32)] on a list of lists of floats:
    the empty list gives shape (0,), rows of one length a matrix, and rows
    of different lengths raise. *)
Definition array (embeddings : list (list float)) : outcome ndarray :=
  match embeddings with
  | [] => Return (Arr1 [])
  | v :: vs =>
      if forallb (λ u, Nat.eqb (length u) (length v)) vs
      then Return (Arr2 (length v) (map (map F32.of_float) (v :: vs)))
      else Raise ValueError
  end.

(** [np.array(query_embedding, dtype=np.float32)] on a list of floats. *)
Definition array1 (v : list float) : list F32.t := map F32.of_float v.

Definition atleast_2d (a : ndarray) : nat * list (list F32.t) :=
  match a with
  | Arr1 xs => (length xs, [xs])
  | Arr2 cols rows => (cols, rows)
  end.

(** [np.vstack([a, b])] *)
Definition vstack (a b : ndarray) : outcome ndarray :=
  let '(ca, ra) := atleast_2d a in
  let '(cb, rb) := atleast_2d b in
  if Nat.eqb ca cb then Return (Arr2 ca (ra ++ rb)%list) else Raise ValueError.

(** [np.linalg.norm(v)] of a 1-D array: [sqrt(dot(v, v))]. *)
Definition norm (v : list F32.t) : F32.t := F32.sqrt (F32.dot v v).

(** [np.linalg.norm(a, axis=1)]: [sqrt(add.reduce(a * a, axis=1))]. *)
Definition norm_axis1 (a : ndarray) : outcome (list F32.t) :=
  match a with
  | Arr1 _ => Raise AxisError
  | Arr2 _ rows =>
      Return (map (λ r, F32.sqrt (F32.sum (zip_with F32.mul r r))) rows)
  end.

(** [np.dot(a, v)] of a matrix and a 1-D array.  (Of two 1-D arrays it is
    their inner product; [query] does not get there, [norm_axis1] raises
    first.) *)
Definition dot (a : ndarray) (v : list F32.t) : outcome (list F32.t) :=
  match a with
  | Arr1 xs =>
      if Nat.eqb (length xs) (length v) then Return [F32.dot xs v]
      else Raise ValueError
  | Arr2 cols rows =>
      if Nat.eqb cols (length v) then Return (map (λ r, F32.dot r v) rows)
      else Raise ValueError
  end.

(** [l[-k:]] on a list *)
Definition last_k {A} (k : Z) (l : list A) : list A :=
  if (0 <? k)%Z then drop (length l - Z.to_nat k) l
  else drop (Z.to_nat (- k)) l.

(** The insertion sort numpy runs on short arrays, and what [kind='stable']
    promises: the indices sorted so far are kept last first, and a new index
    moves left while its value is less than the one before it. *)
Fixpoint insert_index (a : list F32.t) (vi : nat) (sorted_rev : list nat) : list nat :=
  match sorted_rev with
  | [] => [vi]
  | pk :: rest =>
      if F32.lt (a !!! vi) (a !!! pk) then pk :: insert_index a vi rest
      else vi :: sorted_rev
  end.

Definition stable_argsort (a : list F32.t) : list nat :=
  reverse (fold_left (λ acc vi, insert_index a vi acc) (seq 0 (length a)) []).

(** [np.argsort]: some function that lists the indices of an array so that
    the values read in that order never decrease.  The default kind is not
    stable: the order of indices with equal values is the function's own. *)
Class Argsort := {
  argsort : list F32.t → list nat;
  argsort_perm : ∀ a, argsort a ≡ₚ seq 0 (length a);
  argsort_sorted : ∀ a p q i j x y,
    p < q → argsort a !! p = Some i → argsort a !! q = Some j →
    a !! i = Some x → a !! j = Some y → F32.lt y x = false
}.
End np.

(** ** The store *)

Record QueryResult := {
documents : list (list jvalue);
metadatas : list (list dict);
distances : list (list F32.t)
}.

Record Disk := {
embeddings_file : option ndarray;    (* embeddings.npy *)
metadata_file : option (list dict)   (* metadata.json *)
}.

Module VectorStore.
(** The attributes of an instance. *)
Record t := {
  embeddings : option ndarray;
  metadata : list dict
}.

(** A method runs on the instance and the store directory; an exception
    leaves both as they were when it was raised. *)
Record World := { self : t; disk : Disk }.

Abbreviation M := (SE World).

Definition get_self : M t := λ w, (Return (self w), w).
Definition set_self (s : t) : M unit := λ w,
  (Return tt, {| self := s; disk := disk w |}).
Definition get_disk : M Disk := λ w, (Return (disk w), w).
Definition set_disk (d : Disk) : M unit := λ w,
  (Return tt, {| self := self w; disk := d |}).

Definition _load : M unit :=
  d ← get_disk;
  match embeddings_file d, metadata_file d with
  | Some e, Some m => set_self {| embeddings := Some e; metadata := m |}
  | _, _ => mret tt
  end.

(** [VectorStore(path)] *)
Definition __init__ : M unit :=
  set_self {| embeddings := None; metadata := [] |};;
  _load.

Definition _save : M unit :=
  s ← get_self;
  d ← get_disk;
  let d1 :=
    match embeddings s with
    | Some e => {| embeddings_file := Some e; metadata_file := metadata_file d |}
    | None => d
    end in
  set_disk {| embeddings_file := embeddings_file d1;
              metadata_file := Some (metadata s) |}.

Definition clear : M unit :=
  set_self {| embeddings := None; metadata := [] |};;
  set_disk {| embeddings_file := None; metadata_file := None |}.

Definition add (embeddings : list (list float)) (documents : list string)
    (metadatas : list dict) : M unit :=
  new_embeddings ← lift (np.array embeddings);
  let new_metadata :=
    zip_with (λ doc meta, <["document" := JStr doc]> meta) documents metadatas in
  s ← get_self;
  match VectorStore.embeddings s with
  | None =>
      set_self {| embeddings := Some new_embeddings; metadata := new_metadata |}
  | Some old =>
      stacked ← lift (np.vstack old new_embeddings);
      set_self {| embeddings := Some stacked;
                  metadata := (metadata s ++ new_metadata)%list |}
  end;;
  _save.

Definition count (s : t) : nat := length (metadata s).

Definition get_all_metadata (s : t) : list dict :=
  map (λ m : dict, delete "document" m) (metadata s).

(** [similarities]: the dot products over [norms * query_norm + 1e-10]. *)
Definition similarities (e : ndarray) (query_vec : list F32.t)
    : outcome (list F32.t) :=
  norms ← np.norm_axis1 e;
  let query_norm := np.norm query_vec in
  dots ← np.dot e query_vec;
  Return (zip_with (λ d n, F32.div d (F32.add (F32.mul n query_norm) F32.epsilon))
            dots norms).

(** [np.argsort(similarities)[-k:][::-1]] *)
Definition top_indices `{np.Argsort} (sims : list F32.t) (k : Z) : list nat :=
  reverse (np.last_k k (np.argsort sims)).

Definition empty_result : QueryResult :=
  {| documents := [[]]; metadatas := [[]]; distances := [[]] |}.

Definition query `{np.Argsort} (s : t) (query_embedding : list float)
    (n_results : Z) : outcome QueryResult :=
  match embeddings s, metadata s with
  | None, _ | _, [] => Return empty_result
  | Some e, _ :: _ =>
      let query_vec := np.array1 query_embedding in
      sims ← similarities e query_vec;
      let k := Z.min n_results (Z.of_nat (length (metadata s))) in
      let top_indices := top_indices sims k in
      documents ← comprehension
        (λ i, m ← list_getitem (metadata s) i; getitem m "document") top_indices;
      metadatas ← comprehension
        (λ i, m ← list_getitem (metadata s) i; Return (delete "document" m))
        top_indices;
      distances ← comprehension
        (λ i, x ← list_getitem sims i; Return (F32.sub F32.one x)) top_indices;
      Return {| documents := [documents]; metadatas := [metadatas];
                distances := [distances] |}
  end.

(** [VectorStore(path)] on a directory: the instance [__init__] leaves. *)
Definition blank : t := {| embeddings := None; metadata := [] |}.

Definition construct (d : Disk) : outcome unit * World :=
  __init__ {| self := blank; disk := d |}.
End VectorStore.

(** ** The query pipeline ([src/src/query.py]) *)

Module config.
Definition EMBEDDING_MODEL : string := "nomic-embed-text".
Definition LLM_MODEL : string := "mistral".
Definition TOP_K_RESULTS : Z := 4.
End config.

Module Query.
(** What the pipeline does to the outside: calls of the two models, and
    lines printed. *)
Inductive event :=
| EmbedQuery (model text : string)   (* OllamaEmbeddings(model).embed_query(text) *)
| Invoke (model prompt : string)     (* OllamaLLM(model).invoke(prompt) *)
| Printed (line : string).

Record Source := { title : jvalue; url : jvalue }.
Record Answer := { answer : string; sources : list Source }.

Abbreviation M := (SE (list event)).

Definition emit (e : event) : M unit := λ tr, (Return tt, (tr ++ [e])%list).

Definition nl : string := String (Ascii.ascii_of_nat 10) "".
Definition dquote : string := String (Ascii.ascii_of_nat 34) "".

Definition SYSTEM_PROMPT (context question : string) : string :=
  "You are a helpful assistant that answers questions based ONLY on the provided notes."
  +:+ nl +:+ nl +:+ "Rules:"
  +:+ nl +:+ "1. Answer ONLY using information from the notes below"
  +:+ nl +:+ "2. If the answer is not in the notes, say " +:+ dquote
  +:+ "I don't have information about that in my notes" +:+ dquote
  +:+ nl +:+ "3. Be concise and direct"
  +:+ nl +:+ "4. When relevant, mention which note the information came from"
  +:+ nl +:+ nl +:+ "Notes:"
  +:+ nl +:+ context
  +:+ nl +:+ nl +:+ "Question: " +:+ question
  +:+ nl +:+ nl +:+ "Answer:".

(** The variables of the loop over the retrieved chunks. *)
Record locals := {
  context_parts : list string;
  loop_sources : list Source;
  seen_pages : gset jvalue
}.

Definition loop_body (st : locals) (item : jvalue * dict) : outcome locals :=
  let '(chunk, meta) := item in
  t ← getitem meta "title";
  let parts :=
    (context_parts st ++ ["[From: " +:+ py_str t +:+ "]" +:+ nl +:+ py_str chunk])%list in
  page_id ← getitem meta "page_id";
  if bool_decide (page_id ∈ seen_pages st)
  then Return {| context_parts := parts; loop_sources := loop_sources st;
                 seen_pages := seen_pages st |}
  else
    t' ← getitem meta "title";
    u ← getitem meta "url";
    Return {| context_parts := parts;
              loop_sources := (loop_sources st ++ [{| title := t'; url := u |}])%list;
              seen_pages := {[page_id]} ∪ seen_pages st |}.

Fixpoint for_loop {A S} (body : S → A → outcome S) (l : list A) (s : S) : outcome S :=
  match l with
  | [] => Return s
  | x :: l' => s' ← body s x; for_loop body l' s'
  end.

Section Models.
Context `{np.Argsort}.
(** The two models, as functions of the model's name and the text. *)
Variable embed_query : string → string → list float.
Variable invoke : string → string → string.

Definition query (db : Disk) (question : string) (verbose : bool) : M Answer :=
  match VectorStore.construct db with
  | (Raise e, _) => lift (Raise e)
  | (Return _, w) =>
      let store := VectorStore.self w in
      if Nat.eqb (VectorStore.count store) 0
      then mret {| answer := "No notes indexed yet. Run 'python cli.py index' first.";
                   sources := [] |}
      else
        emit (EmbedQuery config.EMBEDDING_MODEL question);;
        let question_embedding := embed_query config.EMBEDDING_MODEL question in
        results ← lift (VectorStore.query store question_embedding config.TOP_K_RESULTS);
        chunks ← lift (list_getitem (documents results) 0);
        match chunks with
        | [] => mret {| answer := "No relevant notes found."; sources := [] |}
        | _ :: _ =>
            metadatas ← lift (list_getitem (metadatas results) 0);
            st ← lift (for_loop loop_body (zip chunks metadatas)
                         {| context_parts := []; loop_sources := [];
                            seen_pages := ∅ |});
            let context :=
              String.concat (nl +:+ nl +:+ "---" +:+ nl +:+ nl) (context_parts st) in
            (if verbose
             then emit (Printed ("Found " +:+ pretty (length chunks)
                                 +:+ " relevant chunks from "
                                 +:+ pretty (length (loop_sources st))
                                 +:+ " pages" +:+ nl))
             else mret tt);;
            let prompt := SYSTEM_PROMPT context question in
            emit (Invoke config.LLM_MODEL prompt);;
            mret {| answer := invoke config.LLM_MODEL prompt;
                    sources := loop_sources st |}
        end
  end.
End Models.
End Query.

(** ** The indexing pipeline ([src/src/indexer.py]) *)

Module Indexer.
(** What indexing does to the outside, the store directory apart: calls of
    the embedding model on the chunks of a page, and lines printed by
    [index_all_pages] (the warnings of the traversal are in its own log). *)
Inductive event :=
| EmbedDocuments (model : string) (texts : list string)
    (* OllamaEmbeddings(model).embed_documents(texts) *)
| Printed (line : string).

(** A page as [fetch_root_pages] yields it. *)
Record Page := {
  id : string;
  title : string;
  url : jvalue;
  last_edited : jvalue;
  content : string
}.

(** An entry of [get_indexed_sources]. *)
Record IndexedSource := {
  source_title : jvalue;
  source_url : jvalue;
  source_last_edited : jvalue
}.

(** Indexing runs on a store instance with its directory, and a log. *)
Record State := { world : VectorStore.World; log : list event }.

Abbreviation M := (SE State).

Definition emit (e : event) : M unit := λ st,
  (Return tt, {| world := world st; log := log st ++ [e] |}).

(** A method of the store, called from the pipeline. *)
Definition on_store {A} (m : VectorStore.M A) : M A := λ st,
  let '(r, w) := m (world st) in (r, {| world := w; log := log st |}).

(** [get_vectorstore()]: a new instance over the directory. *)
Definition get_vectorstore : M unit :=
  on_store (λ w, VectorStore.construct (VectorStore.disk w)).

(** The metadata dicts of the chunks of one page. *)
Definition chunk_metadatas (page : Page) (chunks : list string) : list dict :=
  map (λ i : nat,
         ({["page_id" := JStr (id page); "title" := JStr (title page);
            "url" := url page; "last_edited" := last_edited page;
            "chunk_index" := JInt (Z.of_nat i)]} : dict))
      (seq 0 (length chunks)).

(** A [for] loop whose body has effects. *)
Fixpoint for_each {A T} (body : T → A → M T) (l : list A) (acc : T) : M T :=
  match l with
  | [] => mret acc
  | x :: l' => acc' ← body acc x; for_each body l' acc'
  end.

Section Collaborators.
(** [NOTION_API_KEY], as [os.getenv] gives it. *)
Variable NOTION_API_KEY : option string.
(** [RecursiveCharacterTextSplitter(...).split_text] with the configured
    sizes and separators. *)
Variable split_text : string → list string.
(** The embedding model, as a function of the model's name and the texts. *)
Variable embed_documents : string → list string → list (list float).
(** What iterating [fetch_root_pages(notion)] gives: the pages it yields,
    and the exception it ends with, if it ends with one. *)
Variable fetched : list Page.
Variable failure : option exn.

(** [get_client()] of [src/src/notion.py]: the key must be set. *)
Definition get_client : outcome unit :=
  match NOTION_API_KEY with
  | None => Raise ValueError
  | Some key => if decide (key = "") then Raise ValueError else Return tt
  end.

(** The body of the loop over the pages; [total_chunks] is its variable. *)
Definition index_page (verbose : bool) (total_chunks : nat) (page : Page) : M nat :=
  (if verbose then emit (Printed ("Indexing: " +:+ title page)) else mret tt);;
  let chunks := split_text (content page) in
  match chunks with
  | [] => mret total_chunks
  | _ :: _ =>
      emit (EmbedDocuments config.EMBEDDING_MODEL chunks);;
      let chunk_embeddings := embed_documents config.EMBEDDING_MODEL chunks in
      let metadatas := chunk_metadatas page chunks in
      on_store (VectorStore.add chunk_embeddings chunks metadatas);;
      mret (total_chunks + length chunks)
  end.

Definition index_all_pages (verbose : bool) : M nat :=
  lift get_client;;
  get_vectorstore;;
  store ← on_store VectorStore.get_self;
  let existing_count := VectorStore.count store in
  (if Nat.ltb 0 existing_count
   then on_store VectorStore.clear;;
        if verbose
        then emit (Printed ("Cleared " +:+ pretty existing_count +:+ " existing chunks"))
        else mret tt
   else mret tt);;
  total_chunks ← for_each (index_page verbose) fetched 0;
  match failure with
  | Some e => lift (Raise e)
  | None =>
      (if verbose
       then emit (Printed (Query.nl +:+ "Indexed " +:+ pretty total_chunks
                           +:+ " chunks total"))
       else mret tt);;
      mret total_chunks
  end.
End Collaborators.

(** [pages[page_id] = ...] when [page_id not in pages]: a dict in insertion
    order. *)
Definition collect_page (pages : list (jvalue * IndexedSource)) (meta : dict)
    : outcome (list (jvalue * IndexedSource)) :=
  page_id ← getitem meta "page_id";
  if bool_decide (page_id ∈ map fst pages) then Return pages
  else
    t ← getitem meta "title";
    u ← getitem meta "url";
    e ← getitem meta "last_edited";
    Return (pages ++ [(page_id, {| source_title := t; source_url := u;
                                  source_last_edited := e |})]).

Definition get_indexed_sources (db : Disk) : outcome (list IndexedSource) :=
  match VectorStore.construct db with
  | (Raise e, _) => Raise e
  | (Return _, w) =>
      let all_metadata := VectorStore.get_all_metadata (VectorStore.self w) in
      match all_metadata with
      | [] => Return []
      | _ :: _ =>
          pages ← Query.for_loop collect_page all_metadata [];
          Return (map snd pages)
      end
  end.
End Indexer.

(** ** Page ids ([src/src/notion.py]) *)

Module Notion.
(** A string as the list of its characters. *)
Abbreviation chars := list_ascii_of_string.
Abbreviation join := string_of_list_ascii.

Definition dash : Ascii.ascii := Ascii.ascii_of_nat 45.
Definition question_mark : Ascii.ascii := Ascii.ascii_of_nat 63.
Definition newline : Ascii.ascii := Ascii.ascii_of_nat 10.

Definition in_range (lo hi : nat) (c : Ascii.ascii) : bool :=
  Nat.leb lo (Ascii.nat_of_ascii c) && Nat.leb (Ascii.nat_of_ascii c) hi.

(** The classes [[a-f0-9]] and [[a-f0-9-]]. *)
Definition is_hex (c : Ascii.ascii) : bool := in_range 97 102 c || in_range 48 57 c.
Definition is_hex_or_dash (c : Ascii.ascii) : bool := is_hex c || Ascii.eqb c dash.

(** [str.lower] on a character below 256: the letters A to Z, and the
    capital letters from 192 to 222 but the multiplication sign. *)
Definition lower (c : Ascii.ascii) : Ascii.ascii :=
  if in_range 65 90 c
     || (in_range 192 222 c && negb (Ascii.eqb c (Ascii.ascii_of_nat 215)))
  then Ascii.ascii_of_nat (Ascii.nat_of_ascii c + 32)
  else c.

(** [s.replace('-', '')] *)
Definition remove_dashes (s : list Ascii.ascii) : list Ascii.ascii :=
  List.filter (λ c, negb (Ascii.eqb c dash)) s.

(** [$]: at the end of the string, or before a newline that ends it. *)
Definition at_end (rest : list Ascii.ascii) : bool :=
  match rest with
  | [] => true
  | [c] => Ascii.eqb c newline
  | _ :: _ :: _ => false
  end.

(** [(?:\?|$)] *)
Definition question_or_end (rest : list Ascii.ascii) : bool :=
  match rest with
  | c :: _ => Ascii.eqb c question_mark
  | [] => false
  end
  || at_end rest.

(** [re.match(r'^[a-f0-9-]{32,36}$', t)]: the repetition takes as many
    characters as it can, 36 at most, and gives them back one by one. *)
Definition match_id (t : list Ascii.ascii) : bool :=
  existsb (λ n, Nat.eqb (length (take n t)) n && forallb is_hex_or_dash (take n t)
                && at_end (drop n t))
    [36; 35; 34; 33; 32].

(** [([a-f0-9]{32})(?:\?|$)] at the start of [s]: group 1. *)
Definition hex32_here (s : list Ascii.ascii) : option (list Ascii.ascii) :=
  let group := take 32 s in
  if Nat.eqb (length group) 32 && forallb is_hex group && question_or_end (drop 32 s)
  then Some group else None.

(** [-([a-f0-9]{32})(?:\?|$)] at the start of [s]: group 1. *)
Definition dash_hex32_here (s : list Ascii.ascii) : option (list Ascii.ascii) :=
  match s with
  | c :: s' => if Ascii.eqb c dash then hex32_here s' else None
  | [] => None
  end.

(** [re.search]: the match at the leftmost position that has one. *)
Fixpoint re_search {A} (here : list Ascii.ascii → option A) (s : list Ascii.ascii)
    : option A :=
  match here s with
  | Some m => Some m
  | None =>
      match s with
      | [] => None
      | _ :: s' => re_search here s'
      end
  end.

Definition parse_page_id (url_or_id : string) : outcome string :=
  if match_id (remove_dashes (chars url_or_id))
  then Return (join (remove_dashes (chars url_or_id)))
  else
    match re_search hex32_here (chars url_or_id) with
    | Some group => Return (join group)
    | None =>
        match re_search dash_hex32_here (chars url_or_id) with
        | Some group => Return (join group)
        | None =>
            let hex_chars := List.filter is_hex (map lower (chars url_or_id)) in
            if Nat.leb 32 (length hex_chars)
            then Return (join (drop (length hex_chars - 32) hex_chars))
            else Raise ValueError
        end
    end.
End Notion.

(** ** The traversal of the pages ([src/src/notion.py]) *)

Module Fetch.
(** What a generator has done when it stops: it is exhausted, an exception
    has left it, or the recursion went deeper than the fuel allows. *)
Inductive result (E A : Type) :=
| Done (a : A)
| Exception (e : exn + E)
| OutOfFuel.
Arguments Done {E A} a.
Arguments Exception {E A} e.
Arguments OutOfFuel {E A}.

(** The lines the traversal prints. *)
Inductive event (E : Type) :=
| CouldNotFetch (page_id : string) (e : E)
    (* Warning: Could not fetch page {page_id}: {e} *)
| FailedToProcess (url_or_id : string) (e : exn + E).
    (* Warning: Failed to process {url_or_id}: {e} *)
Arguments CouldNotFetch {E} page_id e.
Arguments FailedToProcess {E} url_or_id e.

(** The state of a traversal: the client with the workspace behind it, the
    set [visited], the pages yielded so far, and the lines printed. *)
Record State (api E : Type) := {
  client : api;
  visited : gset string;
  yielded : list Indexer.Page;
  log : list (event E)
}.
Arguments client {api E} s.
Arguments visited {api E} s.
Arguments yielded {api E} s.
Arguments log {api E} s.

Definition M (api E A : Type) : Type := State api E → result E A * State api E.

#[global] Instance M_ret {api E} : MRet (M api E) := λ A a st, (Done a, st).
#[global] Instance M_bind {api E} : MBind (M api E) := λ A B f m st,
  match m st with
  | (Done a, st') => f a st'
  | (Exception e, st') => (Exception e, st')
  | (OutOfFuel, st') => (OutOfFuel, st')
  end.

(** A [for] loop over a list. *)
Fixpoint for_each {api E A} (body : A → M api E unit) (l : list A) : M api E unit :=
  match l with
  | [] => mret tt
  | x :: l' => body x;; for_each body l'
  end.

(** The whitespace of [str.strip] among the characters below 256, and
    whether [text.strip()] is empty. *)
Definition is_space (c : Ascii.ascii) : bool :=
  Notion.in_range 9 13 c || Notion.in_range 28 32 c
  || Ascii.eqb c (Ascii.ascii_of_nat 133) || Ascii.eqb c (Ascii.ascii_of_nat 160).

Definition blank (text : string) : bool := forallb is_space (Notion.chars text).

(** [page_id.replace('-', '')] *)
Definition normalize (page_id : string) : string :=
  Notion.join (Notion.remove_dashes (Notion.chars page_id)).

Section Client.
(** The client with its workspace, the exceptions of the client and of the
    functions that read its answers, and a page object as it answers. *)
Variables api E page_object : Type.
(** [client.pages.retrieve(page_id=page_id)] *)
Variable retrieve : string → api → (E + page_object) * api.
(** [get_page_title(page)], [get_page_url(page)] and
    [page.get("last_edited_time", "")] *)
Variable get_page_title : page_object → E + string.
Variable get_page_url : page_object → E + jvalue.
Variable last_edited_time : page_object → E + jvalue.
(** [get_page_content_and_children(client, page_id)]: the text of the page
    and the ids of its child pages. *)
Variable get_page_content_and_children :
  string → api → (E + (string * list string)) * api.

Definition raising {A} (r : E + A) : M api E A := λ st,
  match r with
  | inl e => (Exception (inr e), st)
  | inr a => (Done a, st)
  end.

Definition emit (e : event E) : M api E unit := λ st,
  (Done tt, {| client := client st; visited := visited st; yielded := yielded st;
               log := log st ++ [e] |}).

Definition yield (page : Indexer.Page) : M api E unit := λ st,
  (Done tt, {| client := client st; visited := visited st;
               yielded := yielded st ++ [page]; log := log st |}).

Definition get_visited : M api E (gset string) := λ st, (Done (visited st), st).

Definition set_visited (v : gset string) : M api E unit := λ st,
  (Done tt, {| client := client st; visited := v; yielded := yielded st;
               log := log st |}).

(** A call of the client. *)
Definition call {A} (f : api → A * api) : M api E A := λ st,
  let '(a, c) := f (client st) in
  (Done a, {| client := c; visited := visited st; yielded := yielded st;
              log := log st |}).

Fixpoint fetch_page_recursive (fuel : nat) (page_id : string) : M api E unit :=
  match fuel with
  | 0 => λ st, (OutOfFuel, st)
  | S fuel' =>
      let normalized_id := normalize page_id in
      visited ← get_visited;
      if decide (normalized_id ∈ visited) then mret tt
      else
        set_visited ({[normalized_id]} ∪ visited);;
        fetched ← call (retrieve page_id);
        match fetched with
        | inl e => emit (CouldNotFetch page_id e)
        | inr page =>
            title ← raising (get_page_title page);
            url ← raising (get_page_url page);
            last_edited ← raising (last_edited_time page);
            found ← call (get_page_content_and_children page_id);
            '(content, child_page_ids) ← raising found;
            (if negb (blank content)
             then yield {| Indexer.id := page_id; Indexer.title := title;
                           Indexer.url := url; Indexer.last_edited := last_edited;
                           Indexer.content := content |}
             else mret tt);;
            for_each (fetch_page_recursive fuel') child_page_ids
        end
  end.

(** [try: ... except Exception as e: ...] *)
Definition try_except {A} (body : M api E A) (handler : exn + E → M api E A)
    : M api E A := λ st,
  match body st with
  | (Exception e, st') => handler e st'
  | other => other
  end.

Definition lift_outcome {A} (o : outcome A) : M api E A := λ st,
  match o with
  | Return a => (Done a, st)
  | Raise e => (Exception (inl e), st)
  end.

Definition fetch_root_pages (fuel : nat) (ROOT_PAGES : list string) : M api E unit :=
  match ROOT_PAGES with
  | [] => λ st, (Exception (inl ValueError), st)
  | _ :: _ =>
      set_visited ∅;;
      for_each (λ url_or_id,
                  try_except
                    (page_id ← lift_outcome (Notion.parse_page_id url_or_id);
                     fetch_page_recursive fuel page_id)
                    (λ e, emit (FailedToProcess url_or_id e)))
        ROOT_PAGES
  end.
End Client.
End Fetch.

(** ** The OpenAI-compatible server ([src/api.py]) *)

Module Api.
Record Message := { role : string; content : string }.

Record ChatCompletionRequest := {
  model : string;
  messages : list Message;
  temperature : option float;
  max_tokens : option Z;
  stream : option bool
}.

Record ChatCompletionChoice := {
  index : Z;
  message : Message;
  finish_reason : string
}.

Record Usage := {
  prompt_tokens : nat;
  completion_tokens : nat;
  total_tokens : nat
}.

(** The fields [object_] and [model_] are the response's "object" and
    "model". *)
Record ChatCompletionResponse := {
  id : string;
  object_ : string;
  created : Z;
  model_ : string;
  choices : list ChatCompletionChoice;
  usage : Usage
}.

(** A chunk of a streamed reply: the dict the generator serializes, with its
    one choice. *)
Record StreamChoice := {
  choice_index : Z;
  delta : dict;
  choice_finish_reason : option string
}.

Record StreamChunk := {
  chunk_id : string;
  chunk_object : string;
  chunk_created : Z;
  chunk_model : string;
  chunk_choices : list StreamChoice
}.

(** What the handler returns: a stream of server-sent events, or a response
    object. *)
Inductive reply :=
| StreamingResponse (events : list string)
| Response (r : ChatCompletionResponse).

(** [range(0, stop, step)] for a positive step. *)
Definition range (stop step : nat) : list nat :=
  map (λ k, k * step) (seq 0 ((stop + step - 1) / step)).

Section Handler.
Context `{np.Argsort}.
(** The two models of the pipeline. *)
Variable embed_query : string → string → list float.
Variable invoke : string → string → string.
(** [json.dumps] on a chunk, and [len(text.split())]. *)
Variable dumps : StreamChunk → string.
Variable word_count : string → nat.
(** What [uuid.uuid4().hex] and [int(time.time())] give when the reply is
    made. *)
Variable uuid_hex : string.
Variable now : Z.

Definition sse (chunk : StreamChunk) : string :=
  "data: " +:+ dumps chunk +:+ Query.nl +:+ Query.nl.

Definition stream_chunk (chunk_id : string) (created : Z) (delta : dict)
    (finish_reason : option string) : StreamChunk :=
  {| chunk_id := chunk_id; chunk_object := "chat.completion.chunk";
     chunk_created := created; chunk_model := "self-notes";
     chunk_choices := [{| choice_index := 0; delta := delta;
                          choice_finish_reason := finish_reason |}] |}.

(** The generator [generate] of a streamed reply, as the list of what it
    yields. *)
Definition generate (answer : string) : list string :=
  let chunk_id := "chatcmpl-" +:+ substring 0 8 uuid_hex in
  let created := now in
  let role_chunk :=
    stream_chunk chunk_id created {["role" := JStr "assistant"]} None in
  let chunk_size := 20 in
  let content_chunks :=
    map (λ i, sse (stream_chunk chunk_id created
                     {["content" := JStr (substring i chunk_size answer)]} None))
        (range (String.length answer) chunk_size) in
  let done_chunk := stream_chunk chunk_id created ∅ (Some "stop") in
  [sse role_chunk] ++ content_chunks
  ++ [sse done_chunk; "data: [DONE]" +:+ Query.nl +:+ Query.nl].

Definition chat_completions (db : Disk) (request : ChatCompletionRequest)
    : Query.M reply :=
  let user_messages := filter (λ m, role m = "user") (messages request) in
  let question :=
    match user_messages with
    | [] => ""
    | _ :: _ => from_option content "" (last user_messages)
    end in
  result ← Query.query embed_query invoke db question false;
  let answer := Query.answer result in
  let answer :=
    match Query.sources result with
    | [] => answer
    | _ :: _ =>
        fold_left (λ answer src,
                     answer +:+ "- [" +:+ py_str (Query.title src) +:+ "]("
                     +:+ py_str (Query.url src) +:+ ")" +:+ Query.nl)
          (Query.sources result)
          (answer +:+ Query.nl +:+ Query.nl +:+ "---" +:+ Query.nl
           +:+ "**Sources:**" +:+ Query.nl)
    end in
  match stream request with
  | Some true => mret (StreamingResponse (generate answer))
  | _ =>
      mret (Response
        {| id := "chatcmpl-" +:+ substring 0 8 uuid_hex;
           object_ := "chat.completion";
           created := now;
           model_ := "self-notes";
           choices := [{| index := 0;
                          message := {| role := "assistant"; content := answer |};
                          finish_reason := "stop" |}];
           usage := {| prompt_tokens := word_count question;
                       completion_tokens := word_count answer;
                       total_tokens := word_count question + word_count answer |} |})
  end.
End Handler.
End Api.

(** ** Vocabulary of the statements *)

(** What [_load] leaves in memory for a store directory. *)
Definition loaded (db : Disk) : VectorStore.t :=
  match embeddings_file db, metadata_file db with
  | Some e, Some m => {| VectorStore.embeddings := Some e; VectorStore.metadata := m |}
  | _, _ => VectorStore.blank
  end.

(** Exactly one of the two persisted artifacts exists. *)
Definition exactly_one_artifact (db : Disk) : Prop :=
  (is_Some (embeddings_file db) ∧ metadata_file db = None) ∨
  (embeddings_file db = None ∧ is_Some (metadata_file db)).

(** The arguments of one call of [add]. *)
Record add_call := {
  call_embeddings : list (list float);
  call_documents : list string;
  call_metadatas : list dict
}.

(** A sequence of calls of [add], one after the other; an exception ends it. *)
Fixpoint add_all (calls : list add_call) : VectorStore.M unit :=
  match calls with
  | [] => mret tt
  | c :: calls' =>
      VectorStore.add (call_embeddings c) (call_documents c) (call_metadatas c);;
      add_all calls'
  end.

(** What [_save] leaves in the directory for an instance. *)
Definition saved (s : VectorStore.t) (db : Disk) : Disk :=
  {| embeddings_file :=
       match VectorStore.embeddings s with
       | Some e => Some e
       | None => embeddings_file db
       end;
     metadata_file := Some (VectorStore.metadata s) |}.

(** The records [add] builds from documents and metadatas. *)
Definition new_records (documents : list string) (metadatas : list dict) : list dict :=
  zip_with (λ doc meta, <["document" := JStr doc]> meta) documents metadatas.

(** The rows [np.vstack] sees in the instance's array, and the metadata [add]
    keeps: without an array it starts both anew. *)
Definition rows_of (e : option ndarray) : list (list F32.t) :=
  match e with
  | Some a => (np.atleast_2d a).2
  | None => []
  end.

Definition kept_metadata (s : VectorStore.t) : list dict :=
  match VectorStore.embeddings s with
  | Some _ => VectorStore.metadata s
  | None => []
  end.

(** The similarity of one stored vector to the query, as [query] computes it
    for each row: [dot(v, q) / (norm(v) * norm(q) + 1e-10)]. *)
Definition cosine (v q : list F32.t) : F32.t :=
  F32.div (F32.dot v q) (F32.add (F32.mul (np.norm v) (np.norm q)) F32.epsilon).

(** How many leading elements [l[-k:]] leaves out of a list of length [n]. *)
Definition left_out (k : Z) (n : nat) : nat :=
  if (0 <? k)%Z then n - Z.to_nat k else Z.to_nat (- k).

(** A store as [add] builds it: a matrix of [d] columns with one row and one
    record per chunk, every record with its "document". *)
Definition consistent (s : VectorStore.t) (d : nat) (rows : list (list F32.t)) : Prop :=
  VectorStore.embeddings s = Some (Arr2 d rows) ∧
  length rows = length (VectorStore.metadata s) ∧
  Forall (λ m : dict, is_Some (m !! "document")) (VectorStore.metadata s).

(** [lists r s rows qv top]: the result [r] lists the records of [s] with the
    indices [top], in that order: for each its document, its metadata without
    the "document" key, and one minus the similarity of its row to [qv]. *)
Definition lists (r : QueryResult) (s : VectorStore.t) (rows : list (list F32.t))
    (qv : list F32.t) (top : list nat) : Prop :=
  ∃ docs metas dists,
    r = {| documents := [docs]; metadatas := [metas]; distances := [dists] |} ∧
    Forall2 (λ i doc, ∃ m, VectorStore.metadata s !! i = Some m
                           ∧ m !! "document" = Some doc) top docs ∧
    Forall2 (λ i m', ∃ m, VectorStore.metadata s !! i = Some m
                          ∧ m' = delete "document" m) top metas ∧
    Forall2 (λ i dist, ∃ v, rows !! i = Some v
                            ∧ dist = F32.sub F32.one (cosine v qv)) top dists.

(** * Properties *)

(** ** The order floats are sorted by *)

Lemma F32_lt_rank x y : F32.lt x y = F32.lex_ltb (F32.rank x) (F32.rank y).
Proof.
  unfold F32.lt, SFltb.
  destruct x as [sx|[]| |[] mx ex], y as [sy|[]| |[] my ey]; try reflexivity;
    cbn [SFcompare F32.rank F32.lex_ltb F32.is_nan negb andb orb];
    rewrite ?orb_false_r.
  - change (PosDef.Pos.compare_cont Eq mx my) with (mx ?= my)%positive.
    destruct (Z.compare_spec ex ey), (Pos.compare_spec mx my),
      (Z.ltb_spec (- ex) (- ey)), (Z.eqb_spec (- ex) (- ey)),
      (Z.ltb_spec (Z.neg mx) (Z.neg my)); cbn; try reflexivity; lia.
  - change (PosDef.Pos.compare_cont Eq mx my) with (mx ?= my)%positive.
    destruct (Z.compare_spec ex ey), (Pos.compare_spec mx my),
      (Z.ltb_spec ex ey), (Z.eqb_spec ex ey),
      (Z.ltb_spec (Z.pos mx) (Z.pos my)); cbn; try reflexivity; lia.
Qed.

Lemma lex_ltb_asym a b : F32.lex_ltb a b = true → F32.lex_ltb b a = false.
Proof.
  destruct a as [[a1 a2] a3], b as [[b1 b2] b3]. unfold F32.lex_ltb.
  rewrite !orb_true_iff, !andb_true_iff, !orb_true_iff, !andb_true_iff.
  rewrite !Z.ltb_lt, !Z.eqb_eq. intros Hab.
  apply not_true_is_false.
  rewrite !orb_true_iff, !andb_true_iff, !orb_true_iff, !andb_true_iff.
  rewrite !Z.ltb_lt, !Z.eqb_eq. lia.
Qed.

Lemma lex_ltb_neg_trans a b c :
  F32.lex_ltb a b = false → F32.lex_ltb b c = false → F32.lex_ltb a c = false.
Proof.
  destruct a as [[a1 a2] a3], b as [[b1 b2] b3], c as [[c1 c2] c3].
  unfold F32.lex_ltb. rewrite <- !not_true_iff_false.
  rewrite !orb_true_iff, !andb_true_iff, !orb_true_iff, !andb_true_iff.
  rewrite !Z.ltb_lt, !Z.eqb_eq. lia.
Qed.

Lemma F32_lt_asym x y : F32.lt x y = true → F32.lt y x = false.
Proof. rewrite !F32_lt_rank. apply lex_ltb_asym. Qed.


Lemma F32_lt_neg_trans x y z :
  F32.lt x y = false → F32.lt y z = false → F32.lt x z = false.
Proof. rewrite !F32_lt_rank. apply lex_ltb_neg_trans. Qed.

(** ** The stable argsort meets numpy's contract *)

(** [before a i j]: index [i] sorts before index [j], by value and then by
    position. *)
Definition before (a : list F32.t) (i j : nat) : Prop :=
  F32.lt (a !!! i) (a !!! j) = true ∨
  (F32.lt (a !!! j) (a !!! i) = false ∧ i < j).

Lemma before_not_lt a i j : before a i j → F32.lt (a !!! j) (a !!! i) = false.
Proof. intros [H|[H _]]; [by apply F32_lt_asym|done]. Qed.

Lemma StronglySorted_lookup {A} (R : relation A) l p q x y :
  StronglySorted R l → p < q → l !! p = Some x → l !! q = Some y → R x y.
Proof.
  intros Hl. revert p q. induction Hl as [|z l Hl IH Hz]; intros p q Hpq Hp Hq.
  - by rewrite lookup_nil in Hp.
  - destruct q as [|q]; [lia|]. destruct p as [|p]; simpl in *.
    + inversion Hp; subst. rewrite Forall_forall in Hz.
      apply Hz. by eapply list_elem_of_lookup_2.
    + eapply IH; [|done..]. lia.
Qed.

Lemma StronglySorted_reverse {A} (R : relation A) l :
  StronglySorted R l → StronglySorted (flip R) (reverse l).
Proof.
  induction 1 as [|x l Hl IH Hx]; [apply SSorted_nil|].
  rewrite reverse_cons. apply StronglySorted_app_2.
  - intros y z Hy Hz. apply list_elem_of_singleton in Hz as ->.
    rewrite Forall_forall in Hx. apply Hx. by rewrite <- elem_of_reverse.
  - done.
  - repeat constructor.
Qed.

Lemma insert_index_perm a vi acc : np.insert_index a vi acc ≡ₚ vi :: acc.
Proof.
  induction acc as [|pk rest IH]; simpl; [done|].
  destruct (F32.lt _ _); [|done]. rewrite IH. apply Permutation_swap.
Qed.

Lemma insert_index_sorted a vi acc :
  StronglySorted (flip (before a)) acc → Forall (λ i, i < vi) acc →
  StronglySorted (flip (before a)) (np.insert_index a vi acc).
Proof.
  induction acc as [|pk rest IH]; simpl; intros Hs Hlt.
  { repeat constructor. }
  apply StronglySorted_cons in Hs as [Hpk Hs].
  apply Forall_cons in Hlt as [Hpkvi Hlt].
  destruct (F32.lt (a !!! vi) (a !!! pk)) eqn:E.
  - apply StronglySorted_cons. split; [|by apply IH].
    rewrite insert_index_perm. constructor; [by left|done].
  - apply StronglySorted_cons. split; [|by apply StronglySorted_cons].
    constructor; [by right|].
    rewrite Forall_forall in Hpk, Hlt |- *. intros y Hy. right. split.
    + eapply F32_lt_neg_trans; [exact E|]. by apply before_not_lt, Hpk.
    + by apply Hlt.
Qed.

Lemma insertion_fold a l acc :
  let r := fold_left (λ acc vi, np.insert_index a vi acc) l acc in
  (StronglySorted lt l → (∀ i j, i ∈ acc → j ∈ l → i < j) →
   StronglySorted (flip (before a)) acc → StronglySorted (flip (before a)) r)
  ∧ r ≡ₚ l ++ acc.
Proof.
  revert acc. induction l as [|x l IH]; intros acc; simpl; [done|].
  destruct (IH (np.insert_index a x acc)) as [IHs IHp]. split.
  - intros Hl Hacc Hs. apply StronglySorted_cons in Hl as [Hx Hl].
    apply IHs; [done| |].
    + intros i j Hi Hj. rewrite insert_index_perm in Hi.
      apply elem_of_cons in Hi as [->|Hi].
      * rewrite Forall_forall in Hx. by apply Hx.
      * apply Hacc; [done|]. by right.
    + apply insert_index_sorted; [done|]. apply Forall_forall.
      intros i Hi. apply Hacc; [done|]. by left.
  - rewrite IHp, insert_index_perm. by rewrite Permutation_middle.
Qed.

Lemma seq_StronglySorted j n : StronglySorted lt (seq j n).
Proof.
  revert j. induction n as [|n IH]; intros j; simpl; constructor; [apply IH|].
  apply Forall_forall. intros i Hi. apply elem_of_seq in Hi. lia.
Qed.

Lemma stable_argsort_perm a : np.stable_argsort a ≡ₚ seq 0 (length a).
Proof.
  unfold np.stable_argsort. rewrite reverse_Permutation.
  destruct (insertion_fold a (seq 0 (length a)) []) as [_ ->].
  by rewrite app_nil_r.
Qed.

Lemma stable_argsort_before a p q i j :
  p < q → np.stable_argsort a !! p = Some i → np.stable_argsort a !! q = Some j →
  before a i j.
Proof.
  intros Hpq Hp Hq.
  assert (StronglySorted (flip (flip (before a))) (np.stable_argsort a)) as Hs.
  { apply StronglySorted_reverse.
    destruct (insertion_fold a (seq 0 (length a)) []) as [Hs _].
    apply Hs; [apply seq_StronglySorted| |constructor].
    intros i' j' Hi'. by apply elem_of_nil in Hi'. }
  exact (StronglySorted_lookup _ _ _ _ _ _ Hs Hpq Hp Hq).
Qed.

#[export] Instance stable_Argsort : np.Argsort.
Proof.
  refine {| np.argsort := np.stable_argsort; np.argsort_perm := stable_argsort_perm |}.
  intros a p q i j x y Hpq Hp Hq Hx Hy.
  pose proof (stable_argsort_before a p q i j Hpq Hp Hq) as Hb.
  apply before_not_lt in Hb.
  by rewrite !list_lookup_total_alt, Hx, Hy in Hb.
Defined.

(** ** Loading *)

Ltac run_store :=
  cbv [VectorStore.construct VectorStore.__init__ VectorStore._load
       VectorStore._save VectorStore.clear VectorStore.add
       VectorStore.set_self VectorStore.get_self VectorStore.set_disk
       VectorStore.get_disk mbind mret SE_bind SE_ret lift];
  cbn [VectorStore.self VectorStore.disk VectorStore.embeddings
       VectorStore.metadata embeddings_file metadata_file].

Lemma construct_spec db :
  VectorStore.construct db =
    (Return tt, {| VectorStore.self := loaded db; VectorStore.disk := db |}).
Proof.
  run_store. unfold loaded.
  by destruct (embeddings_file db), (metadata_file db).
Qed.

Definition only_metadata_file : Disk :=
  {| embeddings_file := None; metadata_file := Some [{["document" := JStr "a"]}] |}.

(** C3, counterexample: over a directory that holds metadata.json and no
    embeddings.npy, construction raises nothing; it returns an empty store. *)
Lemma load_one_artifact_returns :
  exactly_one_artifact only_metadata_file ∧
  VectorStore.construct only_metadata_file =
    (Return tt, {| VectorStore.self := VectorStore.blank;
                   VectorStore.disk := only_metadata_file |}) ∧
  ¬ ∃ e w, VectorStore.construct only_metadata_file = (Raise e, w).
Proof.
  split; [right; split; [done|by eexists]|].
  split; [done|]. intros (e & w & H). discriminate H.
Qed.

(** C3, amended: when exactly one of the two persisted artifacts exists,
    construction raises no error: it returns the empty store (no array, no
    metadata, count 0) and leaves the directory as it was. *)
Theorem load_one_artifact_empty db :
  exactly_one_artifact db →
  VectorStore.construct db =
    (Return tt, {| VectorStore.self := VectorStore.blank; VectorStore.disk := db |})
  ∧ VectorStore.count (VectorStore.self (VectorStore.construct db).2) = 0.
Proof.
  intros Hone. rewrite construct_spec. unfold loaded.
  destruct Hone as [[_ ->]|[-> _]]; [by destruct (embeddings_file db)|done].
Qed.

Lemma load_one_artifact_empty_witness :
  exactly_one_artifact only_metadata_file ∧
  VectorStore.construct only_metadata_file =
    (Return tt, {| VectorStore.self := VectorStore.blank;
                   VectorStore.disk := only_metadata_file |}).
Proof.
  assert (exactly_one_artifact only_metadata_file) as H
    by (right; split; [reflexivity|by eexists]).
  split; [exact H|]. exact (proj1 (load_one_artifact_empty only_metadata_file H)).
Defined.

(** ** Querying an empty store *)

(** C5: on a store whose count is 0, [query] returns the empty result (no
    documents, no metadatas, no distances) for every query vector and every
    [n_results]; it raises nothing. *)
Theorem query_empty_store `{np.Argsort} (s : VectorStore.t) query_embedding n_results :
  VectorStore.count s = 0 →
  VectorStore.query s query_embedding n_results =
    Return {| documents := [[]]; metadatas := [[]]; distances := [[]] |}.
Proof.
  unfold VectorStore.count, VectorStore.query. intros Hn.
  destruct (VectorStore.metadata s); [|done].
  by destruct (VectorStore.embeddings s).
Qed.

Lemma query_empty_store_witness :
  VectorStore.count VectorStore.blank = 0 ∧
  VectorStore.query VectorStore.blank [1%float; 0%float] 4 =
    Return {| documents := [[]]; metadatas := [[]]; distances := [[]] |}.
Proof.
  split; [reflexivity|].
  apply (query_empty_store VectorStore.blank [1%float; 0%float] 4). reflexivity.
Defined.

(** C7: when the store over the directory is empty (count 0), the pipeline
    returns the fixed answer with no sources, and the trace of model calls
    and printed lines is left as it was: neither model is called. *)
Theorem pipeline_empty_store `{np.Argsort} embed_query invoke db question verbose tr :
  VectorStore.count (VectorStore.self (VectorStore.construct db).2) = 0 →
  Query.query embed_query invoke db question verbose tr =
    (Return {| Query.answer := "No notes indexed yet. Run 'python cli.py index' first.";
               Query.sources := [] |}, tr).
Proof.
  unfold Query.query. rewrite construct_spec. cbn [snd VectorStore.self].
  by intros ->.
Qed.

Definition empty_directory : Disk :=
  {| embeddings_file := None; metadata_file := None |}.

Lemma pipeline_empty_store_witness :
  VectorStore.count (VectorStore.self (VectorStore.construct empty_directory).2) = 0 ∧
  Query.query (λ _ _, [1%float]) (λ _ prompt, prompt) empty_directory "What is new?" true [] =
    (Return {| Query.answer := "No notes indexed yet. Run 'python cli.py index' first.";
               Query.sources := [] |}, []).
Proof.
  split; [reflexivity|].
  apply (pipeline_empty_store (λ _ _, [1%float]) (λ _ prompt, prompt)
           empty_directory "What is new?" true []).
  reflexivity.
Defined.

(** ** Adding records *)

Lemma add_spec w embeddings documents metadatas :
  VectorStore.add embeddings documents metadatas w =
    match np.array embeddings with
    | Raise e => (Raise e, w)
    | Return new =>
        match VectorStore.embeddings (VectorStore.self w) with
        | None =>
            let s := {| VectorStore.embeddings := Some new;
                        VectorStore.metadata := new_records documents metadatas |} in
            (Return tt, {| VectorStore.self := s;
                           VectorStore.disk := saved s (VectorStore.disk w) |})
        | Some old =>
            match np.vstack old new with
            | Raise e => (Raise e, w)
            | Return stacked =>
                let s := {| VectorStore.embeddings := Some stacked;
                            VectorStore.metadata :=
                              (VectorStore.metadata (VectorStore.self w)
                                 ++ new_records documents metadatas)%list |} in
                (Return tt, {| VectorStore.self := s;
                               VectorStore.disk := saved s (VectorStore.disk w) |})
            end
        end
    end.
Proof.
  destruct w as [[e m] d]. run_store.
  destruct (np.array embeddings) as [new|]; [|done].
  destruct e as [old|]; [|done].
  by destruct (np.vstack old new).
Qed.

Lemma array_uniform (v : list float) vs :
  forallb (λ u, Nat.eqb (length u) (length v)) vs = true ↔
  Forall (λ u : list float, length u = length v) vs.
Proof.
  rewrite forallb_forall, Forall_forall. split; intros H u Hu.
  - apply Nat.eqb_eq, H. by apply list_elem_of_In.
  - apply Nat.eqb_eq, H. by apply list_elem_of_In.
Qed.

(** C2: on a store that holds an array, [add] with a vector whose length is
    not the array's number of columns raises numpy's shape error (the
    dimensionality-mismatch error of this code) and leaves the instance and
    the directory exactly as they were: collection, count and both files. *)
Theorem add_wrong_dimension_raises w old embeddings documents metadatas :
  VectorStore.embeddings (VectorStore.self w) = Some old →
  (∃ v, v ∈ embeddings ∧ length v ≠ (np.atleast_2d old).1) →
  VectorStore.add embeddings documents metadatas w = (Raise ValueError, w).
Proof.
  intros Hold (v & Hv & Hlen). rewrite add_spec, Hold.
  destruct embeddings as [|v0 vs]; [by apply elem_of_nil in Hv|].
  cbn [np.array].
  destruct (forallb _ vs) eqn:Hall; [|done].
  apply array_uniform in Hall.
  assert (length v = length v0) as Hv0.
  { apply elem_of_cons in Hv as [->|Hv]; [done|].
    rewrite Forall_forall in Hall. by apply Hall. }
  unfold np.vstack. destruct (np.atleast_2d old) as [ca ra] eqn:Ha.
  cbn [np.atleast_2d fst] in *.
  destruct (Nat.eqb_spec ca (length v0)); [congruence|done].
Qed.

Definition one_record_world : VectorStore.World :=
  {| VectorStore.self :=
       {| VectorStore.embeddings := Some (Arr2 2 [[F32.one; F32.zero]]);
          VectorStore.metadata := [{["document" := JStr "the cat sat"]}] |};
     VectorStore.disk :=
       {| embeddings_file := Some (Arr2 2 [[F32.one; F32.zero]]);
          metadata_file := Some [{["document" := JStr "the cat sat"]}] |} |}.

Lemma add_wrong_dimension_raises_witness :
  VectorStore.add [[1%float; 0%float; 0%float]] ["a dog"] [∅] one_record_world
    = (Raise ValueError, one_record_world).
Proof.
  apply (add_wrong_dimension_raises one_record_world (Arr2 2 [[F32.one; F32.zero]])).
  - reflexivity.
  - exists [1%float; 0%float; 0%float]. split; [by left|]. cbn. lia.
Defined.




(** ** Reloading *)

Lemma add_returns_loaded w w' embeddings documents metadatas :
  VectorStore.add embeddings documents metadatas w = (Return tt, w') →
  loaded (VectorStore.disk w') = VectorStore.self w'.
Proof.
  rewrite add_spec. destruct (np.array embeddings) as [new|]; [|done].
  destruct (VectorStore.embeddings (VectorStore.self w)) as [old|].
  - destruct (np.vstack old new); [|done]. by intros [= <-].
  - by intros [= <-].
Qed.

Lemma add_all_loaded calls w w' :
  add_all calls w = (Return tt, w') →
  loaded (VectorStore.disk w) = VectorStore.self w →
  loaded (VectorStore.disk w') = VectorStore.self w'.
Proof.
  revert w. induction calls as [|c calls IH]; intros w; cbn [add_all].
  - by intros [= <-].
  - unfold mbind, SE_bind.
    destruct (VectorStore.add _ _ _ w) as [[[]|e] w1] eqn:Hadd; [|done].
    intros Hrest _. apply (IH w1 Hrest). by eapply add_returns_loaded.
Qed.

(** C6: after any sequence of calls of [add] that all return, on a store
    constructed over any directory, constructing a store anew over the
    directory gives the very instance in memory: the same array, the same
    metadata records in the same order, the same count. *)
Theorem add_reload_roundtrip db calls w :
  add_all calls (VectorStore.construct db).2 = (Return tt, w) →
  VectorStore.construct (VectorStore.disk w) = (Return tt, w) ∧
  VectorStore.count (VectorStore.self (VectorStore.construct (VectorStore.disk w)).2)
    = VectorStore.count (VectorStore.self w).
Proof.
  intros Hrun. rewrite !construct_spec. cbn [snd VectorStore.self].
  rewrite construct_spec in Hrun. cbn [snd] in Hrun.
  rewrite (add_all_loaded _ _ _ Hrun eq_refl). by destruct w.
Qed.

Definition two_calls : list add_call :=
  [ {| call_embeddings := [[1%float; 0%float]];
       call_documents := ["the cat sat"];
       call_metadatas := [{["title" := JStr "A"; "chunk_index" := JInt 0]}] |};
    {| call_embeddings := [[0%float; 1%float]; [0.5%float; 0.5%float]];
       call_documents := ["on the mat"; "all day"];
       call_metadatas := [{["title" := JStr "A"; "chunk_index" := JInt 1]};
                          {["title" := JStr "B"; "chunk_index" := JInt 0]}] |} ].

Lemma add_reload_roundtrip_witness :
  ∃ w, add_all two_calls (VectorStore.construct empty_directory).2 = (Return tt, w) ∧
       VectorStore.count (VectorStore.self w) = 3 ∧
       VectorStore.construct (VectorStore.disk w) = (Return tt, w).
Proof.
  eexists. split; [vm_compute; reflexivity|]. split; [reflexivity|].
  refine (proj1 (add_reload_roundtrip empty_directory two_calls _ _)).
  vm_compute; reflexivity.
Defined.

(** ** The "document" key *)

Lemma comprehension_Return {A B} (f : A → outcome B) l ys :
  comprehension f l = Return ys ↔ Forall2 (λ x y, f x = Return y) l ys.
Proof.
  revert ys. induction l as [|x l IH]; intros ys; cbn [comprehension].
  - split; [intros [= <-]; constructor|]. by inversion 1.
  - unfold mbind, outcome_bind. split.
    + destruct (f x) as [y|] eqn:Hx; [|done].
      destruct (comprehension f l) as [ys'|]; [|done].
      intros [= <-]. constructor; [done|]. by apply IH.
    + inversion 1 as [|? y ? ys' Hx Hl]; subst. rewrite Hx.
      apply IH in Hl. by rewrite Hl.
Qed.

Lemma outcome_bind_inv {A B} (m : outcome A) (f : A → outcome B) b :
  m ≫= f = Return b → ∃ a, m = Return a ∧ f a = Return b.
Proof. destruct m as [a|]; [|done]. intros Hf. by exists a. Qed.

Lemma getitem_Return (d : dict) key v : getitem d key = Return v ↔ d !! key = Some v.
Proof. unfold getitem. destruct (d !! key); split; congruence. Qed.

Lemma list_getitem_Return {A} (l : list A) i x :
  list_getitem l i = Return x ↔ l !! i = Some x.
Proof. unfold list_getitem. destruct (l !! i); split; congruence. Qed.

(** What a result of [query] is made of. *)
Lemma query_inv `{np.Argsort} s query_embedding n_results r :
  VectorStore.query s query_embedding n_results = Return r →
  (VectorStore.embeddings s = None ∨ VectorStore.metadata s = []) ∧
    r = VectorStore.empty_result
  ∨ ∃ e sims docs metas dists,
      VectorStore.embeddings s = Some e ∧ VectorStore.metadata s ≠ [] ∧
      VectorStore.similarities e (np.array1 query_embedding) = Return sims ∧
      let top := VectorStore.top_indices sims
                   (Z.min n_results (Z.of_nat (length (VectorStore.metadata s)))) in
      Forall2 (λ i d, ∃ m, VectorStore.metadata s !! i = Some m
                           ∧ m !! "document" = Some d) top docs ∧
      Forall2 (λ i m', ∃ m, VectorStore.metadata s !! i = Some m
                            ∧ m' = delete "document" m) top metas ∧
      Forall2 (λ i x, ∃ y, sims !! i = Some y ∧ x = F32.sub F32.one y) top dists ∧
      r = {| documents := [docs]; metadatas := [metas]; distances := [dists] |}.
Proof.
  unfold VectorStore.query.
  destruct (VectorStore.embeddings s) as [e|]; [|intros [= <-]; left; auto].
  destruct (VectorStore.metadata s) as [|m0 rest] eqn:Hm;
    [intros [= <-]; left; auto|].
  intros Hq. right.
  apply outcome_bind_inv in Hq as (sims & Hsims & Hq).
  apply outcome_bind_inv in Hq as (docs & Hdocs & Hq).
  apply outcome_bind_inv in Hq as (metas & Hmetas & Hq).
  apply outcome_bind_inv in Hq as (dists & Hdists & Hq).
  injection Hq as <-.
  exists e, sims, docs, metas, dists.
  split; [done|]. split; [done|]. split; [done|]. cbn zeta.
  apply comprehension_Return in Hdocs, Hmetas, Hdists.
  repeat split.
  - eapply Forall2_impl; [exact Hdocs|]. cbn. intros i d Hi.
    apply outcome_bind_inv in Hi as (m & Hi & Hd).
    exists m. by rewrite <- list_getitem_Return, <- getitem_Return.
  - eapply Forall2_impl; [exact Hmetas|]. cbn. intros i m' Hi.
    apply outcome_bind_inv in Hi as (m & Hi & [= <-]).
    exists m. by rewrite <- list_getitem_Return.
  - eapply Forall2_impl; [exact Hdists|]. cbn. intros i x Hi.
    apply outcome_bind_inv in Hi as (y & Hi & [= <-]).
    exists y. by rewrite <- list_getitem_Return.
Qed.




(** ** Ranking *)

Lemma similarities_spec d rows qv :
  length qv = d →
  VectorStore.similarities (Arr2 d rows) qv = Return (map (λ v, cosine v qv) rows).
Proof.
  intros <-. unfold VectorStore.similarities. cbn [np.norm_axis1 np.dot].
  rewrite Nat.eqb_refl. cbn. f_equal.
  induction rows as [|v rows IH]; cbn [map zip_with]; [done|]. by rewrite IH.
Qed.

Lemma argsort_length `{np.Argsort} a : length (np.argsort a) = length a.
Proof. by rewrite (np.argsort_perm a), length_seq. Qed.

Lemma argsort_lookup_lt `{np.Argsort} a p i :
  np.argsort a !! p = Some i → i < length a.
Proof.
  intros Hp. apply list_elem_of_lookup_2 in Hp.
  rewrite (np.argsort_perm a) in Hp. apply elem_of_seq in Hp. lia.
Qed.

Lemma argsort_elem_of `{np.Argsort} a i :
  i < length a → ∃ p, np.argsort a !! p = Some i.
Proof.
  intros Hi. apply list_elem_of_lookup. rewrite (np.argsort_perm a).
  apply elem_of_seq. lia.
Qed.

Lemma argsort_NoDup `{np.Argsort} a : NoDup (np.argsort a).
Proof. rewrite (np.argsort_perm a). apply NoDup_seq. Qed.

Lemma last_k_drop {A} k (l : list A) : np.last_k k l = drop (left_out k (length l)) l.
Proof. unfold np.last_k, left_out. by destruct (0 <? k)%Z. Qed.

(** The p-th result is the index [argsort] lists p-th from the end. *)
Lemma top_indices_lookup `{np.Argsort} sims k p i :
  VectorStore.top_indices sims k !! p = Some i ↔
  p < length sims - left_out k (length sims) ∧
  np.argsort sims !! (length sims - S p) = Some i.
Proof.
  unfold VectorStore.top_indices.
  rewrite reverse_lookup_Some, last_k_drop, length_drop, lookup_drop, argsort_length.
  split.
  - intros [Hi Hp]. split; [done|].
    by replace (length sims - S p) with
      (left_out k (length sims) + (length sims - left_out k (length sims) - S p)) by lia.
  - intros [Hp Hi]. split; [|done].
    by replace (left_out k (length sims) + (length sims - left_out k (length sims) - S p))
      with (length sims - S p) by lia.
Qed.

Lemma top_indices_length `{np.Argsort} sims k :
  length (VectorStore.top_indices sims k) = length sims - left_out k (length sims).
Proof.
  unfold VectorStore.top_indices.
  by rewrite length_reverse, last_k_drop, length_drop, argsort_length.
Qed.

Lemma top_indices_lt `{np.Argsort} sims k p i :
  VectorStore.top_indices sims k !! p = Some i → i < length sims.
Proof. rewrite top_indices_lookup. intros [_ Hp]. by eapply argsort_lookup_lt. Qed.

Lemma top_indices_NoDup `{np.Argsort} sims k : NoDup (VectorStore.top_indices sims k).
Proof.
  apply NoDup_alt. intros p q i [Hp Hi]%top_indices_lookup [Hq Hj]%top_indices_lookup.
  pose proof (argsort_NoDup sims) as Hnd. rewrite NoDup_alt in Hnd.
  specialize (Hnd _ _ _ Hi Hj). lia.
Qed.

(** Earlier results are never less similar than later ones. *)
Lemma top_indices_sorted `{np.Argsort} sims k p q i j x y :
  p < q →
  VectorStore.top_indices sims k !! p = Some i →
  VectorStore.top_indices sims k !! q = Some j →
  sims !! i = Some x → sims !! j = Some y → F32.lt x y = false.
Proof.
  intros Hpq [Hp Hi]%top_indices_lookup [Hq Hj]%top_indices_lookup Hx Hy.
  eapply (np.argsort_sorted sims (length sims - S q) (length sims - S p) j i);
    [lia|done..].
Qed.



Lemma comprehension_returns {A B} (f : A → outcome B) l :
  Forall (λ x, returns (f x)) l → returns (comprehension f l).
Proof.
  induction 1 as [|x l [y Hx] _ [ys IH]]; cbn [comprehension]; [by eexists|].
  unfold mbind, outcome_bind. rewrite Hx, IH. by eexists.
Qed.

(** On a consistent store, with a query vector of the store's dimension,
    [query] returns. *)
Lemma query_returns `{np.Argsort} s d rows query_embedding n_results :
  consistent s d rows → length query_embedding = d →
  returns (VectorStore.query s query_embedding n_results).
Proof.
  intros (He & Hlen & Hdoc) Hq. unfold VectorStore.query. rewrite He.
  destruct (VectorStore.metadata s) as [|m0 rest] eqn:Hm; [by eexists|].
  rewrite similarities_spec by (unfold np.array1; by rewrite length_map).
  cbn [mbind outcome_bind].
  set (sims := map _ rows). set (top := VectorStore.top_indices _ _).
  assert (∀ i, i ∈ top → i < length (m0 :: rest)) as Htop.
  { intros i [p Hp]%list_elem_of_lookup. apply top_indices_lt in Hp.
    unfold sims in Hp. rewrite length_map in Hp. lia. }
  destruct (comprehension_returns
    (λ i, m ← list_getitem (m0 :: rest) i; getitem m "document") top) as [docs ->].
  { apply Forall_forall. intros i Hi.
    destruct (lookup_lt_is_Some_2 (m0 :: rest) i (Htop i Hi)) as [m Hmi].
    rewrite Forall_forall in Hdoc.
    destruct (Hdoc m (list_elem_of_lookup_2 _ _ _ Hmi)) as [doc Hdoc'].
    exists doc. unfold list_getitem, getitem. rewrite Hmi. cbn. by rewrite Hdoc'. }
  destruct (comprehension_returns
    (λ i, m ← list_getitem (m0 :: rest) i; Return (delete "document" m)) top)
    as [metas ->].
  { apply Forall_forall. intros i Hi.
    destruct (lookup_lt_is_Some_2 (m0 :: rest) i (Htop i Hi)) as [m Hmi].
    eexists. unfold list_getitem. by rewrite Hmi. }
  destruct (comprehension_returns
    (λ i, x ← list_getitem sims i; Return (F32.sub F32.one x)) top) as [dists ->].
  { apply Forall_forall. intros i [p Hp]%list_elem_of_lookup.
    apply top_indices_lt in Hp.
    destruct (lookup_lt_is_Some_2 sims i Hp) as [x Hx].
    eexists. unfold list_getitem. by rewrite Hx. }
  by eexists.
Qed.

(** ** How many results, and in which order *)

Lemma query_result_length `{np.Argsort} s d rows query_embedding n_results :
  consistent s d rows → length query_embedding = d →
  ∃ docs metas dists,
    VectorStore.query s query_embedding n_results =
      Return {| documents := [docs]; metadatas := [metas]; distances := [dists] |} ∧
    length docs = VectorStore.count s
                  - left_out (Z.min n_results (Z.of_nat (VectorStore.count s)))
                             (VectorStore.count s) ∧
    length metas = length docs ∧ length dists = length docs.
Proof.
  intros Hs Hq. destruct (query_returns s d rows query_embedding n_results Hs Hq) as [r Hr].
  destruct Hs as (He & Hlen & _). unfold VectorStore.count.
  apply query_inv in Hr as Hinv.
  destruct Hinv as [[[H0|H0] ->]|(e & sims & docs & metas & dists & He' & _ & Hsims & Hr')].
  - congruence.
  - exists [], [], []. rewrite Hr, H0. cbn. done.
  - cbn zeta in Hr'. destruct Hr' as (Hdocs & Hmetas & Hdists & ->).
    exists docs, metas, dists. split; [done|].
    rewrite He in He'. injection He' as <-.
    rewrite similarities_spec in Hsims
      by (unfold np.array1; by rewrite length_map).
    injection Hsims as <-.
    apply Forall2_length in Hdocs, Hmetas, Hdists.
    rewrite top_indices_length, length_map, Hlen in Hdocs, Hmetas, Hdists.
    lia.
Qed.

(** C1, the failing case: with [n_results = 0] the slice [[-0:]] is the
    whole array, so on a consistent store [query] returns every record, not
    at most min(0, count) = 0 of them. *)
Theorem query_zero_results_returns_all `{np.Argsort} s d rows query_embedding :
  consistent s d rows → length query_embedding = d →
  ∃ docs metas dists,
    VectorStore.query s query_embedding 0 =
      Return {| documents := [docs]; metadatas := [metas]; distances := [dists] |} ∧
    length docs = VectorStore.count s.
Proof.
  intros Hs Hq.
  destruct (query_result_length s d rows query_embedding 0 Hs Hq)
    as (docs & metas & dists & Hr & Hlen & _).
  exists docs, metas, dists. split; [done|]. rewrite Hlen.
  unfold left_out. destruct (Z.ltb_spec 0 (0 `min` Z.of_nat (VectorStore.count s))); lia.
Qed.

Lemma one_record_consistent :
  consistent (VectorStore.self one_record_world) 2 [[F32.one; F32.zero]].
Proof.
  split; [reflexivity|]. split; [reflexivity|].
  repeat constructor. by eexists.
Qed.

Lemma query_zero_results_returns_all_witness :
  VectorStore.count (VectorStore.self one_record_world) = 1 ∧
  ∃ docs metas dists,
    VectorStore.query (VectorStore.self one_record_world) [1%float; 0%float] 0 =
      Return {| documents := [docs]; metadatas := [metas]; distances := [dists] |} ∧
    length docs = 1.
Proof.
  split; [reflexivity|].
  exact (query_zero_results_returns_all (VectorStore.self one_record_world) 2
           [[F32.one; F32.zero]] [1%float; 0%float] one_record_consistent eq_refl).
Defined.

(** The same call, evaluated: the one stored record comes back. *)
Example query_zero_results_example :
  VectorStore.query (VectorStore.self one_record_world) [1%float; 0%float] 0 =
    Return {| documents := [[JStr "the cat sat"]]; metadatas := [[∅]];
              distances := [[F32.zero]] |}.
Proof. vm_compute. reflexivity. Qed.

(** ** Which record comes first *)

(** On a consistent store [query] returns, and its result lists the records
    that [top_indices] selects from the similarities of the rows. *)
Lemma query_lists `{np.Argsort} s d rows query_embedding n_results :
  consistent s d rows → length query_embedding = d →
  let qv := np.array1 query_embedding in
  ∃ r, VectorStore.query s query_embedding n_results = Return r ∧
       lists r s rows qv
         (VectorStore.top_indices (map (λ v, cosine v qv) rows)
            (Z.min n_results (Z.of_nat (VectorStore.count s)))).
Proof.
  intros Hs Hq qv.
  destruct (query_returns s d rows query_embedding n_results Hs Hq) as [r Hr].
  exists r. split; [done|]. destruct Hs as (He & Hlen & _).
  apply query_inv in Hr.
  destruct Hr as [[[H0|H0] ->]|(e & sims & docs & metas & dists & He' & _ & Hsims & Hr)].
  - congruence.
  - rewrite H0 in Hlen. destruct rows; [|done].
    assert (VectorStore.top_indices (map (λ v, cosine v qv) [])
              (Z.min n_results (Z.of_nat (VectorStore.count s))) = []) as ->.
    { apply length_zero_iff_nil. by rewrite top_indices_length. }
    exists [], [], []. repeat split; constructor.
  - cbn zeta in Hr. destruct Hr as (Hdocs & Hmetas & Hdists & ->).
    rewrite He in He'. injection He' as <-.
    rewrite similarities_spec in Hsims
      by (unfold np.array1; by rewrite length_map).
    injection Hsims as <-. exists docs, metas, dists.
    split; [done|]. split; [done|]. split; [done|].
    eapply Forall2_impl; [exact Hdists|]. cbn. intros i x (y & Hy & ->).
    apply list_lookup_fmap_Some in Hy as (v & -> & Hv). by exists v.
Qed.

Definition two_equal_records : VectorStore.t :=
  {| VectorStore.embeddings := Some (Arr2 2 [[F32.one; F32.zero]; [F32.one; F32.zero]]);
     VectorStore.metadata := [{["document" := JStr "first"]};
                              {["document" := JStr "second"]}] |}.

(** C8, counterexample: two records with the same vector have the same
    similarity to every query; with the argsort that keeps equal values in
    index order, [query] returns the record inserted second before the one
    inserted first. *)
Lemma ties_not_in_insertion_order :
  cosine [F32.one; F32.zero] (np.array1 [1%float; 0%float]) = F32.one ∧
  VectorStore.query (H := stable_Argsort) two_equal_records [1%float; 0%float] 2 =
    Return {| documents := [[JStr "second"; JStr "first"]];
              metadatas := [[∅; ∅]];
              distances := [[F32.zero; F32.zero]] |}.
Proof. split; vm_compute; reflexivity. Qed.

(** C8, amended: with an argsort that keeps equal values in index order (what
    numpy's insertion sort does on short arrays, and what the default kind
    does not promise), whenever two returned records have exactly equal
    similarity to the query vector, the one inserted later comes first: ties
    appear in reverse insertion order. *)
Theorem ties_in_reverse_insertion_order s d rows query_embedding n_results :
  consistent s d rows → length query_embedding = d →
  let qv := np.array1 query_embedding in
  ∃ r top,
    VectorStore.query (H := stable_Argsort) s query_embedding n_results = Return r ∧
    lists r s rows qv top ∧
    ∀ p q i j vi vj,
      p < q → top !! p = Some i → top !! q = Some j →
      rows !! i = Some vi → rows !! j = Some vj →
      F32.lt (cosine vi qv) (cosine vj qv) = false →
      F32.lt (cosine vj qv) (cosine vi qv) = false →
      j < i.
Proof.
  intros Hs Hq qv.
  destruct (query_lists (H := stable_Argsort) s d rows query_embedding n_results Hs Hq)
    as (r & Hr & Hlists).
  eexists r, _. split; [exact Hr|]. split; [exact Hlists|].
  intros p q i j vi vj Hpq [Hp Hi]%top_indices_lookup [Hq' Hj]%top_indices_lookup
    Hvi Hvj Hij Hji.
  pose proof (λ Hpos, stable_argsort_before _ _ _ j i Hpos Hj Hi) as Hb.
  destruct Hb as [Hlt|[_ Hlt]]; [lia| |done].
  rewrite !list_lookup_total_alt, !list_lookup_fmap in Hlt.
  rewrite Hvi, Hvj in Hlt. cbn in Hlt. fold qv in Hlt. congruence.
Qed.

Lemma two_equal_records_consistent :
  consistent two_equal_records 2 [[F32.one; F32.zero]; [F32.one; F32.zero]].
Proof.
  split; [reflexivity|]. split; [reflexivity|].
  repeat constructor; by eexists.
Qed.

Lemma ties_in_reverse_insertion_order_witness :
  ∃ r top,
    VectorStore.query (H := stable_Argsort) two_equal_records [1%float; 0%float] 2
      = Return r ∧
    lists r two_equal_records [[F32.one; F32.zero]; [F32.one; F32.zero]]
      (np.array1 [1%float; 0%float]) top ∧
    ∀ p q i j vi vj,
      p < q → top !! p = Some i → top !! q = Some j →
      [[F32.one; F32.zero]; [F32.one; F32.zero]] !! i = Some vi →
      [[F32.one; F32.zero]; [F32.one; F32.zero]] !! j = Some vj →
      F32.lt (cosine vi (np.array1 [1%float; 0%float]))
             (cosine vj (np.array1 [1%float; 0%float])) = false →
      F32.lt (cosine vj (np.array1 [1%float; 0%float]))
             (cosine vi (np.array1 [1%float; 0%float])) = false →
      j < i.
Proof.
  exact (ties_in_reverse_insertion_order two_equal_records 2
           [[F32.one; F32.zero]; [F32.one; F32.zero]] [1%float; 0%float] 2
           two_equal_records_consistent eq_refl).
Defined.

(** ** Rounding errors of the float32 operations *)

Module Rounding.
Local Open Scope Z_scope.

(** Rounding to binary32, from the definitions of [SpecFloat]. *)













(** The value of a float, and the error of one rounding. *)






(** One unit in the last place of a normal number, relative to it. *)
Definition u : R := (/ 8388608)%R.



(** The operations on normal numbers. *)




















End Rounding.





(** ** Querying with a stored vector *)





Definition three_records : VectorStore.t :=
  {| VectorStore.embeddings :=
       Some (Arr2 2 [[F32.one; F32.zero]; [F32.zero; F32.one];
                     [F32.of_float 0.5; F32.of_float 0.5]]);
     VectorStore.metadata :=
       [{["document" := JStr "the cat sat"; "title" := JStr "A"]};
        {["document" := JStr "on the mat"; "title" := JStr "A"]};
        {["document" := JStr "all day"; "title" := JStr "B"]}] |}.


(** X1: on a consistent store, for [n_results ≥ 1] and a query vector of
    the store's dimension, [query] returns min(n_results, count) records:
    for each its document, its metadata and, as its distance, one minus the
    similarity of its row to the query vector; and the similarity of an
    earlier result's row to the query vector is never less than that of a
    later one's. *)
Theorem query_top_k_sorted `{np.Argsort} s d rows query_embedding n_results :
  consistent s d rows → length query_embedding = d → (1 ≤ n_results)%Z →
  let qv := np.array1 query_embedding in
  ∃ r top,
    VectorStore.query s query_embedding n_results = Return r ∧
    lists r s rows qv top ∧
    length top = Z.to_nat n_results `min` VectorStore.count s ∧
    ∀ p q i j vi vj,
      p < q → top !! p = Some i → top !! q = Some j →
      rows !! i = Some vi → rows !! j = Some vj →
      F32.lt (cosine vi qv) (cosine vj qv) = false.
Proof.
  intros Hs Hq Hk qv.
  destruct (query_lists s d rows query_embedding n_results Hs Hq) as (r & Hr & Hl).
  destruct Hs as (_ & Hlen & _).
  eexists r, _. split; [exact Hr|]. split; [exact Hl|].
  fold qv. set (sims := map (λ v, cosine v qv) rows). set (k := Z.min _ _).
  assert (length sims = VectorStore.count s) as Hsims
    by (unfold sims, VectorStore.count; by rewrite length_map).
  split.
  - rewrite top_indices_length, Hsims. unfold left_out, k.
    destruct (Z.ltb_spec 0 (n_results `min` Z.of_nat (VectorStore.count s))); lia.
  - intros p q i j vi vj Hpq Hp Hq' Hvi Hvj.
    eapply (top_indices_sorted sims k p q i j); [done..| |].
    + unfold sims. by rewrite list_lookup_fmap, Hvi.
    + unfold sims. by rewrite list_lookup_fmap, Hvj.
Qed.

Lemma three_records_rows :
  consistent three_records 2
    [[F32.one; F32.zero]; [F32.zero; F32.one]; [F32.of_float 0.5; F32.of_float 0.5]].
Proof.
  split; [reflexivity|]. split; [reflexivity|]. repeat constructor; by eexists.
Qed.

Lemma query_top_k_sorted_witness :
  ∃ r top,
    VectorStore.query (H := stable_Argsort) three_records [1%float; 0%float] 2 = Return r ∧
    lists r three_records
      [[F32.one; F32.zero]; [F32.zero; F32.one]; [F32.of_float 0.5; F32.of_float 0.5]]
      (np.array1 [1%float; 0%float]) top ∧
    length top = 2.
Proof.
  destruct (query_top_k_sorted (H := stable_Argsort) three_records 2
              [[F32.one; F32.zero]; [F32.zero; F32.one]; [F32.of_float 0.5; F32.of_float 0.5]]
              [1%float; 0%float] 2 three_records_rows eq_refl)
    as (r & top & Hr & Hl & Hlen & _).
  - lia.
  - exists r, top. split; [exact Hr|]. split; [exact Hl|exact Hlen].
Defined.

(** ** Clearing, and the one-record scenario *)

(** X2: [clear] leaves an empty instance (count 0) and a directory without
    either file, whatever was there before; clearing again changes nothing. *)
Theorem clear_empties w :
  VectorStore.clear w =
    (Return tt, {| VectorStore.self := VectorStore.blank;
                   VectorStore.disk := {| embeddings_file := None;
                                          metadata_file := None |} |})
  ∧ VectorStore.count (VectorStore.self (VectorStore.clear w).2) = 0
  ∧ VectorStore.clear (VectorStore.clear w).2 = VectorStore.clear w.
Proof. by destruct w. Qed.

(** An example: a store with the one record "the cat sat" and vector [1, 0], queried
    with the vector [1, 0] for the default four results, returns that record
    with distance 0. *)
Theorem query_one_record_scenario :
  VectorStore.query (H := stable_Argsort) (VectorStore.self one_record_world)
      [1%float; 0%float] config.TOP_K_RESULTS =
    Return {| documents := [[JStr "the cat sat"]]; metadatas := [[∅]];
              distances := [[F32.zero]] |}.
Proof. vm_compute. reflexivity. Qed.

(** * Further properties of the store *)

(** ** Which records a query selects *)

(** X3: on a consistent store, for every [n_results], positive or not,
    [query] returns min(n_results, count) records when [n_results ≥ 1], and
    all but the min(-n_results, count) least similar ones otherwise; no
    record is returned twice, and no record left out is more similar to the
    query than a returned one. *)
Theorem query_selects_most_similar `{np.Argsort} s d rows query_embedding n_results :
  consistent s d rows → length query_embedding = d →
  let qv := np.array1 query_embedding in
  ∃ r top,
    VectorStore.query s query_embedding n_results = Return r ∧
    lists r s rows qv top ∧ NoDup top ∧
    length top = (if (1 <=? n_results)%Z
                  then Z.to_nat n_results `min` VectorStore.count s
                  else VectorStore.count s - Z.to_nat (- n_results)) ∧
    ∀ i j vi vj, i ∈ top → j ∉ top → rows !! i = Some vi → rows !! j = Some vj →
                 F32.lt (cosine vi qv) (cosine vj qv) = false.
Proof.
  intros Hs Hq qv.
  destruct (query_lists s d rows query_embedding n_results Hs Hq) as (r & Hr & Hl).
  destruct Hs as (_ & Hlen & _).
  eexists r, _. split; [exact Hr|]. split; [exact Hl|].
  split; [apply top_indices_NoDup|].
  fold qv. set (sims := map (λ v, cosine v qv) rows).
  set (k := Z.min _ _).
  assert (length sims = VectorStore.count s) as Hsims
    by (unfold sims, VectorStore.count; by rewrite length_map).
  split.
  - rewrite top_indices_length, Hsims. unfold left_out, k.
    destruct (Z.leb_spec 1 n_results),
      (Z.ltb_spec 0 (n_results `min` Z.of_nat (VectorStore.count s))); lia.
  - intros i j vi vj [p Hp]%list_elem_of_lookup Hj Hvi Hvj.
    apply top_indices_lookup in Hp as [Hp Hi].
    assert (j < length sims) as Hjlt.
    { rewrite Hsims. unfold VectorStore.count. rewrite <- Hlen.
      by eapply lookup_lt_Some. }
    destruct (argsort_elem_of sims j Hjlt) as [pos Hpos].
    pose proof (lookup_lt_Some _ _ _ Hpos) as Hposlt. rewrite argsort_length in Hposlt.
    assert (pos < length sims - S p) as Hlt.
    { destruct (decide (pos < left_out k (length sims))) as [|Hge]; [lia|].
      exfalso. apply Hj. apply list_elem_of_lookup.
      exists (length sims - S pos). apply top_indices_lookup. split; [lia|].
      by replace (length sims - S (length sims - S pos)) with pos by lia. }
    eapply (np.argsort_sorted sims pos (length sims - S p) j i); [done..| |].
    + unfold sims. by rewrite list_lookup_fmap, Hvj.
    + unfold sims. by rewrite list_lookup_fmap, Hvi.
Qed.

Lemma three_records_consistent :
  consistent three_records 2
    [[F32.one; F32.zero]; [F32.zero; F32.one]; [F32.of_float 0.5; F32.of_float 0.5]].
Proof.
  split; [reflexivity|]. split; [reflexivity|]. repeat constructor; by eexists.
Qed.

Lemma query_selects_most_similar_witness :
  ∃ r top,
    VectorStore.query (H := stable_Argsort) three_records [1%float; 0%float] (-1)
      = Return r ∧
    lists r three_records
      [[F32.one; F32.zero]; [F32.zero; F32.one]; [F32.of_float 0.5; F32.of_float 0.5]]
      (np.array1 [1%float; 0%float]) top ∧
    length top = 2.
Proof.
  destruct (query_selects_most_similar (H := stable_Argsort) three_records 2
              [[F32.one; F32.zero]; [F32.zero; F32.one]; [F32.of_float 0.5; F32.of_float 0.5]]
              [1%float; 0%float] (-1) three_records_consistent eq_refl)
    as (r & top & Hr & Hl & _ & Hlen & _).
  exists r, top. split; [exact Hr|]. split; [exact Hl|exact Hlen].
Defined.

(** ** Queries that raise *)

(** X4: on a store that holds a matrix and at least one record, a query
    vector whose length is not the number of columns makes [query] raise
    numpy's shape error, whatever [n_results]; and on a store whose array is
    one-dimensional (what [add] leaves when it is given no vector), every
    query raises numpy's axis error. *)
Theorem query_wrong_shape_raises `{np.Argsort} s query_embedding n_results :
  VectorStore.metadata s ≠ [] →
  (∀ d rows, VectorStore.embeddings s = Some (Arr2 d rows) →
             length query_embedding ≠ d →
             VectorStore.query s query_embedding n_results = Raise ValueError) ∧
  (∀ xs, VectorStore.embeddings s = Some (Arr1 xs) →
         VectorStore.query s query_embedding n_results = Raise AxisError).
Proof.
  intros Hne. unfold VectorStore.query. split.
  - intros d rows -> Hlen. destruct (VectorStore.metadata s); [done|].
    unfold VectorStore.similarities. cbn [np.norm_axis1 mbind outcome_bind np.dot].
    unfold np.array1. rewrite length_map.
    by destruct (Nat.eqb_spec d (length query_embedding)); [congruence|].
  - intros xs ->. by destruct (VectorStore.metadata s).
Qed.

Lemma query_wrong_shape_raises_witness :
  VectorStore.query (H := stable_Argsort) three_records [1%float; 0%float; 0%float] 4
    = Raise ValueError.
Proof.
  refine (proj1 (query_wrong_shape_raises (H := stable_Argsort) three_records
                   [1%float; 0%float; 0%float] 4 _) 2 _ eq_refl _).
  - discriminate.
  - cbn. lia.
Defined.

(** ** What sequences of [add] keep *)

(** A call of [add] as the indexer makes it: at least one vector, every
    vector of length [d], and as many documents and metadata dicts as
    vectors. *)
Definition regular_call (d : nat) (c : add_call) : Prop :=
  call_embeddings c ≠ [] ∧
  Forall (λ v, length v = d) (call_embeddings c) ∧
  length (call_documents c) = length (call_embeddings c) ∧
  length (call_metadatas c) = length (call_embeddings c).

(** A store that regular calls can extend: empty, or consistent with rows of
    length [d]. *)
Definition extensible (s : VectorStore.t) (d : nat) : Prop :=
  s = VectorStore.blank ∨
  ∃ rows, consistent s d rows ∧ Forall (λ r, length r = d) rows.

Lemma new_records_document documents metadatas :
  Forall (λ m : dict, is_Some (m !! "document")) (new_records documents metadatas).
Proof.
  unfold new_records. revert metadatas.
  induction documents as [|doc docs IH]; intros [|meta metas]; cbn;
    constructor; [|apply IH].
  rewrite lookup_insert_eq. by eexists.
Qed.

Lemma add_uniform_returns w embeddings documents metadatas d :
  embeddings ≠ [] →
  Forall (λ v, length v = d) embeddings →
  (∀ old, VectorStore.embeddings (VectorStore.self w) = Some old →
          (np.atleast_2d old).1 = d) →
  let s' := {| VectorStore.embeddings :=
                 Some (Arr2 d (rows_of (VectorStore.embeddings (VectorStore.self w))
                                 ++ map (map F32.of_float) embeddings));
               VectorStore.metadata :=
                 kept_metadata (VectorStore.self w) ++ new_records documents metadatas |} in
  VectorStore.add embeddings documents metadatas w =
    (Return tt, {| VectorStore.self := s';
                   VectorStore.disk := saved s' (VectorStore.disk w) |}).
Proof.
  intros Hne Hd Hold. rewrite add_spec.
  destruct embeddings as [|v0 vs]; [done|]. cbn [np.array].
  apply Forall_cons in Hd as [Hv0 Hvs].
  assert (forallb (λ u : list float, Nat.eqb (length u) (length v0)) vs = true) as ->.
  { apply array_uniform. eapply Forall_impl; [exact Hvs|]. cbn. congruence. }
  rewrite Hv0. unfold kept_metadata, rows_of.
  destruct (VectorStore.embeddings (VectorStore.self w)) as [old|] eqn:E; [|done].
  specialize (Hold old eq_refl). unfold np.vstack.
  destruct (np.atleast_2d old) as [ca ra]. cbn [fst snd] in *.
  subst ca. cbn [np.atleast_2d]. by rewrite Nat.eqb_refl.
Qed.

Lemma add_regular w d c :
  extensible (VectorStore.self w) d → regular_call d c →
  ∃ w',
    VectorStore.add (call_embeddings c) (call_documents c) (call_metadatas c) w
      = (Return tt, w') ∧
    (∃ rows, consistent (VectorStore.self w') d rows ∧ Forall (λ r, length r = d) rows) ∧
    VectorStore.count (VectorStore.self w')
      = VectorStore.count (VectorStore.self w) + length (call_embeddings c).
Proof.
  intros Hext (Hne & Hd & Hdocs & Hmetas).
  eexists. split.
  { apply (add_uniform_returns w _ _ _ d Hne Hd).
    intros old Hold. destruct Hext as [Hb|(rows & (He & _) & _)].
    - rewrite Hb in Hold. discriminate.
    - rewrite He in Hold. by injection Hold as <-. }
  cbn [VectorStore.self].
  pose proof (length_zip_with (λ doc (meta : dict), <["document" := JStr doc]> meta)
                (call_documents c) (call_metadatas c)) as Hn.
  fold (new_records (call_documents c) (call_metadatas c)) in Hn.
  assert (Forall (λ r : list F32.t, length r = d)
            (map (map F32.of_float) (call_embeddings c))) as Hnew.
  { apply Forall_fmap. eapply Forall_impl; [exact Hd|]. cbn. intros v <-.
    apply length_map. }
  destruct Hext as [Hb|(rows & (He' & Hlen & Hdoc) & Hrows)].
  - rewrite Hb. cbn. split.
    + exists (map (map F32.of_float) (call_embeddings c)).
      split; [|exact Hnew]. split; [reflexivity|]. cbn. split.
      * rewrite length_map, Hn. lia.
      * apply new_records_document.
    + unfold VectorStore.count. cbn. rewrite Hn. lia.
  - unfold kept_metadata. rewrite He'. cbn. split.
    + exists (rows ++ map (map F32.of_float) (call_embeddings c)).
      split; [|by apply Forall_app]. split; [reflexivity|]. cbn. split.
      * rewrite !length_app, length_map, Hn. lia.
      * apply Forall_app. split; [done|apply new_records_document].
    + unfold VectorStore.count. cbn. rewrite length_app, Hn. lia.
Qed.

Lemma add_all_regular w d calls :
  extensible (VectorStore.self w) d → Forall (regular_call d) calls →
  ∃ w', add_all calls w = (Return tt, w') ∧
        extensible (VectorStore.self w') d ∧
        VectorStore.count (VectorStore.self w')
          = VectorStore.count (VectorStore.self w)
            + sum_list_with (λ c, length (call_embeddings c)) calls.
Proof.
  intros Hext Hcalls. revert w Hext.
  induction Hcalls as [|c calls Hc _ IH]; intros w Hext; cbn [add_all sum_list_with].
  - exists w. split; [done|]. split; [done|lia].
  - destruct (add_regular w d c Hext Hc) as (w1 & Hadd & Hcons & Hcount).
    destruct (IH w1 (or_intror Hcons)) as (w' & Hrest & Hext' & Hcount').
    exists w'. unfold mbind, SE_bind. rewrite Hadd. split; [done|].
    split; [done|lia].
Qed.




(** ** Metadata in, metadata out *)

Lemma new_records_stripped documents metadatas :
  map (delete "document") (new_records documents metadatas)
    = map (delete "document") (take (length documents) metadatas).
Proof.
  unfold new_records. revert metadatas.
  induction documents as [|doc docs IH]; intros [|meta metas]; cbn; [done..|].
  by rewrite delete_insert_eq, IH.
Qed.

(** X6: after a call of [add] that returns, [get_all_metadata] gives the
    metadata the store kept, then the dicts of the call without their
    "document" key, one per document, in the order given.  Dicts passed
    without a "document" key, no more of them than documents, come back as
    they were passed. *)
Theorem add_then_get_all_metadata w w' vectors texts metas :
  VectorStore.add vectors texts metas w = (Return tt, w') →
  VectorStore.get_all_metadata (VectorStore.self w')
    = map (delete "document") (kept_metadata (VectorStore.self w))
      ++ map (delete "document") (take (length texts) metas)
  ∧ ((length metas ≤ length texts)%nat →
     Forall (λ m : dict, m !! "document" = None) metas →
     VectorStore.get_all_metadata (VectorStore.self w')
       = map (delete "document") (kept_metadata (VectorStore.self w)) ++ metas).
Proof.
  intros Hadd.
  assert (VectorStore.get_all_metadata (VectorStore.self w')
          = map (delete "document") (kept_metadata (VectorStore.self w))
            ++ map (delete "document") (take (length texts) metas)) as Hall.
  { unfold VectorStore.get_all_metadata, kept_metadata.
    rewrite add_spec in Hadd.
    destruct (np.array vectors) as [new|]; [|done].
    destruct (VectorStore.embeddings (VectorStore.self w)) as [old|].
    - destruct (np.vstack old new); [|done]. injection Hadd as <-. cbn.
      by rewrite map_app, new_records_stripped.
    - injection Hadd as <-. cbn. by rewrite new_records_stripped. }
  split; [done|]. intros Hlen Hnone. rewrite Hall. f_equal.
  rewrite take_ge by lia. clear -Hnone.
  induction Hnone as [|m metas Hm _ IH]; cbn; [done|]. by rewrite delete_id, IH.
Qed.

Lemma add_then_get_all_metadata_witness :
  ∃ w', VectorStore.add [[0%float; 1%float]] ["on the mat"]
          [{["title" := JStr "A"]}] one_record_world = (Return tt, w') ∧
        VectorStore.get_all_metadata (VectorStore.self w') = [∅; {["title" := JStr "A"]}].
Proof.
  eexists. split; [vm_compute; reflexivity|].
  refine (eq_trans (proj2 (add_then_get_all_metadata one_record_world _
            [[0%float; 1%float]] ["on the mat"] [{["title" := JStr "A"]}] _) _ _) _).
  - vm_compute. reflexivity.
  - cbn. lia.
  - repeat constructor.
  - vm_compute. reflexivity.
Defined.

(** * Further properties of the query pipeline *)

(** ** The loop over the retrieved chunks *)

(** The start of the loop: no part, no source, no page seen. *)
Definition loop_start : Query.locals :=
  {| Query.context_parts := []; Query.loop_sources := []; Query.seen_pages := ∅ |}.

(** The page id of a retrieved chunk, when its metadata has one. *)
Definition page_of (item : jvalue * dict) : option jvalue := item.2 !! "page_id".

(** The i-th element of a list is the first with its key. *)
Definition first_with_key {A} (key : A → option jvalue) (items : list A) (i : nat) : Prop :=
  ∃ item k, items !! i = Some item ∧ key item = Some k ∧
    ∀ j item', j < i → items !! j = Some item' → key item' ≠ Some k.

(** The i-th item is the first of its page. *)
Definition first_of_its_page (items : list (jvalue * dict)) (i : nat) : Prop :=
  first_with_key page_of items i.

(** [src] is the source entry of the i-th item: its title and its url. *)
Definition source_at (items : list (jvalue * dict)) (i : nat) (src : Query.Source) : Prop :=
  ∃ item t u, items !! i = Some item ∧ item.2 !! "title" = Some t ∧
    item.2 !! "url" = Some u ∧ src = {| Query.title := t; Query.url := u |}.

(** [part] is the context part of an item: its title in brackets, a line
    break, its text. *)
Definition part_of (item : jvalue * dict) (part : string) : Prop :=
  ∃ t, item.2 !! "title" = Some t ∧
    part = "[From: " +:+ py_str t +:+ "]" +:+ Query.nl +:+ py_str item.1.

Definition loop_invariant (items : list (jvalue * dict)) (st : Query.locals) : Prop :=
  ∃ idx,
    StronglySorted lt idx ∧
    (∀ i, i ∈ idx ↔ first_of_its_page items i) ∧
    Forall2 (source_at items) idx (Query.loop_sources st) ∧
    Forall2 part_of items (Query.context_parts st) ∧
    (∀ pid, pid ∈ Query.seen_pages st ↔ ∃ item, item ∈ items ∧ page_of item = Some pid).

Lemma first_with_key_lt {A} (key : A → option jvalue) items i :
  first_with_key key items i → i < length items.
Proof. intros (item & k & Hi & _). by eapply lookup_lt_Some. Qed.

Lemma first_with_key_snoc {A} (key : A → option jvalue) items x i :
  first_with_key key (items ++ [x]) i ↔
  first_with_key key items i ∨
  (i = length items ∧ ∃ k, key x = Some k ∧
     ∀ item, item ∈ items → key item ≠ Some k).
Proof.
  split.
  - intros (item & k & Hi & Hk & Hfirst).
    destruct (decide (i < length items)) as [Hlt|Hge].
    + left. rewrite lookup_app_l in Hi by done. exists item, k.
      split; [done|]. split; [done|]. intros j item' Hj Hj'.
      apply (Hfirst j item' Hj). by rewrite lookup_app_l by lia.
    + right. pose proof (lookup_lt_Some _ _ _ Hi) as Hi'.
      rewrite length_app in Hi'. cbn in Hi'.
      assert (i = length items) as -> by lia. split; [done|].
      rewrite list_lookup_middle in Hi by done. injection Hi as <-.
      exists k. split; [done|]. intros item' [j Hj]%list_elem_of_lookup.
      apply (Hfirst j item'); [by eapply lookup_lt_Some|].
      rewrite lookup_app_l; [done|by eapply lookup_lt_Some].
  - intros [(item & k & Hi & Hk & Hfirst)|(-> & k & Hk & Hfresh)].
    + pose proof (lookup_lt_Some _ _ _ Hi) as Hlt.
      exists item, k. rewrite lookup_app_l by done. split; [done|].
      split; [done|]. intros j item' Hj Hj'. apply (Hfirst j item' Hj).
      by rewrite lookup_app_l in Hj' by lia.
    + exists x, k. rewrite list_lookup_middle by done. split; [done|].
      split; [done|]. intros j item' Hj Hj'. apply Hfresh.
      rewrite lookup_app_l in Hj' by done. by eapply list_elem_of_lookup_2.
Qed.

Lemma first_of_its_page_lt items i : first_of_its_page items i → i < length items.
Proof. apply first_with_key_lt. Qed.

Lemma first_of_its_page_snoc items x i :
  first_of_its_page (items ++ [x]) i ↔
  first_of_its_page items i ∨
  (i = length items ∧ ∃ pid, page_of x = Some pid ∧
     ∀ item, item ∈ items → page_of item ≠ Some pid).
Proof. apply first_with_key_snoc. Qed.

Lemma source_at_snoc items x i src : source_at items i src → source_at (items ++ [x]) i src.
Proof.
  intros (item & t & u & Hi & Ht & Hu & ->). exists item, t, u.
  split; [|done]. rewrite lookup_app_l; [done|by eapply lookup_lt_Some].
Qed.

Lemma loop_body_invariant items st x st' :
  loop_invariant items st → Query.loop_body st x = Return st' →
  loop_invariant (items ++ [x]) st'.
Proof.
  intros (idx & Hsorted & Hidx & Hsrc & Hparts & Hseen) Hbody.
  destruct x as [chunk meta]. unfold Query.loop_body in Hbody.
  apply outcome_bind_inv in Hbody as (t & Ht%getitem_Return & Hbody).
  apply outcome_bind_inv in Hbody as (pid & Hpid%getitem_Return & Hbody).
  assert (Forall2 part_of (items ++ [(chunk, meta)])
            (Query.context_parts st
               ++ ["[From: " +:+ py_str t +:+ "]" +:+ Query.nl +:+ py_str chunk])) as Hparts'.
  { apply Forall2_app; [done|]. repeat constructor. by exists t. }
  assert (∀ seen' : gset jvalue, (∀ p, p ∈ seen' ↔ p = pid ∨ p ∈ Query.seen_pages st) →
            ∀ p, p ∈ seen' ↔ ∃ item, item ∈ items ++ [(chunk, meta)] ∧ page_of item = Some p)
    as Hseen'.
  { intros seen' Hs p. rewrite Hs, Hseen. split.
    - intros [->|(item & Hin & Hp)].
      + exists (chunk, meta). split; [|done]. apply elem_of_app. right. by left.
      + exists item. split; [|done]. apply elem_of_app. by left.
    - intros (item & [Hin|Hin%list_elem_of_singleton]%elem_of_app & Hp).
      + right. by exists item.
      + left. subst item. unfold page_of in Hp. cbn in Hp. congruence. }
  destruct (bool_decide (pid ∈ Query.seen_pages st)) eqn:Hdec.
  - apply bool_decide_eq_true in Hdec. injection Hbody as <-.
    exists idx. cbn. split; [done|]. split; [|split; [|split]].
    + intros i. rewrite first_of_its_page_snoc, Hidx. split; [by left|].
      intros [?|(-> & pid' & Hpid' & Hfresh)]; [done|exfalso].
      unfold page_of in Hpid'. cbn in Hpid'. assert (pid' = pid) as -> by congruence.
      apply Hseen in Hdec as (item & Hin & Hp). by apply (Hfresh item).
    + eapply Forall2_impl; [exact Hsrc|]. intros. by apply source_at_snoc.
    + done.
    + apply Hseen'. intros p. split; [by right|]. by intros [->|?].
  - apply bool_decide_eq_false in Hdec.
    apply outcome_bind_inv in Hbody as (t' & Ht'%getitem_Return & Hbody).
    apply outcome_bind_inv in Hbody as (u & Hu%getitem_Return & Hbody).
    injection Hbody as <-. exists (idx ++ [length items]). cbn.
    split; [|split; [|split; [|split]]].
    + apply StronglySorted_app_2; [|done|repeat constructor].
      intros i j Hi ->%list_elem_of_singleton.
      by apply first_of_its_page_lt, Hidx.
    + intros i. rewrite first_of_its_page_snoc, elem_of_app, Hidx, list_elem_of_singleton.
      split; (intros [?|Hi]; [by left|right]).
      * subst i. split; [done|]. exists pid. split; [done|].
        intros item Hin Hp. apply Hdec, Hseen. by exists item.
      * by destruct Hi.
    + apply Forall2_app.
      * eapply Forall2_impl; [exact Hsrc|]. intros. by apply source_at_snoc.
      * repeat constructor. exists (chunk, meta), t', u.
        by rewrite list_lookup_middle.
    + done.
    + apply Hseen'. intros p. by rewrite elem_of_union, elem_of_singleton.
Qed.

Lemma for_loop_invariant pre rest st st' :
  loop_invariant pre st → Query.for_loop Query.loop_body rest st = Return st' →
  loop_invariant (pre ++ rest) st'.
Proof.
  revert pre st. induction rest as [|x rest IH]; intros pre st Hinv; cbn [Query.for_loop].
  - intros [= <-]. by rewrite app_nil_r.
  - intros (st1 & Hbody & Hrest)%outcome_bind_inv.
    rewrite (cons_middle x pre rest), app_assoc.
    eapply IH; [|exact Hrest]. by eapply loop_body_invariant.
Qed.

Lemma loop_start_invariant : loop_invariant [] loop_start.
Proof.
  exists []. split; [constructor|]. split; [|split; [constructor|split; [constructor|]]].
  - intros i. split; [by intros ?%elem_of_nil|].
    intros (item & pid & Hi & _). by rewrite lookup_nil in Hi.
  - intros pid. split; [by intros ?%elem_of_empty|].
    by intros (item & ?%elem_of_nil & _).
Qed.

(** X7: when the loop over the retrieved chunks ends without an error, the
    sources are exactly the first chunk of each page, in the order in which
    the pages were first seen, each with the title and url of that chunk;
    and the context has one part per chunk, in the chunks' order, made of
    the chunk's title and text. *)
Theorem sources_are_first_seen_pages items st :
  Query.for_loop Query.loop_body items loop_start = Return st →
  ∃ idx,
    StronglySorted lt idx ∧
    (∀ i, i ∈ idx ↔ first_of_its_page items i) ∧
    Forall2 (source_at items) idx (Query.loop_sources st) ∧
    Forall2 part_of items (Query.context_parts st).
Proof.
  intros Hloop.
  destruct (for_loop_invariant [] items loop_start st loop_start_invariant Hloop)
    as (idx & H1 & H2 & H3 & H4 & _).
  by exists idx.
Qed.

Definition page_item (page t text : string) : jvalue * dict :=
  (JStr text, {["page_id" := JStr page; "title" := JStr t;
                "url" := JStr ("https://notion.so/" +:+ page)]}).

Definition three_items : list (jvalue * dict) :=
  [page_item "a" "A" "the cat sat"; page_item "b" "B" "all day";
   page_item "a" "A" "on the mat"].

Lemma sources_are_first_seen_pages_witness :
  ∃ st idx,
    Query.for_loop Query.loop_body three_items loop_start = Return st ∧
    StronglySorted lt idx ∧
    (∀ i, i ∈ idx ↔ first_of_its_page three_items i) ∧
    Forall2 (source_at three_items) idx (Query.loop_sources st) ∧
    length (Query.loop_sources st) = 2.
Proof.
  destruct (Query.for_loop Query.loop_body three_items loop_start) as [st|e] eqn:E;
    [|vm_compute in E; discriminate E].
  destruct (sources_are_first_seen_pages three_items st E) as (idx & H1 & H2 & H3 & _).
  exists st, idx. split; [reflexivity|]. split; [exact H1|]. split; [exact H2|].
  split; [exact H3|]. vm_compute in E. injection E as <-. reflexivity.
Defined.

(** ** What the pipeline does, case by case *)

Definition not_indexed : Query.Answer :=
  {| Query.answer := "No notes indexed yet. Run 'python cli.py index' first.";
     Query.sources := [] |}.

Definition no_relevant_notes : Query.Answer :=
  {| Query.answer := "No relevant notes found."; Query.sources := [] |}.

(** The line printed when [verbose] is set. *)
Definition found_line (chunks : list jvalue) (st : Query.locals) : string :=
  "Found " +:+ pretty (length chunks) +:+ " relevant chunks from "
  +:+ pretty (length (Query.loop_sources st)) +:+ " pages" +:+ Query.nl.

(** The prompt built from the parts of the context. *)
Definition prompt_of (st : Query.locals) (question : string) : string :=
  Query.SYSTEM_PROMPT
    (String.concat (Query.nl +:+ Query.nl +:+ "---" +:+ Query.nl +:+ Query.nl)
       (Query.context_parts st))
    question.

Lemma pipeline_spec `{np.Argsort} embed_query invoke db question verbose tr :
  Query.query embed_query invoke db question verbose tr =
    let store := loaded db in
    if Nat.eqb (VectorStore.count store) 0 then (Return not_indexed, tr)
    else
      let tr1 := tr ++ [Query.EmbedQuery config.EMBEDDING_MODEL question] in
      match VectorStore.query store (embed_query config.EMBEDDING_MODEL question)
              config.TOP_K_RESULTS with
      | Raise e => (Raise e, tr1)
      | Return results =>
          match documents results with
          | [] => (Raise IndexError, tr1)
          | [] :: _ => (Return no_relevant_notes, tr1)
          | (c :: cs) :: _ =>
              match metadatas results with
              | [] => (Raise IndexError, tr1)
              | metas :: _ =>
                  match Query.for_loop Query.loop_body (zip (c :: cs) metas) loop_start with
                  | Raise e => (Raise e, tr1)
                  | Return st =>
                      (Return {| Query.answer :=
                                   invoke config.LLM_MODEL (prompt_of st question);
                                 Query.sources := Query.loop_sources st |},
                       tr1 ++ (if verbose then [Query.Printed (found_line (c :: cs) st)]
                               else [])
                           ++ [Query.Invoke config.LLM_MODEL (prompt_of st question)])
                  end
              end
          end
      end.
Proof.
  unfold Query.query. rewrite construct_spec. cbn [VectorStore.self]. cbn zeta.
  destruct (Nat.eqb _ 0); [done|].
  unfold mbind, SE_bind, Query.emit, lift, mret, SE_ret.
  destruct (VectorStore.query _ _ _) as [results|]; [|done].
  destruct (documents results) as [|[|c cs] ?]; [done..|]. cbn [list_getitem lookup list_lookup].
  destruct (metadatas results) as [|metas ?]; [done|]. cbn [list_getitem lookup list_lookup].
  fold loop_start.
  destruct (Query.for_loop _ _ _) as [st|]; [|done].
  unfold prompt_of, found_line. destruct verbose; cbn; by rewrite <- ?app_assoc.
Qed.

(** X8: whatever the directory, the question and the models, the pipeline
    does one of three things: it returns the fixed "not indexed" answer
    without any call or line; or it calls the embedding model once, with the
    question, and then raises or returns the fixed "no relevant notes"
    answer; or it calls the embedding model once, prints one line when
    [verbose] is set, calls the generation model once, and returns that
    call's result as the answer.  The generation model is never called
    before the embedding model, never twice, and never before an error. *)
Theorem pipeline_calls `{np.Argsort} embed_query invoke db question verbose tr :
  let embedded := Query.EmbedQuery config.EMBEDDING_MODEL question in
  let run := Query.query embed_query invoke db question verbose tr in
  run = (Return not_indexed, tr)
  ∨ (run.2 = tr ++ [embedded] ∧
     ((∃ e, run.1 = Raise e) ∨ run.1 = Return no_relevant_notes))
  ∨ ∃ prompt printed srcs,
      run = (Return {| Query.answer := invoke config.LLM_MODEL prompt;
                       Query.sources := srcs |},
             tr ++ [embedded] ++ printed ++ [Query.Invoke config.LLM_MODEL prompt]) ∧
      (if verbose then ∃ line, printed = [Query.Printed line] else printed = []).
Proof.
  cbn zeta. rewrite pipeline_spec. cbn zeta.
  destruct (Nat.eqb _ 0); [by left|]. right.
  destruct (VectorStore.query _ _ _) as [results|e]; [|left; eauto].
  destruct (documents results) as [|[|c cs] ?]; [left; eauto..|].
  destruct (metadatas results) as [|metas ?]; [left; eauto|].
  destruct (Query.for_loop _ _ _) as [st|e]; [|left; eauto].
  right. eexists _, _, _. split; [by rewrite <- app_assoc|].
  destruct verbose; eauto.
Qed.

(** ** The pipeline on an indexed store *)

(** A metadata dict the pipeline can cite: it has a title, a page id and a
    url, as the indexer writes them. *)
Definition citable (m : dict) : Prop :=
  is_Some (m !! "title") ∧ is_Some (m !! "page_id") ∧ is_Some (m !! "url").

Lemma loop_body_returns st item : citable item.2 → returns (Query.loop_body st item).
Proof.
  destruct item as [chunk meta]. intros ([t Ht] & [pid Hpid] & [u Hu]).
  unfold Query.loop_body, getitem. cbn in *. rewrite Ht, Hpid. cbn.
  destruct (bool_decide _); [by eexists|]. rewrite Hu. by eexists.
Qed.

Lemma for_loop_returns items st :
  Forall (λ item : jvalue * dict, citable item.2) items →
  returns (Query.for_loop Query.loop_body items st).
Proof.
  intros Hitems. revert st.
  induction Hitems as [|item items Hitem _ IH]; intros st; cbn [Query.for_loop];
    [by eexists|].
  destruct (loop_body_returns st item Hitem) as [st1 ->]. apply IH.
Qed.

Lemma sorted_indices_length idx n :
  StronglySorted lt idx → Forall (λ i, i < n) idx → (length idx ≤ n)%nat.
Proof.
  intros Hs Hn.
  apply Nat.le_trans with (length (seq 0 n)); [|by rewrite length_seq].
  apply submseteq_length, NoDup_submseteq.
  - clear Hn. induction Hs as [|i idx _ IH Hi]; constructor; [|done].
    intros Hin. rewrite Forall_forall in Hi. specialize (Hi i Hin). lia.
  - intros i Hi. rewrite Forall_forall in Hn. apply elem_of_seq. specialize (Hn i Hi). lia.
Qed.

(** The pipeline on a consistent store whose records can be cited. *)
Lemma pipeline_on_consistent_store `{np.Argsort}
    embed_query invoke db question verbose tr d rows :
  consistent (loaded db) d rows →
  VectorStore.count (loaded db) ≠ 0 →
  Forall citable (VectorStore.metadata (loaded db)) →
  length (embed_query config.EMBEDDING_MODEL question) = d →
  ∃ st printed,
    Query.query embed_query invoke db question verbose tr =
      (Return {| Query.answer := invoke config.LLM_MODEL (prompt_of st question);
                 Query.sources := Query.loop_sources st |},
       tr ++ [Query.EmbedQuery config.EMBEDDING_MODEL question] ++ printed
          ++ [Query.Invoke config.LLM_MODEL (prompt_of st question)]) ∧
    (if verbose then ∃ line, printed = [Query.Printed line] else printed = []) ∧
    length (Query.context_parts st) = 4 `min` VectorStore.count (loaded db) ∧
    (1 ≤ length (Query.loop_sources st))%nat ∧
    (length (Query.loop_sources st) ≤ length (Query.context_parts st))%nat.
Proof.
  intros Hs Hcount Hcite Hq. rewrite pipeline_spec. cbn zeta.
  destruct (Nat.eqb_spec (VectorStore.count (loaded db)) 0) as [|_]; [done|].
  destruct (query_lists (loaded db) d rows _ config.TOP_K_RESULTS Hs Hq)
    as (r & -> & docs & metas & dists & -> & Hdocs & Hmetas & _).
  cbn [documents metadatas].
  set (top := VectorStore.top_indices _ _) in *.
  assert (length top = 4 `min` VectorStore.count (loaded db)) as Htop.
  { unfold top. rewrite top_indices_length, length_map.
    destruct Hs as (_ & -> & _). unfold left_out, config.TOP_K_RESULTS, VectorStore.count in *.
    destruct (Z.ltb_spec 0 (4 `min` Z.of_nat (length (VectorStore.metadata (loaded db)))));
      lia. }
  pose proof (Forall2_length _ _ _ Hdocs) as Hld.
  pose proof (Forall2_length _ _ _ Hmetas) as Hlm.
  destruct docs as [|c cs]; [cbn in Hld; lia|].
  assert (Forall (λ item : jvalue * dict, citable item.2) (zip (c :: cs) metas)) as Hitems.
  { apply Forall_forall. intros [chunk meta] Hin. cbn.
    apply elem_of_zip_r in Hin. apply list_elem_of_lookup in Hin as [p Hp].
    destruct (Forall2_lookup_r _ _ _ _ _ Hmetas Hp) as (i & _ & m & Hm & ->).
    rewrite Forall_forall in Hcite.
    destruct (Hcite m (list_elem_of_lookup_2 _ _ _ Hm)) as (Ht & Hp' & Hu).
    unfold citable. by rewrite !lookup_delete_ne. }
  destruct (for_loop_returns _ loop_start Hitems) as [st Hst]. rewrite Hst.
  destruct (for_loop_invariant [] _ loop_start st loop_start_invariant Hst)
    as (idx & Hsorted & Hidx & Hsrc & Hparts & _).
  cbn [app] in *.
  exists st, (if verbose then [Query.Printed (found_line (c :: cs) st)] else []).
  split; [by rewrite <- !app_assoc|].
  split; [destruct verbose; eauto|].
  pose proof (Forall2_length _ _ _ Hparts) as Hlp.
  pose proof (Forall2_length _ _ _ Hsrc) as Hlsrc.
  rewrite length_zip_with in Hlp.
  assert (0 ∈ idx) as H0.
  { apply Hidx. destruct metas as [|m0 metas]; [cbn in Hlm; lia|].
    apply Forall_cons in Hitems as [(_ & [pid Hpid] & _) _].
    exists (c, m0), pid. split; [done|]. split; [done|]. intros j ? Hj. lia. }
  assert (length idx ≤ length (zip (c :: cs) metas))%nat as Hidxlen.
  { apply sorted_indices_length; [done|]. apply Forall_forall. intros i Hi.
    by apply first_of_its_page_lt, Hidx. }
  rewrite length_zip_with in Hidxlen.
  split; [lia|]. split; [|lia].
  rewrite <- Hlsrc. destruct idx; [by apply elem_of_nil in H0|cbn; lia].
Qed.

(** X9: on a directory that holds a consistent, non-empty store whose
    records all have a title, a page id and a url, with an embedding of the
    question that has the store's dimension, the pipeline raises nothing: it
    retrieves min(4, count) chunks, calls the embedding model and then the
    generation model once each (what it adds to the trace is the call of the
    embedding model, one printed line when [verbose] is set and nothing
    otherwise, then the call of the generation model), returns the
    generation model's output on the prompt built from one context part per
    chunk, and cites at least one source and at most one per chunk. *)
Theorem pipeline_answers_on_indexed_store `{np.Argsort}
    embed_query invoke db question verbose tr d rows :
  consistent (loaded db) d rows →
  VectorStore.count (loaded db) ≠ 0 →
  Forall citable (VectorStore.metadata (loaded db)) →
  length (embed_query config.EMBEDDING_MODEL question) = d →
  ∃ st printed,
    Query.query embed_query invoke db question verbose tr =
      (Return {| Query.answer := invoke config.LLM_MODEL (prompt_of st question);
                 Query.sources := Query.loop_sources st |},
       tr ++ [Query.EmbedQuery config.EMBEDDING_MODEL question] ++ printed
          ++ [Query.Invoke config.LLM_MODEL (prompt_of st question)]) ∧
    (if verbose then ∃ line, printed = [Query.Printed line] else printed = []) ∧
    length (Query.context_parts st) = 4 `min` VectorStore.count (loaded db) ∧
    (1 ≤ length (Query.loop_sources st))%nat ∧
    (length (Query.loop_sources st) ≤ length (Query.context_parts st))%nat.
Proof. apply pipeline_on_consistent_store. Qed.

Definition page_meta (page t text : string) (i : Z) : dict :=
  {["document" := JStr text; "page_id" := JStr page; "title" := JStr t;
    "url" := JStr ("https://notion.so/" +:+ page);
    "last_edited" := JStr "2024-01-01"; "chunk_index" := JInt i]}.

Definition indexed_directory : Disk :=
  {| embeddings_file :=
       Some (Arr2 2 [[F32.one; F32.zero]; [F32.zero; F32.one];
                     [F32.of_float 0.5; F32.of_float 0.5]]);
     metadata_file :=
       Some [page_meta "a" "A" "the cat sat" 0; page_meta "a" "A" "on the mat" 1;
             page_meta "b" "B" "all day" 0] |}.

Lemma indexed_directory_consistent :
  consistent (loaded indexed_directory) 2
    [[F32.one; F32.zero]; [F32.zero; F32.one]; [F32.of_float 0.5; F32.of_float 0.5]].
Proof.
  split; [reflexivity|]. split; [reflexivity|]. repeat constructor; by eexists.
Qed.

Lemma indexed_directory_citable :
  Forall citable (VectorStore.metadata (loaded indexed_directory)).
Proof. repeat constructor; by eexists. Qed.

Lemma pipeline_answers_on_indexed_store_witness :
  ∃ st printed,
    Query.query (H := stable_Argsort) (λ _ _, [1%float; 0.5%float]) (λ _ prompt, prompt)
        indexed_directory "What did the cat do?" true [] =
      (Return {| Query.answer := prompt_of st "What did the cat do?";
                 Query.sources := Query.loop_sources st |},
       [] ++ [Query.EmbedQuery config.EMBEDDING_MODEL "What did the cat do?"] ++ printed
          ++ [Query.Invoke config.LLM_MODEL (prompt_of st "What did the cat do?")]) ∧
    (∃ line, printed = [Query.Printed line]) ∧
    length (Query.context_parts st) = 3.
Proof.
  destruct (pipeline_answers_on_indexed_store (H := stable_Argsort)
              (λ _ _, [1%float; 0.5%float]) (λ _ prompt, prompt)
              indexed_directory "What did the cat do?" true [] 2 _
              indexed_directory_consistent)
    as (st & printed & Hrun & Hprinted & Hparts & _).
  - cbn. lia.
  - exact indexed_directory_citable.
  - reflexivity.
  - exists st, printed. split; [exact Hrun|]. split; [exact Hprinted|exact Hparts].
Defined.

(** X10: when the store over the directory holds a matrix and at least one
    record, and the embedding of the question has another length than the
    matrix has columns (the embedding model was changed without a new
    index), the pipeline raises numpy's shape error after its one call of
    the embedding model, and does not call the generation model. *)
Theorem pipeline_wrong_dimension_raises `{np.Argsort}
    embed_query invoke db question verbose tr d rows :
  VectorStore.embeddings (loaded db) = Some (Arr2 d rows) →
  VectorStore.count (loaded db) ≠ 0 →
  length (embed_query config.EMBEDDING_MODEL question) ≠ d →
  Query.query embed_query invoke db question verbose tr =
    (Raise ValueError, tr ++ [Query.EmbedQuery config.EMBEDDING_MODEL question]).
Proof.
  intros He Hcount Hlen. rewrite pipeline_spec. cbn zeta.
  destruct (Nat.eqb_spec (VectorStore.count (loaded db)) 0) as [|_]; [done|].
  unfold VectorStore.query. rewrite He. unfold VectorStore.count in Hcount.
  destruct (VectorStore.metadata (loaded db)); [done|].
  unfold VectorStore.similarities. cbn [np.norm_axis1 mbind outcome_bind np.dot].
  unfold np.array1. rewrite length_map.
  by destruct (Nat.eqb_spec d (length (embed_query config.EMBEDDING_MODEL question)));
    [congruence|].
Qed.

Lemma pipeline_wrong_dimension_raises_witness :
  Query.query (H := stable_Argsort) (λ _ _, [1%float; 0%float; 0%float])
      (λ _ prompt, prompt) indexed_directory "What did the cat do?" false [] =
    (Raise ValueError, [Query.EmbedQuery config.EMBEDDING_MODEL "What did the cat do?"]).
Proof.
  apply (pipeline_wrong_dimension_raises (H := stable_Argsort)
           (λ _ _, [1%float; 0%float; 0%float]) (λ _ prompt, prompt)
           indexed_directory "What did the cat do?" false [] 2
           [[F32.one; F32.zero]; [F32.zero; F32.one]; [F32.of_float 0.5; F32.of_float 0.5]]).
  - reflexivity.
  - cbn. lia.
  - cbn. lia.
Defined.

(** * Properties of the indexing pipeline *)

(** ** Listing the indexed pages *)

(** The page id of a record. *)
Definition page_id_of (m : dict) : option jvalue := m !! "page_id".

(** [src] is the entry of the i-th record: its title, url and last edit. *)
Definition indexed_at (metas : list dict) (i : nat) (src : Indexer.IndexedSource) : Prop :=
  ∃ m t u e, metas !! i = Some m ∧ m !! "title" = Some t ∧ m !! "url" = Some u ∧
    m !! "last_edited" = Some e ∧
    src = {| Indexer.source_title := t; Indexer.source_url := u;
             Indexer.source_last_edited := e |}.

Definition collect_invariant (metas : list dict)
    (pages : list (jvalue * Indexer.IndexedSource)) : Prop :=
  ∃ idx,
    StronglySorted lt idx ∧
    (∀ i, i ∈ idx ↔ first_with_key page_id_of metas i) ∧
    Forall2 (indexed_at metas) idx (map snd pages) ∧
    (∀ k, k ∈ map fst pages ↔ ∃ m, m ∈ metas ∧ page_id_of m = Some k).

Lemma indexed_at_snoc metas x i src : indexed_at metas i src → indexed_at (metas ++ [x]) i src.
Proof.
  intros (m & t & u & e & Hi & H). exists m, t, u, e.
  split; [|done]. rewrite lookup_app_l; [done|by eapply lookup_lt_Some].
Qed.

Lemma collect_page_invariant metas pages meta pages' :
  collect_invariant metas pages → Indexer.collect_page pages meta = Return pages' →
  collect_invariant (metas ++ [meta]) pages'.
Proof.
  intros (idx & Hsorted & Hidx & Hsrc & Hkeys) Hbody. unfold Indexer.collect_page in Hbody.
  apply outcome_bind_inv in Hbody as (pid & Hpid%getitem_Return & Hbody).
  assert (∀ keys' : list jvalue, (∀ k, k ∈ keys' ↔ k = pid ∨ k ∈ map fst pages) →
            ∀ k, k ∈ keys' ↔ ∃ m, m ∈ metas ++ [meta] ∧ page_id_of m = Some k) as Hkeys'.
  { intros keys' Hs k. rewrite Hs, Hkeys. split.
    - intros [->|(m & Hin & Hk)].
      + exists meta. split; [|done]. apply elem_of_app. right. by left.
      + exists m. split; [|done]. apply elem_of_app. by left.
    - intros (m & [Hin|Hin%list_elem_of_singleton]%elem_of_app & Hk).
      + right. by exists m.
      + left. subst m. unfold page_id_of in Hk. congruence. }
  destruct (bool_decide (pid ∈ map fst pages)) eqn:Hdec.
  - apply bool_decide_eq_true in Hdec. injection Hbody as <-.
    exists idx. split; [done|]. split; [|split].
    + intros i. rewrite first_with_key_snoc, Hidx. split; [by left|].
      intros [?|(-> & k & Hk & Hfresh)]; [done|exfalso].
      unfold page_id_of in Hk. assert (k = pid) as -> by congruence.
      apply Hkeys in Hdec as (m & Hin & Hm). by apply (Hfresh m).
    + eapply Forall2_impl; [exact Hsrc|]. intros. by apply indexed_at_snoc.
    + apply Hkeys'. intros k. split; [by right|]. by intros [->|?].
  - apply bool_decide_eq_false in Hdec.
    apply outcome_bind_inv in Hbody as (t & Ht%getitem_Return & Hbody).
    apply outcome_bind_inv in Hbody as (u & Hu%getitem_Return & Hbody).
    apply outcome_bind_inv in Hbody as (e & He%getitem_Return & Hbody).
    injection Hbody as <-. exists (idx ++ [length metas]).
    split; [|split; [|split]].
    + apply StronglySorted_app_2; [|done|repeat constructor].
      intros i j Hi ->%list_elem_of_singleton.
      by eapply first_with_key_lt, Hidx.
    + intros i. rewrite first_with_key_snoc, elem_of_app, Hidx, list_elem_of_singleton.
      split; (intros [?|Hi]; [by left|right]).
      * subst i. split; [done|]. exists pid. split; [done|].
        intros m Hin Hm. apply Hdec, Hkeys. by exists m.
      * by destruct Hi.
    + rewrite map_app. apply Forall2_app.
      * eapply Forall2_impl; [exact Hsrc|]. intros. by apply indexed_at_snoc.
      * repeat constructor. exists meta, t, u, e. by rewrite list_lookup_middle.
    + apply Hkeys'. intros k. rewrite map_app, elem_of_app. cbn.
      rewrite list_elem_of_singleton. tauto.
Qed.

Lemma collect_loop_invariant pre rest pages pages' :
  collect_invariant pre pages →
  Query.for_loop Indexer.collect_page rest pages = Return pages' →
  collect_invariant (pre ++ rest) pages'.
Proof.
  revert pre pages. induction rest as [|x rest IH]; intros pre pages Hinv;
    cbn [Query.for_loop].
  - intros [= <-]. by rewrite app_nil_r.
  - intros (pages1 & Hbody & Hrest)%outcome_bind_inv.
    rewrite (cons_middle x pre rest), app_assoc.
    eapply IH; [|exact Hrest]. by eapply collect_page_invariant.
Qed.

Lemma collect_start_invariant : collect_invariant [] [].
Proof.
  exists []. split; [constructor|]. split; [|split; [constructor|]].
  - intros i. split; [by intros ?%elem_of_nil|].
    intros (item & k & Hi & _). by rewrite lookup_nil in Hi.
  - intros k. split; [by intros ?%elem_of_nil|].
    by intros (m & ?%elem_of_nil & _).
Qed.

(** The records with the keys [get_indexed_sources] reads. *)
Definition listable (m : dict) : Prop :=
  is_Some (m !! "page_id") ∧ is_Some (m !! "title") ∧ is_Some (m !! "url") ∧
  is_Some (m !! "last_edited").

Lemma collect_loop_returns metas pages :
  Forall listable metas → returns (Query.for_loop Indexer.collect_page metas pages).
Proof.
  intros Hm. revert pages.
  induction Hm as [|m metas ([k Hk] & [t Ht] & [u Hu] & [e He]) _ IH]; intros pages;
    cbn [Query.for_loop]; [by eexists|].
  unfold Indexer.collect_page, getitem. rewrite Hk. cbn.
  destruct (bool_decide _); cbn; [apply IH|]. rewrite Ht, Hu, He. cbn. apply IH.
Qed.

(** X11: what [get_indexed_sources] returns, when it returns, is one entry
    per page of the store: the title, url and last edit of the first record
    of each page id, in the order in which the page ids first occur among
    the records (so the empty list for an empty store).  It returns whenever
    every record has a page id, a title, a url and a last edit. *)
Theorem indexed_sources_are_first_seen_pages db :
  let metas := VectorStore.get_all_metadata (loaded db) in
  (∀ srcs, Indexer.get_indexed_sources db = Return srcs →
     ∃ idx, StronglySorted lt idx ∧
            (∀ i, i ∈ idx ↔ first_with_key page_id_of metas i) ∧
            Forall2 (indexed_at metas) idx srcs) ∧
  (Forall listable metas → returns (Indexer.get_indexed_sources db)).
Proof.
  cbn zeta. unfold Indexer.get_indexed_sources. rewrite construct_spec.
  cbn [VectorStore.self].
  set (metas := VectorStore.get_all_metadata (loaded db)). split.
  - intros srcs Hsrcs.
    assert (∃ pages, Query.for_loop Indexer.collect_page metas [] = Return pages
                     ∧ srcs = map snd pages) as (pages & Hloop & ->).
    { destruct metas as [|m metas'] eqn:E.
      - injection Hsrcs as <-. by exists [].
      - apply outcome_bind_inv in Hsrcs as (pages & Hloop & [= <-]). by exists pages. }
    destruct (collect_loop_invariant [] metas [] pages collect_start_invariant Hloop)
      as (idx & H1 & H2 & H3 & _).
    by exists idx.
  - intros Hm. destruct metas as [|m metas'] eqn:E; [by eexists|].
    destruct (collect_loop_returns (m :: metas') [] Hm) as [pages Hp].
    rewrite Hp. by eexists.
Qed.

(** ** A run of the indexer *)

Section IndexRun.
Variable split_text : string → list string.
Variable embed_documents : string → list string → list (list float).

(** The call of [add] the indexer makes for a page, and the calls it makes
    for a sequence of pages: none for a page without chunks. *)
Definition page_call (page : Indexer.Page) : add_call :=
  let chunks := split_text (Indexer.content page) in
  {| call_embeddings := embed_documents config.EMBEDDING_MODEL chunks;
     call_documents := chunks;
     call_metadatas := Indexer.chunk_metadatas page chunks |}.

Definition has_chunks (page : Indexer.Page) : bool :=
  match split_text (Indexer.content page) with [] => false | _ :: _ => true end.

Definition page_calls (pages : list Indexer.Page) : list add_call :=
  map page_call (filter (λ page, has_chunks page = true) pages).

(** The number of chunks of a sequence of pages. *)
Definition chunk_total (pages : list Indexer.Page) : nat :=
  sum_list_with (λ page, length (split_text (Indexer.content page))) pages.

(** What the loop logs for a sequence of pages. *)
Definition page_events (verbose : bool) (pages : list Indexer.Page) : list Indexer.event :=
  flat_map (λ page,
    (if verbose then [Indexer.Printed ("Indexing: " +:+ Indexer.title page)] else [])
    ++ (if has_chunks page
        then [Indexer.EmbedDocuments config.EMBEDDING_MODEL
                (split_text (Indexer.content page))]
        else [])) pages.

Lemma page_calls_cons page pages :
  page_calls (page :: pages) =
    (if has_chunks page then [page_call page] else []) ++ page_calls pages.
Proof.
  unfold page_calls. rewrite filter_cons.
  destruct (has_chunks page) eqn:E; [by rewrite decide_True|by rewrite decide_False].
Qed.

Lemma index_page_spec verbose total page st :
  Indexer.index_page split_text embed_documents verbose total page st =
    let log0 := Indexer.log st
                ++ (if verbose
                    then [Indexer.Printed ("Indexing: " +:+ Indexer.title page)]
                    else []) in
    match split_text (Indexer.content page) with
    | [] => (Return total, {| Indexer.world := Indexer.world st; Indexer.log := log0 |})
    | c :: cs =>
        let log1 := log0 ++ [Indexer.EmbedDocuments config.EMBEDDING_MODEL (c :: cs)] in
        match VectorStore.add (embed_documents config.EMBEDDING_MODEL (c :: cs)) (c :: cs)
                (Indexer.chunk_metadatas page (c :: cs)) (Indexer.world st) with
        | (Return _, w) =>
            (Return (total + length (c :: cs)),
             {| Indexer.world := w; Indexer.log := log1 |})
        | (Raise e, w) => (Raise e, {| Indexer.world := w; Indexer.log := log1 |})
        end
    end.
Proof.
  unfold Indexer.index_page, mbind, SE_bind, Indexer.emit, Indexer.on_store, mret, SE_ret.
  destruct st as [w0 log0]. cbn.
  destruct (split_text (Indexer.content page)) as [|c cs]; destruct verbose; cbn;
    rewrite ?app_nil_r; try done;
    by destruct (VectorStore.add _ _ _ w0) as [[[]|e] w1].
Qed.

Lemma for_each_cons {A T} (body : T → A → Indexer.M T) x l acc st :
  Indexer.for_each body (x :: l) acc st =
    match body acc x st with
    | (Return acc', st') => Indexer.for_each body l acc' st'
    | (Raise e, st') => (Raise e, st')
    end.
Proof. reflexivity. Qed.

(** The loop over the pages makes the calls of [page_calls], in order. *)
Lemma for_each_index_page verbose pages total st w :
  add_all (page_calls pages) (Indexer.world st) = (Return tt, w) →
  Indexer.for_each (Indexer.index_page split_text embed_documents verbose) pages total st =
    (Return (total + chunk_total pages),
     {| Indexer.world := w;
        Indexer.log := Indexer.log st ++ page_events verbose pages |}).
Proof.
  revert total st. induction pages as [|page pages IH]; intros total st.
  - cbn. intros [= <-]. destruct st. cbn. by rewrite Nat.add_0_r, app_nil_r.
  - rewrite page_calls_cons, for_each_cons, index_page_spec. intros Hadd.
    unfold chunk_total. cbn [sum_list_with page_events flat_map]. fold (chunk_total pages).
    unfold has_chunks in *. cbn zeta.
    destruct (split_text (Indexer.content page)) as [|c cs] eqn:Hsplit.
    + cbn [app] in Hadd. rewrite IH by done. cbn. by rewrite app_nil_r, <- app_assoc.
    + cbn [app add_all] in Hadd. unfold mbind, SE_bind in Hadd.
      unfold page_call in Hadd. rewrite Hsplit in Hadd. cbn in Hadd.
      destruct (VectorStore.add _ _ _ (Indexer.world st)) as [[[]|e] w1] eqn:Hadd1;
        [|done].
      rewrite IH by done. cbn. f_equal; [f_equal; lia|]. f_equal.
      by rewrite <- !app_assoc.
Qed.

(** The directory without either file, and the world [index_all_pages]
    starts its loop in: cleared when the store had records. *)
Definition cleared_world : VectorStore.World :=
  {| VectorStore.self := VectorStore.blank; VectorStore.disk := empty_directory |}.

Definition start_world (db : Disk) : VectorStore.World :=
  if Nat.ltb 0 (VectorStore.count (loaded db)) then cleared_world
  else {| VectorStore.self := loaded db; VectorStore.disk := db |}.

Definition cleared_line (existing : nat) : Indexer.event :=
  Indexer.Printed ("Cleared " +:+ pretty existing +:+ " existing chunks").

Definition total_line (total : nat) : Indexer.event :=
  Indexer.Printed (Query.nl +:+ "Indexed " +:+ pretty total +:+ " chunks total").

Lemma index_all_pages_spec key fetched failure verbose st :
  key ≠ "" →
  Indexer.index_all_pages (Some key) split_text embed_documents fetched failure verbose st =
    let db := VectorStore.disk (Indexer.world st) in
    let existing := VectorStore.count (loaded db) in
    let log0 := Indexer.log st
                ++ (if Nat.ltb 0 existing && verbose then [cleared_line existing] else []) in
    match Indexer.for_each (Indexer.index_page split_text embed_documents verbose) fetched 0
            {| Indexer.world := start_world db; Indexer.log := log0 |} with
    | (Raise e, st') => (Raise e, st')
    | (Return total, st') =>
        match failure with
        | Some e => (Raise e, st')
        | None =>
            (Return total,
             {| Indexer.world := Indexer.world st';
                Indexer.log := Indexer.log st'
                               ++ (if verbose then [total_line total] else []) |})
        end
    end.
Proof.
  intros Hkey. destruct st as [[s0 db] tr].
  unfold Indexer.index_all_pages, Indexer.get_client, Indexer.get_vectorstore.
  rewrite decide_False by done.
  unfold mbind, SE_bind, lift, Indexer.on_store, Indexer.emit, mret, SE_ret.
  cbn [Indexer.world Indexer.log VectorStore.disk]. rewrite construct_spec.
  unfold VectorStore.get_self, start_world, cleared_world, empty_directory.
  cbn [VectorStore.self VectorStore.disk Indexer.world Indexer.log].
  unfold VectorStore.clear, VectorStore.set_self, VectorStore.set_disk, cleared_line, total_line.
  unfold mbind, SE_bind.
  destruct (Nat.ltb 0 (VectorStore.count (loaded db))); destruct verbose;
    cbn [Indexer.world Indexer.log VectorStore.self VectorStore.disk andb];
    rewrite ?app_nil_r;
    (destruct (Indexer.for_each _ _ _ _) as [[total|e] [w' log']]; [|done]);
    destruct failure; cbn [Indexer.world Indexer.log]; rewrite ?app_nil_r; done.
Qed.

Lemma add_all_self_only calls s d1 d2 :
  (add_all calls {| VectorStore.self := s; VectorStore.disk := d1 |}).1
    = (add_all calls {| VectorStore.self := s; VectorStore.disk := d2 |}).1 ∧
  VectorStore.self (add_all calls {| VectorStore.self := s; VectorStore.disk := d1 |}).2
    = VectorStore.self (add_all calls {| VectorStore.self := s; VectorStore.disk := d2 |}).2.
Proof.
  revert s d1 d2. induction calls as [|c calls IH]; intros s d1 d2; cbn [add_all]; [done|].
  unfold mbind, SE_bind. rewrite !add_spec. cbn [VectorStore.self VectorStore.disk].
  destruct (np.array (call_embeddings c)) as [new|]; [|done].
  destruct (VectorStore.embeddings s) as [old|].
  - destruct (np.vstack old new); [|done]. cbn zeta. apply IH.
  - cbn zeta. apply IH.
Qed.

Lemma add_all_cons c calls w :
  add_all (c :: calls) w =
    match VectorStore.add (call_embeddings c) (call_documents c) (call_metadatas c) w with
    | (Return _, w1) => add_all calls w1
    | (Raise e, w1) => (Raise e, w1)
    end.
Proof. reflexivity. Qed.

(** The store the loop over the pages leaves, and whether it raises, are
    those of the calls of [page_calls]. *)
Lemma for_each_index_page_world verbose pages total st :
  let run := Indexer.for_each (Indexer.index_page split_text embed_documents verbose)
               pages total st in
  let calls := add_all (page_calls pages) (Indexer.world st) in
  Indexer.world run.2 = calls.2 ∧
  run.1 = match calls.1 with
          | Return _ => Return (total + chunk_total pages)
          | Raise e => Raise e
          end.
Proof.
  cbn zeta. revert total st. induction pages as [|page pages IH]; intros total st.
  - cbn. split; [done|]. f_equal. unfold chunk_total. cbn. lia.
  - rewrite page_calls_cons, for_each_cons, index_page_spec.
    unfold chunk_total. cbn [sum_list_with]. fold (chunk_total pages).
    unfold has_chunks, page_call. cbn zeta.
    destruct (split_text (Indexer.content page)) as [|c cs] eqn:Hsplit.
    + cbn [app length]. destruct (IH total
        {| Indexer.world := Indexer.world st;
           Indexer.log := Indexer.log st
             ++ (if verbose
                 then [Indexer.Printed ("Indexing: " +:+ Indexer.title page)]
                 else []) |}) as [IH1 IH2].
      cbn [Indexer.world] in *. by rewrite IH1, IH2.
    + cbn [app]. rewrite add_all_cons.
      cbn [call_embeddings call_documents call_metadatas].
      destruct (VectorStore.add _ _ _ (Indexer.world st)) as [[[]|e] w1]; [|done].
      match goal with
      | |- context [Indexer.for_each _ pages ?t ?s] => destruct (IH t s) as [IH1 IH2]
      end.
      cbn [Indexer.world] in *. rewrite IH1, IH2. split; [done|].
      destruct (add_all _ w1).1; [|done]. f_equal. lia.
Qed.

(** The embedding model gives one vector of [d] numbers for each text. *)
Definition one_vector_per_text (d : nat) : Prop :=
  ∀ texts,
    length (embed_documents config.EMBEDDING_MODEL texts) = length texts ∧
    Forall (λ v, length v = d) (embed_documents config.EMBEDDING_MODEL texts).

Lemma chunk_metadatas_length page chunks :
  length (Indexer.chunk_metadatas page chunks) = length chunks.
Proof. unfold Indexer.chunk_metadatas. by rewrite length_map, length_seq. Qed.

Lemma page_calls_regular d pages :
  one_vector_per_text d → Forall (regular_call d) (page_calls pages).
Proof.
  intros Hembed. unfold page_calls. apply Forall_map, Forall_forall.
  intros page [Hchunks _]%list_elem_of_filter. unfold has_chunks in Hchunks.
  destruct (Hembed (split_text (Indexer.content page))) as [Hlen Hd].
  unfold regular_call, page_call. cbn. rewrite chunk_metadatas_length.
  split; [|done].
  intros Hnil. rewrite Hnil in Hlen.
  by destruct (split_text (Indexer.content page)).
Qed.

Lemma page_calls_total d pages :
  one_vector_per_text d →
  sum_list_with (λ c, length (call_embeddings c)) (page_calls pages) = chunk_total pages.
Proof.
  intros Hembed. induction pages as [|page pages IH]; [done|].
  rewrite page_calls_cons. unfold chunk_total. cbn [sum_list_with].
  fold (chunk_total pages). rewrite <- IH. unfold has_chunks.
  destruct (split_text (Indexer.content page)) as [|c cs] eqn:Hsplit; [done|].
  cbn [app sum_list_with]. unfold page_call at 1. cbn [call_embeddings].
  rewrite Hsplit. by destruct (Hembed (c :: cs)) as [-> _].
Qed.

(** The start of a run replaces what the directory held: it held records,
    which [clear] removes, or it held nothing. *)
Definition replaced (db : Disk) : Prop :=
  0 < VectorStore.count (loaded db) ∨ db = empty_directory.

Lemma start_world_replaced db : replaced db → start_world db = cleared_world.
Proof.
  unfold start_world. intros [Hcount| ->].
  - by destruct (Nat.ltb_spec 0 (VectorStore.count (loaded db))); [|lia].
  - reflexivity.
Qed.

Lemma index_all_pages_world key fetched failure verbose st :
  key ≠ "" →
  let run := Indexer.index_all_pages (Some key) split_text embed_documents fetched failure
               verbose st in
  let calls := add_all (page_calls fetched)
                 (start_world (VectorStore.disk (Indexer.world st))) in
  Indexer.world run.2 = calls.2 ∧
  run.1 = match calls.1, failure with
          | Raise e, _ => Raise e
          | Return _, Some e => Raise e
          | Return _, None => Return (chunk_total fetched)
          end.
Proof.
  intros Hkey. cbn zeta. rewrite index_all_pages_spec by done. cbn zeta.
  match goal with
  | |- context [Indexer.for_each _ fetched 0 ?s] =>
      pose proof (for_each_index_page_world verbose fetched 0 s) as [Hw Hr];
      destruct (Indexer.for_each _ fetched 0 s) as [[total|e] st']
  end; cbn [fst snd Indexer.world] in *; rewrite <- Hw.
  - destruct (add_all _ _).1; [|done]. injection Hr as ->.
    by destruct failure.
  - by destruct (add_all _ _).1.
Qed.

(** X12: with the API key set, a run of the indexer over a directory that
    holds records (or nothing at all), with an embedding model that gives
    one vector of [d] numbers per text and a traversal that ends without an
    exception, returns the number of chunks of the pages fetched.  The store
    it leaves is the one the pages' calls of [add] build from an empty store
    over an empty directory, whatever was there before: it holds as many
    records as there are chunks, and [d] columns; constructing a store anew
    over the directory gives the same instance.  The run logs the line about
    the records cleared, then for each page its line and its call of the
    embedding model, then the total (the lines only when [verbose]). *)
Theorem index_replaces_previous_index key fetched verbose st d :
  key ≠ "" →
  replaced (VectorStore.disk (Indexer.world st)) →
  one_vector_per_text d →
  let existing := VectorStore.count (loaded (VectorStore.disk (Indexer.world st))) in
  ∃ w,
    add_all (page_calls fetched) cleared_world = (Return tt, w) ∧
    Indexer.index_all_pages (Some key) split_text embed_documents fetched None verbose st =
      (Return (chunk_total fetched),
       {| Indexer.world := w;
          Indexer.log :=
            Indexer.log st
            ++ (if Nat.ltb 0 existing && verbose then [cleared_line existing] else [])
            ++ page_events verbose fetched
            ++ (if verbose then [total_line (chunk_total fetched)] else []) |}) ∧
    VectorStore.count (VectorStore.self w) = chunk_total fetched ∧
    extensible (VectorStore.self w) d ∧
    VectorStore.construct (VectorStore.disk w) = (Return tt, w).
Proof.
  intros Hkey Hstart Hembed existing.
  destruct (add_all_regular cleared_world d (page_calls fetched) (or_introl eq_refl)
              (page_calls_regular d fetched Hembed)) as (w & Hadd & Hext & Hcount).
  exists w. split; [done|].
  rewrite (page_calls_total d) in Hcount by done. cbn in Hcount.
  split; [|split; [done|split; [done|]]].
  - rewrite index_all_pages_spec by done. cbn zeta.
    rewrite (start_world_replaced _ Hstart).
    erewrite for_each_index_page; [|exact Hadd]. cbn [Indexer.world Indexer.log].
    by rewrite Nat.add_0_l, <- !app_assoc.
  - rewrite construct_spec, (add_all_loaded _ _ _ Hadd eq_refl). by destruct w.
Qed.

(** X13: a run of the indexer that raises leaves one of two things behind.
    Without an API key it has changed nothing.  With the key, over a
    directory that held records, the records are gone: the store left is
    the one the calls of [add] made before the exception build from an
    empty store, be the exception one of [add] or of the traversal of the
    pages (with no page fetched, the directory is left without either
    file).  A failed run does not restore the previous index. *)
Theorem failed_index_loses_previous_index key fetched failure verbose st e :
  0 < VectorStore.count (loaded (VectorStore.disk (Indexer.world st))) →
  let run := Indexer.index_all_pages key split_text embed_documents fetched failure
               verbose st in
  run.1 = Raise e →
  ((key = None ∨ key = Some "") ∧ e = ValueError ∧ run.2 = st) ∨
  ((∃ k, key = Some k ∧ k ≠ "") ∧
   Indexer.world run.2 = (add_all (page_calls fetched) cleared_world).2 ∧
   (fetched = [] → VectorStore.disk (Indexer.world run.2) = empty_directory)).
Proof.
  intros Hcount. cbn zeta.
  destruct key as [k|]; [destruct (decide (k = "")) as [->|Hk]|].
  - cbn. intros [= <-]. left. eauto.
  - intros _. right. split; [by exists k|].
    destruct (index_all_pages_world k fetched failure verbose st Hk) as [Hw _].
    rewrite (start_world_replaced _ (or_introl Hcount)) in Hw.
    split; [done|]. intros ->. by rewrite Hw.
  - cbn. intros [= <-]. left. eauto.
Qed.

(** ** From the indexer to its readers *)

Lemma add_all_metadata calls w w' :
  (VectorStore.embeddings (VectorStore.self w) = None →
   VectorStore.metadata (VectorStore.self w) = []) →
  add_all calls w = (Return tt, w') →
  VectorStore.metadata (VectorStore.self w') =
    VectorStore.metadata (VectorStore.self w)
    ++ flat_map (λ c, new_records (call_documents c) (call_metadatas c)) calls.
Proof.
  revert w. induction calls as [|c calls IH]; intros w Hw.
  - cbn. intros [= <-]. by rewrite app_nil_r.
  - rewrite add_all_cons, add_spec.
    destruct (np.array (call_embeddings c)) as [new|]; [|done].
    destruct (VectorStore.embeddings (VectorStore.self w)) as [old|] eqn:Hold.
    + destruct (np.vstack old new) as [stacked|]; [|done]. cbn zeta.
      intros Hrest. apply IH in Hrest; [|done]. rewrite Hrest. cbn.
      by rewrite <- app_assoc.
    + cbn zeta. intros Hrest. apply IH in Hrest; [|done]. rewrite Hrest. cbn.
      by rewrite (Hw eq_refl).
Qed.

(** The record the indexer stores for a chunk, and what [get_all_metadata]
    gives for it. *)
Definition chunk_record (page : Indexer.Page) (i : nat) : dict :=
  {["page_id" := JStr (Indexer.id page); "title" := JStr (Indexer.title page);
    "url" := Indexer.url page; "last_edited" := Indexer.last_edited page;
    "chunk_index" := JInt (Z.of_nat i)]}.

Definition page_records (page : Indexer.Page) : list dict :=
  Indexer.chunk_metadatas page (split_text (Indexer.content page)).

Lemma page_records_stripped pages :
  map (delete "document")
      (flat_map (λ c, new_records (call_documents c) (call_metadatas c)) (page_calls pages))
    = flat_map page_records pages.
Proof.
  induction pages as [|page pages IH]; [done|].
  rewrite page_calls_cons. cbn [flat_map]. rewrite <- IH.
  unfold has_chunks, page_records at 1.
  destruct (split_text (Indexer.content page)) as [|c cs] eqn:Hsplit; [done|].
  cbn [app flat_map]. rewrite map_app. f_equal.
  unfold page_call. rewrite Hsplit. cbn [call_documents call_metadatas].
  rewrite new_records_stripped, firstn_all2 by (by rewrite chunk_metadatas_length).
  unfold Indexer.chunk_metadatas. rewrite <- list_fmap_compose.
  apply map_ext. intros i. by apply delete_id.
Qed.

(** The store a run leaves, as [get_all_metadata] shows it: the records of
    the pages' chunks, page after page. *)
Lemma index_all_pages_metadata key fetched failure verbose st n st' :
  Indexer.index_all_pages key split_text embed_documents fetched failure verbose st
    = (Return n, st') →
  loaded (VectorStore.disk (Indexer.world st')) = VectorStore.self (Indexer.world st') ∧
  VectorStore.get_all_metadata (VectorStore.self (Indexer.world st'))
    = flat_map page_records fetched.
Proof.
  intros Hrun.
  assert (∃ k, key = Some k ∧ k ≠ "") as (k & -> & Hk).
  { destruct key as [k|]; [|done]. exists k. split; [done|]. by intros ->. }
  destruct (index_all_pages_world k fetched failure verbose st Hk) as [Hw Hr].
  rewrite Hrun in Hw, Hr. cbn [fst snd] in Hw, Hr.
  set (start := start_world (VectorStore.disk (Indexer.world st))) in *.
  destruct (add_all (page_calls fetched) start) as [[[]|e] w] eqn:Hadd; [|done].
  cbn [fst snd] in *. rewrite Hw.
  assert (loaded (VectorStore.disk start) = VectorStore.self start
          ∧ VectorStore.metadata (VectorStore.self start) = []) as [Hl Hm].
  { unfold start, start_world.
    destruct (Nat.ltb_spec 0 (VectorStore.count
                (loaded (VectorStore.disk (Indexer.world st))))) as [|Hz]; [done|].
    split; [done|]. cbn [VectorStore.self]. unfold VectorStore.count in Hz.
    destruct (VectorStore.metadata _); [done|cbn in Hz; lia]. }
  split; [by eapply add_all_loaded|].
  unfold VectorStore.get_all_metadata.
  rewrite (add_all_metadata _ _ _ (λ _, Hm) Hadd), Hm. apply page_records_stripped.
Qed.

(** The entry of a page in the list of sources. *)
Definition source_of (page : Indexer.Page) : Indexer.IndexedSource :=
  {| Indexer.source_title := JStr (Indexer.title page);
     Indexer.source_url := Indexer.url page;
     Indexer.source_last_edited := Indexer.last_edited page |}.

Lemma for_loop_app {A S} (body : S → A → outcome S) l1 l2 s :
  Query.for_loop body (l1 ++ l2) s = Query.for_loop body l1 s ≫= Query.for_loop body l2.
Proof.
  revert s. induction l1 as [|x l1 IH]; intros s; cbn [app Query.for_loop]; [done|].
  destruct (body s x) as [s'|e]; cbn; [apply IH|done].
Qed.

Lemma collect_chunk_record page i pages :
  Indexer.collect_page pages (chunk_record page i) =
    Return (if bool_decide (JStr (Indexer.id page) ∈ map fst pages) then pages
            else pages ++ [(JStr (Indexer.id page), source_of page)]).
Proof.
  unfold Indexer.collect_page, getitem, chunk_record.
  rewrite lookup_insert_eq. cbn [mbind outcome_bind].
  destruct (bool_decide _); [done|]. by simplify_map_eq.
Qed.

Lemma collect_seen page (l : list nat) pages :
  JStr (Indexer.id page) ∈ map fst pages →
  Query.for_loop Indexer.collect_page (map (chunk_record page) l) pages = Return pages.
Proof.
  intros Hin. induction l as [|i l IH]; [done|]. cbn [map Query.for_loop].
  rewrite collect_chunk_record, bool_decide_eq_true_2 by done. exact IH.
Qed.

Lemma collect_page_records page pages :
  (has_chunks page = true → JStr (Indexer.id page) ∉ map fst pages) →
  Query.for_loop Indexer.collect_page (page_records page) pages =
    Return (if has_chunks page
            then pages ++ [(JStr (Indexer.id page), source_of page)]
            else pages).
Proof.
  unfold page_records, has_chunks, Indexer.chunk_metadatas.
  fold (chunk_record page).
  destruct (split_text (Indexer.content page)) as [|c cs]; [done|].
  intros Hnew. specialize (Hnew eq_refl).
  cbn [length seq map Query.for_loop].
  rewrite collect_chunk_record, bool_decide_eq_false_2 by done.
  cbn [mbind outcome_bind].
  apply collect_seen. rewrite map_app. apply elem_of_app. right. by left.
Qed.

Lemma collect_all_records fetched pages :
  NoDup (map Indexer.id (filter (λ page, has_chunks page = true) fetched)) →
  (∀ page, page ∈ fetched → has_chunks page = true →
           JStr (Indexer.id page) ∉ map fst pages) →
  Query.for_loop Indexer.collect_page (flat_map page_records fetched) pages =
    Return (pages ++ map (λ page, (JStr (Indexer.id page), source_of page))
                       (filter (λ page, has_chunks page = true) fetched)).
Proof.
  revert pages. induction fetched as [|page fetched IH]; intros pages Hnd Hnew.
  - cbn. by rewrite app_nil_r.
  - cbn [flat_map]. rewrite for_loop_app, collect_page_records by (apply Hnew; by left).
    cbn [mbind outcome_bind]. rewrite filter_cons in *.
    destruct (has_chunks page) eqn:Hchunks.
    + rewrite decide_True in * by done. cbn [map] in *.
      apply NoDup_cons in Hnd as [Hfresh Hnd].
      rewrite IH; [by rewrite <- app_assoc|done|].
      intros page' Hin Hc'. rewrite map_app, elem_of_app. cbn.
      intros [Hold|Heq%list_elem_of_singleton].
      * apply (Hnew page'); [by right|done..].
      * injection Heq as Heq. apply Hfresh. rewrite <- Heq.
        apply list_elem_of_fmap. exists page'. split; [done|].
        by apply list_elem_of_filter.
    + rewrite decide_False in * by done. apply IH; [done|].
      intros page' Hin. apply Hnew. by right.
Qed.

(** The sources listed after a run of the indexer. *)
Lemma list_sources_after_index key fetched failure verbose st n st' :
  NoDup (map Indexer.id (filter (λ page, has_chunks page = true) fetched)) →
  Indexer.index_all_pages key split_text embed_documents fetched failure verbose st
    = (Return n, st') →
  Indexer.get_indexed_sources (VectorStore.disk (Indexer.world st')) =
    Return (map source_of (filter (λ page, has_chunks page = true) fetched)).
Proof.
  intros Hnd Hrun.
  destruct (index_all_pages_metadata _ _ _ _ _ _ _ Hrun) as [Hl Hm].
  unfold Indexer.get_indexed_sources. rewrite construct_spec. cbn [VectorStore.self].
  rewrite Hl, Hm.
  pose proof (collect_all_records fetched [] Hnd
                (λ _ _ _ H, proj1 (elem_of_nil _) H)) as Hloop.
  cbn [app] in Hloop.
  destruct (flat_map page_records fetched) eqn:Hrecords.
  - injection Hloop as Hloop. by destruct (filter _ fetched).
  - rewrite Hloop. cbn [mbind outcome_bind]. by rewrite <- list_fmap_compose.
Qed.

(** X14: after a run of the indexer that returns, over whatever directory,
    [get_indexed_sources] on the directory it leaves returns one entry for
    each fetched page that has a chunk, in the order of fetching, with the
    page's title, url and last edit, provided the pages with chunks have
    different ids (pages without a chunk leave no entry). *)
Theorem index_then_list_sources key fetched failure verbose st n st' :
  NoDup (map Indexer.id (filter (λ page, has_chunks page = true) fetched)) →
  Indexer.index_all_pages key split_text embed_documents fetched failure verbose st
    = (Return n, st') →
  Indexer.get_indexed_sources (VectorStore.disk (Indexer.world st')) =
    Return (map source_of (filter (λ page, has_chunks page = true) fetched)).
Proof. apply list_sources_after_index. Qed.

(** The records the indexer writes can be cited by the query pipeline. *)
Lemma page_calls_citable pages :
  Forall citable
    (flat_map (λ c, new_records (call_documents c) (call_metadatas c)) (page_calls pages)).
Proof.
  apply Forall_flat_map, Forall_forall. intros c Hc. unfold page_calls in Hc.
  apply list_elem_of_fmap in Hc as (page & -> & _). unfold page_call, new_records. cbn.
  apply Forall_forall. intros m Hm. apply elem_of_zip_with in Hm as (doc & meta & -> & _ & Hmeta).
  unfold Indexer.chunk_metadatas in Hmeta. apply list_elem_of_fmap in Hmeta as (i & -> & _).
  unfold citable. rewrite !lookup_insert_ne by done.
  rewrite lookup_insert_eq, lookup_insert_ne, lookup_insert_eq by done.
  rewrite !lookup_insert_ne, lookup_insert_eq by done. eauto.
Qed.

(** X15: after a run of the indexer that returns a positive number of
    chunks, over a directory that held records or nothing, with an embedding
    model of one vector of [d] numbers per text, the query pipeline on the
    directory the run leaves raises nothing for a question whose embedding
    has [d] numbers: it retrieves min(4, number of chunks) chunks, calls the
    embedding model and then the generation model once each (what it adds to
    the trace is the call of the embedding model, one printed line when it
    is verbose and nothing otherwise, then the call of the generation
    model), and cites between one source and one per chunk. *)
Theorem index_then_ask `{np.Argsort} key fetched failure verbose st n st'
    embed_query invoke question talk tr d :
  replaced (VectorStore.disk (Indexer.world st)) →
  one_vector_per_text d →
  Indexer.index_all_pages key split_text embed_documents fetched failure verbose st
    = (Return n, st') →
  n ≠ 0 →
  length (embed_query config.EMBEDDING_MODEL question) = d →
  ∃ s printed,
    Query.query embed_query invoke (VectorStore.disk (Indexer.world st')) question talk tr =
      (Return {| Query.answer := invoke config.LLM_MODEL (prompt_of s question);
                 Query.sources := Query.loop_sources s |},
       tr ++ [Query.EmbedQuery config.EMBEDDING_MODEL question] ++ printed
          ++ [Query.Invoke config.LLM_MODEL (prompt_of s question)]) ∧
    (if talk then ∃ line, printed = [Query.Printed line] else printed = []) ∧
    length (Query.context_parts s) = 4 `min` n ∧
    (1 ≤ length (Query.loop_sources s))%nat ∧
    (length (Query.loop_sources s) ≤ length (Query.context_parts s))%nat.
Proof.
  intros Hstart Hembed Hrun Hn Hq.
  assert (∃ k, key = Some k ∧ k ≠ "") as (k & -> & Hk).
  { destruct key as [k|]; [|done]. exists k. split; [done|]. by intros ->. }
  destruct (index_all_pages_world k fetched failure verbose st Hk) as [Hw Hr].
  rewrite Hrun, (start_world_replaced _ Hstart) in Hw, Hr. cbn [fst snd] in Hw, Hr.
  destruct (add_all_regular cleared_world d (page_calls fetched) (or_introl eq_refl)
              (page_calls_regular d fetched Hembed)) as (w & Hadd & Hext & Hcount).
  rewrite (page_calls_total d) in Hcount by done. cbn in Hcount.
  pose proof (add_all_metadata _ cleared_world _ (λ _, eq_refl) Hadd) as Hmeta.
  cbn [cleared_world VectorStore.self VectorStore.blank VectorStore.metadata app] in Hmeta.
  pose proof (add_all_loaded _ _ _ Hadd eq_refl) as Hl.
  rewrite Hadd in Hw, Hr. cbn [fst snd] in Hw, Hr.
  assert (n = chunk_total fetched) as -> by (destruct failure; congruence).
  rewrite Hw. rewrite <- Hcount, <- Hl.
  destruct Hext as [Hb|(rows & Hcons & _)].
  { rewrite Hb in Hcount. cbn in Hcount. lia. }
  apply pipeline_on_consistent_store with (d := d) (rows := rows).
  - by rewrite Hl.
  - rewrite Hl. lia.
  - rewrite Hl, Hmeta. apply page_calls_citable.
  - done.
Qed.
End IndexRun.

(** An example of a run: a splitter that gives one chunk for a text that is
    not empty, an embedding model with vectors of two numbers, three pages of
    which one has no chunk, over a directory that holds three records. *)
Definition example_split (text : string) : list string :=
  if decide (text = "") then [] else [text].

Definition example_embed (model : string) (texts : list string) : list (list float) :=
  map (λ text, [1%float; 0.5%float]) texts.

Definition example_pages : list Indexer.Page :=
  [ {| Indexer.id := "a1"; Indexer.title := "Workout";
       Indexer.url := JStr "https://notion.so/a1";
       Indexer.last_edited := JStr "2024-01-01";
       Indexer.content := "squats and lunges" |};
    {| Indexer.id := "b2"; Indexer.title := "Blank";
       Indexer.url := JStr "https://notion.so/b2";
       Indexer.last_edited := JStr "2024-01-02";
       Indexer.content := "" |};
    {| Indexer.id := "c3"; Indexer.title := "Diet";
       Indexer.url := JStr "https://notion.so/c3";
       Indexer.last_edited := JStr "2024-01-03";
       Indexer.content := "rice and beans" |} ].

Definition example_state : Indexer.State :=
  {| Indexer.world := {| VectorStore.self := VectorStore.blank;
                         VectorStore.disk := indexed_directory |};
     Indexer.log := [] |}.

Lemma example_embed_one_vector_per_text : one_vector_per_text example_embed 2.
Proof.
  intros texts. unfold example_embed. split; [by rewrite length_map|].
  by apply Forall_map, Forall_forall.
Qed.

Lemma example_state_replaced : replaced (VectorStore.disk (Indexer.world example_state)).
Proof. left. cbn. lia. Qed.

Lemma index_replaces_previous_index_witness :
  ∃ w,
    Indexer.index_all_pages (Some "secret") example_split example_embed example_pages None
        true example_state =
      (Return 2,
       {| Indexer.world := w;
          Indexer.log :=
            [ Indexer.Printed "Cleared 3 existing chunks";
              Indexer.Printed "Indexing: Workout";
              Indexer.EmbedDocuments "nomic-embed-text" ["squats and lunges"];
              Indexer.Printed "Indexing: Blank";
              Indexer.Printed "Indexing: Diet";
              Indexer.EmbedDocuments "nomic-embed-text" ["rice and beans"];
              Indexer.Printed (Query.nl +:+ "Indexed 2 chunks total") ] |}) ∧
    VectorStore.count (VectorStore.self w) = 2 ∧
    VectorStore.construct (VectorStore.disk w) = (Return tt, w).
Proof.
  destruct (index_replaces_previous_index example_split example_embed "secret"
              example_pages true example_state 2)
    as (w & _ & Hrun & Hcount & _ & Hload).
  - discriminate.
  - exact example_state_replaced.
  - exact example_embed_one_vector_per_text.
  - exists w. split; [exact Hrun|]. split; [exact Hcount|exact Hload].
Defined.

Lemma failed_index_loses_previous_index_witness :
  let run := Indexer.index_all_pages (Some "secret") example_split example_embed []
               (Some ValueError) false example_state in
  run.1 = Raise ValueError ∧
  VectorStore.disk (Indexer.world run.2) = empty_directory.
Proof.
  destruct (failed_index_loses_previous_index example_split example_embed (Some "secret")
              [] (Some ValueError) false example_state ValueError)
    as [([Hkey|Hkey] & _)|(_ & _ & Hdisk)].
  - cbn. lia.
  - reflexivity.
  - discriminate Hkey.
  - discriminate Hkey.
  - split; [reflexivity|exact (Hdisk eq_refl)].
Defined.

Lemma index_then_list_sources_witness :
  Indexer.get_indexed_sources
    (VectorStore.disk (Indexer.world
       (Indexer.index_all_pages (Some "secret") example_split example_embed example_pages
          None false example_state).2)) =
    Return [ {| Indexer.source_title := JStr "Workout";
                Indexer.source_url := JStr "https://notion.so/a1";
                Indexer.source_last_edited := JStr "2024-01-01" |};
             {| Indexer.source_title := JStr "Diet";
                Indexer.source_url := JStr "https://notion.so/c3";
                Indexer.source_last_edited := JStr "2024-01-03" |} ].
Proof.
  apply (index_then_list_sources example_split example_embed (Some "secret") example_pages
           None false example_state 2).
  - apply (bool_decide_unpack _). vm_compute. reflexivity.
  - vm_compute. reflexivity.
Defined.

Lemma index_then_ask_witness :
  ∃ s printed,
    Query.query (H := stable_Argsort) (λ _ _, [1%float; 0%float]) (λ _ prompt, prompt)
      (VectorStore.disk (Indexer.world
         (Indexer.index_all_pages (Some "secret") example_split example_embed example_pages
            None false example_state).2))
      "What do I train?" false [] =
      (Return {| Query.answer := prompt_of s "What do I train?";
                 Query.sources := Query.loop_sources s |},
       [] ++ [Query.EmbedQuery config.EMBEDDING_MODEL "What do I train?"] ++ printed
          ++ [Query.Invoke config.LLM_MODEL (prompt_of s "What do I train?")]) ∧
    printed = [] ∧
    length (Query.context_parts s) = 2.
Proof.
  destruct (index_then_ask (H := stable_Argsort) example_split example_embed
              (Some "secret") example_pages None false example_state 2
              (Indexer.index_all_pages (Some "secret") example_split example_embed
                 example_pages None false example_state).2
              (λ _ _, [1%float; 0%float]) (λ _ prompt, prompt)
              "What do I train?" false [] 2)
    as (s & printed & Hrun & Hprinted & Hparts & _).
  - exact example_state_replaced.
  - exact example_embed_one_vector_per_text.
  - vm_compute. reflexivity.
  - discriminate.
  - reflexivity.
  - exists s, printed. split; [exact Hrun|]. split; [exact Hprinted|exact Hparts].
Defined.

(** * Properties of the server *)

(** ** Strings cut into slices *)

(** [s[n:]] *)
Fixpoint string_drop (n : nat) (s : string) : string :=
  match n, s with
  | 0, _ => s
  | S n', String _ s' => string_drop n' s'
  | S _, EmptyString => EmptyString
  end.

Lemma substring_empty n m : substring n m "" = "".
Proof. by destruct n, m. Qed.

Lemma substring_drop a b m s : substring (a + b) m s = substring b m (string_drop a s).
Proof.
  revert s. induction a as [|a IH]; intros s; [done|].
  destruct s as [|c s]; [|apply IH].
  change (string_drop (S a) "") with "". by rewrite !substring_empty.
Qed.

Lemma substring_take_drop a s : substring 0 a s +:+ string_drop a s = s.
Proof.
  revert s. induction a as [|a IH]; intros [|c s]; try done.
  change (String c (substring 0 a s +:+ string_drop a s) = String c s).
  by rewrite IH.
Qed.

Lemma string_drop_length a s : String.length (string_drop a s) = String.length s - a.
Proof.
  revert s. induction a as [|a IH]; intros [|c s]; cbn [string_drop String.length];
    rewrite ?IH; lia.
Qed.

Lemma substring_length n m s :
  String.length (substring n m s) = m `min` (String.length s - n).
Proof.
  revert m s. induction n as [|n IH]; intros m s.
  - revert s. induction m as [|m IHm]; intros [|c s]; cbn; try done.
    by rewrite IHm, Nat.sub_0_r.
  - destruct s as [|c s]; cbn; [lia|apply IH].
Qed.

Lemma append_assoc (a b c : string) : (a +:+ b) +:+ c = a +:+ (b +:+ c).
Proof.
  induction a as [|x a IH]; [done|].
  change (String x ((a +:+ b) +:+ c) = String x (a +:+ (b +:+ c))). by rewrite IH.
Qed.

Lemma append_empty_r (a : string) : a +:+ "" = a.
Proof.
  induction a as [|x a IH]; [done|].
  change (String x (a +:+ "") = String x a). by rewrite IH.
Qed.

Lemma concat_empty_cons x xs : String.concat "" (x :: xs) = x +:+ String.concat "" xs.
Proof.
  destruct xs as [|y ys]; [|done].
  change (x = x +:+ ""). by rewrite append_empty_r.
Qed.

(** The slices of [step] characters, joined, are the string. *)
Lemma slices_join step n s :
  (String.length s ≤ n * step)%nat →
  String.concat "" (map (λ k, substring (k * step) step s) (seq 0 n)) = s.
Proof.
  revert s. induction n as [|n IH]; intros s Hlen.
  - destruct s; [done|cbn in Hlen; lia].
  - cbn [seq map]. rewrite concat_empty_cons, <- seq_shift, map_map.
    transitivity (substring 0 step s +:+ string_drop step s);
      [|apply substring_take_drop].
    f_equal. rewrite <- (IH (string_drop step s)) by (rewrite string_drop_length; lia).
    f_equal. apply map_ext. intros k. cbn [Nat.mul]. apply substring_drop.
Qed.

Lemma range_covers stop step :
  (0 < step)%nat → (stop ≤ (stop + step - 1) / step * step)%nat.
Proof.
  intros Hstep. pose proof (Nat.div_mod_eq (stop + step - 1) step).
  pose proof (Nat.mod_upper_bound (stop + step - 1) step). nia.
Qed.

Lemma range_below stop step i :
  (0 < step)%nat → i ∈ Api.range stop step → (i < stop)%nat.
Proof.
  intros Hstep (k & -> & Hk%elem_of_seq)%list_elem_of_fmap.
  pose proof (Nat.div_mod_eq (stop + step - 1) step).
  pose proof (Nat.mod_upper_bound (stop + step - 1) step). nia.
Qed.

(** ** The reply to a request *)

Section Server.
Context `{np.Argsort}.
Variable embed_query : string → string → list float.
Variable invoke : string → string → string.
Variable dumps : Api.StreamChunk → string.
Variable word_count : string → nat.
Variable uuid_hex : string.
Variable now : Z.

Abbreviation chat_completions :=
  (Api.chat_completions embed_query invoke dumps word_count uuid_hex now).

(** The question the handler asks the pipeline. *)
Definition question_of (request : Api.ChatCompletionRequest) : string :=
  from_option Api.content ""
    (last (filter (λ m, Api.role m = "user") (Api.messages request))).

(** The line of a source, and the content of the reply to an answer. *)
Definition source_line (src : Query.Source) : string :=
  "- [" +:+ py_str (Query.title src) +:+ "](" +:+ py_str (Query.url src) +:+ ")"
  +:+ Query.nl.

Definition content_of (result : Query.Answer) : string :=
  match Query.sources result with
  | [] => Query.answer result
  | _ :: _ =>
      Query.answer result +:+ Query.nl +:+ Query.nl +:+ "---" +:+ Query.nl
      +:+ "**Sources:**" +:+ Query.nl
      +:+ String.concat "" (map source_line (Query.sources result))
  end.

(** The response object for a question and a content. *)
Definition response_of (question content : string) : Api.ChatCompletionResponse :=
  {| Api.id := "chatcmpl-" +:+ substring 0 8 uuid_hex;
     Api.object_ := "chat.completion";
     Api.created := now;
     Api.model_ := "self-notes";
     Api.choices :=
       [{| Api.index := 0;
           Api.message := {| Api.role := "assistant"; Api.content := content |};
           Api.finish_reason := "stop" |}];
     Api.usage := {| Api.prompt_tokens := word_count question;
                     Api.completion_tokens := word_count content;
                     Api.total_tokens := word_count question + word_count content |} |}.

(** The events of a streamed reply. *)
Definition event_of (delta : dict) (finish_reason : option string) : string :=
  Api.sse dumps
    (Api.stream_chunk ("chatcmpl-" +:+ substring 0 8 uuid_hex) now delta finish_reason).

Definition events_of (pieces : list string) : list string :=
  [event_of {["role" := JStr "assistant"]} None]
  ++ map (λ piece, event_of {["content" := JStr piece]} None) pieces
  ++ [event_of ∅ (Some "stop"); "data: [DONE]" +:+ Query.nl +:+ Query.nl].

Definition reply_of (request : Api.ChatCompletionRequest) (question content : string)
    : Api.reply :=
  match Api.stream request with
  | Some true =>
      Api.StreamingResponse
        (events_of (map (λ i, substring i 20 content)
                      (Api.range (String.length content) 20)))
  | _ => Api.Response (response_of question content)
  end.

Lemma fold_source_lines srcs start :
  fold_left (λ answer src,
               answer +:+ "- [" +:+ py_str (Query.title src) +:+ "]("
               +:+ py_str (Query.url src) +:+ ")" +:+ Query.nl) srcs start
    = start +:+ String.concat "" (map source_line srcs).
Proof.
  revert start. induction srcs as [|src srcs IH]; intros start.
  - cbn. by rewrite append_empty_r.
  - cbn [fold_left map]. rewrite IH, concat_empty_cons.
    unfold source_line at 2. by rewrite !append_assoc.
Qed.

Lemma chat_completions_spec db request tr :
  chat_completions db request tr =
    match Query.query embed_query invoke db (question_of request) false tr with
    | (Return result, tr') =>
        (Return (reply_of request (question_of request) (content_of result)), tr')
    | (Raise e, tr') => (Raise e, tr')
    end.
Proof.
  unfold Api.chat_completions, question_of.
  set (user_messages := filter _ (Api.messages request)).
  assert (match user_messages with
          | [] => ""
          | _ :: _ => from_option Api.content "" (last user_messages)
          end = from_option Api.content "" (last user_messages)) as ->
    by (by destruct user_messages).
  unfold mbind at 1, SE_bind.
  destruct (Query.query _ _ _ _ _ _) as [[result|e] tr']; [|done].
  assert (match Query.sources result with
          | [] => Query.answer result
          | _ :: _ =>
              fold_left (λ answer src,
                           answer +:+ "- [" +:+ py_str (Query.title src) +:+ "]("
                           +:+ py_str (Query.url src) +:+ ")" +:+ Query.nl)
                (Query.sources result)
                (Query.answer result +:+ Query.nl +:+ Query.nl +:+ "---" +:+ Query.nl
                 +:+ "**Sources:**" +:+ Query.nl)
          end = content_of result) as ->.
  { unfold content_of. destruct (Query.sources result) as [|src srcs] eqn:E; [done|].
    rewrite <- E. by rewrite fold_source_lines, !append_assoc. }
  unfold reply_of, events_of, event_of, response_of, Api.generate.
  destruct (Api.stream request) as [[]|]; cbn zeta; try done.
  unfold mret, SE_ret. by rewrite map_map.
Qed.

Lemma question_of_last_user request pre m post :
  Api.messages request = pre ++ m :: post →
  Api.role m = "user" →
  Forall (λ x, Api.role x ≠ "user") post →
  question_of request = Api.content m.
Proof.
  intros Hmsgs Hm Hpost. unfold question_of. rewrite Hmsgs.
  rewrite filter_app, filter_cons, decide_True by done.
  assert (filter (λ x, Api.role x = "user") post = []) as ->.
  { clear Hmsgs. induction Hpost as [|x post Hx _ IH]; [done|].
    rewrite filter_cons, decide_False by done. exact IH. }
  cbn [app]. by rewrite last_snoc.
Qed.

(** X16: the handler asks the pipeline one question: the content of the last
    message whose role is "user".  The messages before it, those after it
    (of other roles), the model named in the request, the temperature and
    the token limit change nothing of the reply nor of the calls of the
    models: the reply is the one to the request with that one message. *)
Theorem chat_uses_last_user_message db request pre m post tr :
  Api.messages request = pre ++ m :: post →
  Api.role m = "user" →
  Forall (λ x, Api.role x ≠ "user") post →
  chat_completions db request tr =
    chat_completions db
      {| Api.model := "self-notes"; Api.messages := [m]; Api.temperature := None;
         Api.max_tokens := None; Api.stream := Api.stream request |} tr ∧
  (chat_completions db request tr).2
    = (Query.query embed_query invoke db (Api.content m) false tr).2.
Proof.
  intros Hmsgs Hm Hpost. rewrite !chat_completions_spec.
  rewrite (question_of_last_user request pre m post Hmsgs Hm Hpost).
  rewrite (question_of_last_user
             {| Api.model := "self-notes"; Api.messages := [m]; Api.temperature := None;
                Api.max_tokens := None; Api.stream := Api.stream request |}
             [] m [] eq_refl Hm (Forall_nil_2 _)).
  unfold reply_of. cbn [Api.stream].
  split; [done|].
  by destruct (Query.query _ _ _ _ _ _) as [[result|e] tr'].
Qed.

(** The request with another [stream] flag. *)
Definition with_stream (request : Api.ChatCompletionRequest) (flag : option bool)
    : Api.ChatCompletionRequest :=
  {| Api.model := Api.model request; Api.messages := Api.messages request;
     Api.temperature := Api.temperature request;
     Api.max_tokens := Api.max_tokens request; Api.stream := flag |}.

(** X17: a streamed reply carries the content of the reply that is not
    streamed.  When the request without streaming gets a response, the same
    request with streaming makes the same calls of the models and yields the
    role event, one content event per piece, the stop event and the [DONE]
    line, in this order; the pieces have between 1 and 20 characters and,
    joined, are the response's content.  When the one raises, so does the
    other, with the same exception after the same calls. *)
Theorem stream_carries_the_reply db request tr :
  match chat_completions db (with_stream request (Some false)) tr with
  | (Return (Api.Response r), tr') =>
      ∃ content pieces,
        Api.choices r =
          [{| Api.index := 0;
              Api.message := {| Api.role := "assistant"; Api.content := content |};
              Api.finish_reason := "stop" |}] ∧
        chat_completions db (with_stream request (Some true)) tr
          = (Return (Api.StreamingResponse (events_of pieces)), tr') ∧
        String.concat "" pieces = content ∧
        Forall (λ piece, (1 ≤ String.length piece ≤ 20)%nat) pieces
  | (Return (Api.StreamingResponse _), _) => False
  | (Raise e, tr') =>
      chat_completions db (with_stream request (Some true)) tr = (Raise e, tr')
  end.
Proof.
  rewrite !chat_completions_spec.
  change (question_of (with_stream request (Some false))) with (question_of request).
  change (question_of (with_stream request (Some true))) with (question_of request).
  destruct (Query.query _ _ _ _ _ _) as [[result|e] tr']; [|done].
  unfold reply_of. cbn [with_stream Api.stream].
  exists (content_of result), (map (λ i, substring i 20 (content_of result))
                                 (Api.range (String.length (content_of result)) 20)).
  split; [done|]. split; [done|]. split.
  - unfold Api.range. rewrite map_map. apply slices_join, range_covers. lia.
  - apply Forall_map, Forall_forall. intros i Hi%range_below; [|lia]. cbn.
    rewrite substring_length. lia.
Qed.

(** X18: over a directory without records the reply to any request that is
    not streamed has the fixed content "No notes indexed yet. Run 'python
    cli.py index' first.", without a list of sources, and no model is
    called; a content with a list of sources is the answer of the pipeline,
    the header and one line per source, in the order of the sources. *)
Theorem chat_content db request tr :
  Api.stream request ≠ Some true →
  (VectorStore.count (loaded db) = 0 →
   chat_completions db request tr =
     (Return (Api.Response
        (response_of (question_of request)
           "No notes indexed yet. Run 'python cli.py index' first.")), tr)) ∧
  (∀ result tr',
     Query.query embed_query invoke db (question_of request) false tr
       = (Return result, tr') →
     chat_completions db request tr =
       (Return (Api.Response (response_of (question_of request) (content_of result))), tr')
     ∧ (Query.sources result ≠ [] →
        content_of result =
          Query.answer result +:+ Query.nl +:+ Query.nl +:+ "---" +:+ Query.nl
          +:+ "**Sources:**" +:+ Query.nl
          +:+ String.concat "" (map source_line (Query.sources result)))).
Proof.
  intros Hstream. split.
  - intros Hcount. rewrite chat_completions_spec, pipeline_spec. cbn zeta.
    rewrite Hcount. cbn [Nat.eqb]. unfold reply_of.
    by destruct (Api.stream request) as [[]|].
  - intros result tr' Hrun. rewrite chat_completions_spec, Hrun. split.
    + unfold reply_of. by destruct (Api.stream request) as [[]|].
    + unfold content_of. by destruct (Query.sources result).
Qed.
End Server.

(** An example of a conversation: the serializer and the word count are
    stand-ins (the id of a chunk with its first delta's content, and the
    number of runs of characters other than the space). *)
Definition example_dumps (chunk : Api.StreamChunk) : string :=
  Api.chunk_id chunk +:+ ":"
  +:+ match Api.chunk_choices chunk with
      | choice :: _ => from_option py_str "" (Api.delta choice !! "content")
      | [] => ""
      end.

Fixpoint words_from (in_word : bool) (text : string) : nat :=
  match text with
  | EmptyString => 0
  | String c rest =>
      if Ascii.eqb c (Ascii.ascii_of_nat 32) then words_from false rest
      else (if in_word then 0 else 1) + words_from true rest
  end.

Definition example_conversation : Api.ChatCompletionRequest :=
  {| Api.model := "gpt-4";
     Api.messages :=
       [ {| Api.role := "system"; Api.content := "Answer in French." |};
         {| Api.role := "user"; Api.content := "Where is the mat?" |};
         {| Api.role := "assistant"; Api.content := "Under the cat." |};
         {| Api.role := "user"; Api.content := "What did the cat do?" |};
         {| Api.role := "assistant"; Api.content := "" |} ];
     Api.temperature := Some 0.5%float;
     Api.max_tokens := Some 100%Z;
     Api.stream := None |}.

Lemma chat_uses_last_user_message_witness :
  Api.chat_completions (H := stable_Argsort) (λ _ _, [1%float; 0.5%float])
      (λ _ prompt, "It sat.") example_dumps (words_from false) "0123456789abcdef" 1700000000
      indexed_directory example_conversation [] =
    Api.chat_completions (H := stable_Argsort) (λ _ _, [1%float; 0.5%float])
      (λ _ prompt, "It sat.") example_dumps (words_from false) "0123456789abcdef" 1700000000
      indexed_directory
      {| Api.model := "self-notes";
         Api.messages := [{| Api.role := "user"; Api.content := "What did the cat do?" |}];
         Api.temperature := None; Api.max_tokens := None; Api.stream := None |} [].
Proof.
  apply (chat_uses_last_user_message (H := stable_Argsort) (λ _ _, [1%float; 0.5%float])
           (λ _ prompt, "It sat.") example_dumps (words_from false) "0123456789abcdef"
           1700000000 indexed_directory example_conversation
           [ {| Api.role := "system"; Api.content := "Answer in French." |};
             {| Api.role := "user"; Api.content := "Where is the mat?" |};
             {| Api.role := "assistant"; Api.content := "Under the cat." |} ]
           {| Api.role := "user"; Api.content := "What did the cat do?" |}
           [ {| Api.role := "assistant"; Api.content := "" |} ] []).
  - reflexivity.
  - reflexivity.
  - repeat constructor. discriminate.
Defined.

Lemma chat_content_witness :
  Api.chat_completions (H := stable_Argsort) (λ _ _, [1%float; 0.5%float])
      (λ _ prompt, "It sat.") example_dumps (words_from false) "0123456789abcdef" 1700000000
      empty_directory example_conversation [] =
    (Return (Api.Response
       {| Api.id := "chatcmpl-01234567";
          Api.object_ := "chat.completion";
          Api.created := 1700000000;
          Api.model_ := "self-notes";
          Api.choices :=
            [{| Api.index := 0;
                Api.message :=
                  {| Api.role := "assistant";
                     Api.content :=
                       "No notes indexed yet. Run 'python cli.py index' first." |};
                Api.finish_reason := "stop" |}];
          Api.usage := {| Api.prompt_tokens := 5; Api.completion_tokens := 9;
                          Api.total_tokens := 14 |} |}), []).
Proof.
  apply (chat_content (H := stable_Argsort) (λ _ _, [1%float; 0.5%float])
           (λ _ prompt, "It sat.") example_dumps (words_from false) "0123456789abcdef"
           1700000000 empty_directory example_conversation []).
  - discriminate.
  - reflexivity.
Defined.

(** * A failed call of [add] *)





(** * Properties of page ids *)

Local Open Scope nat_scope.

(** The number of characters of [[a-f0-9]]. *)
Definition count_hex (s : list Ascii.ascii) : nat := length (List.filter Notion.is_hex s).

(** An id in the making: 32 to 36 characters of [[a-f0-9]], and maybe a
    newline after them. *)
Definition id_like (r : list Ascii.ascii) : Prop :=
  ∃ h tail, r = h ++ tail ∧ forallb Notion.is_hex h = true ∧
            32 ≤ length h ≤ 36 ∧ (tail = [] ∨ tail = [Notion.newline]).

Lemma is_hex_not_dash c : Notion.is_hex c = true → Ascii.eqb c Notion.dash = false.
Proof.
  intros Hc. destruct (Ascii.eqb_spec c Notion.dash) as [->|]; [|done].
  by vm_compute in Hc.
Qed.

Lemma is_hex_not_newline c : Notion.is_hex c = true → c ≠ Notion.newline.
Proof. intros Hc ->. by vm_compute in Hc. Qed.

Lemma is_hex_lower c : Notion.is_hex c = true → Notion.lower c = c.
Proof.
  unfold Notion.is_hex, Notion.lower, Notion.in_range.
  destruct (Nat.leb_spec 97 (Ascii.nat_of_ascii c)), (Nat.leb_spec (Ascii.nat_of_ascii c) 102),
    (Nat.leb_spec 48 (Ascii.nat_of_ascii c)), (Nat.leb_spec (Ascii.nat_of_ascii c) 57),
    (Nat.leb_spec 65 (Ascii.nat_of_ascii c)), (Nat.leb_spec (Ascii.nat_of_ascii c) 90),
    (Nat.leb_spec 192 (Ascii.nat_of_ascii c)), (Nat.leb_spec (Ascii.nat_of_ascii c) 222);
    cbn; intros; try done; lia.
Qed.

Lemma count_hex_app s1 s2 : count_hex (s1 ++ s2) = count_hex s1 + count_hex s2.
Proof. unfold count_hex. by rewrite List.filter_app, length_app. Qed.

Lemma count_hex_all g : forallb Notion.is_hex g = true → count_hex g = length g.
Proof.
  unfold count_hex. induction g as [|c g IH]; [done|]. cbn.
  intros [Hc Hg]%andb_true_iff. rewrite Hc. cbn. by rewrite IH.
Qed.

Lemma count_hex_lower s : count_hex s ≤ count_hex (map Notion.lower s).
Proof.
  unfold count_hex. induction s as [|c s IH]; [done|]. cbn.
  destruct (Notion.is_hex c) eqn:Hc.
  - rewrite (is_hex_lower c Hc), Hc. cbn. lia.
  - destruct (Notion.is_hex (Notion.lower c)); cbn; lia.
Qed.

Lemma count_hex_remove_dashes s : count_hex (Notion.remove_dashes s) = count_hex s.
Proof.
  unfold count_hex, Notion.remove_dashes. induction s as [|c s IH]; [done|]. cbn.
  destruct (Notion.is_hex c) eqn:Hc.
  - rewrite (is_hex_not_dash c Hc). cbn. rewrite Hc. cbn. by rewrite IH.
  - destruct (Ascii.eqb c Notion.dash); cbn; [done|]. by rewrite Hc.
Qed.

Lemma remove_dashes_no_dash s c : c ∈ Notion.remove_dashes s → Ascii.eqb c Notion.dash = false.
Proof.
  unfold Notion.remove_dashes. rewrite list_elem_of_In. intros [_ Hc]%List.filter_In.
  by destruct (Ascii.eqb c Notion.dash).
Qed.

Lemma forallb_Forall {A} (f : A → bool) l : forallb f l = true ↔ Forall (λ x, f x = true) l.
Proof. rewrite forallb_forall, Forall_forall. by setoid_rewrite list_elem_of_In. Qed.

Lemma remove_dashes_hex s : forallb Notion.is_hex s = true → Notion.remove_dashes s = s.
Proof.
  unfold Notion.remove_dashes. induction s as [|c s IH]; [done|]. cbn.
  intros [Hc Hs]%andb_true_iff. rewrite (is_hex_not_dash c Hc). cbn. by rewrite IH.
Qed.

Lemma at_end_inv rest : Notion.at_end rest = true → rest = [] ∨ rest = [Notion.newline].
Proof.
  destruct rest as [|c [|]]; cbn [Notion.at_end]; [by left| |done].
  intros Hc. right. destruct (Ascii.eqb_spec c Notion.newline) as [Heq|]; [|done].
  by rewrite Heq.
Qed.

(** What a match of the first pattern is. *)
Lemma match_id_inv t :
  Notion.match_id t = true →
  ∃ n, 32 ≤ n ≤ 36 ∧ length (take n t) = n ∧
       forallb Notion.is_hex_or_dash (take n t) = true ∧ Notion.at_end (drop n t) = true.
Proof.
  unfold Notion.match_id. intros (n & Hn & H)%existsb_exists.
  apply andb_true_iff in H as [[Hlen%Nat.eqb_eq Hall]%andb_true_iff Hend].
  exists n. split; [|done]. cbn in Hn. intuition lia.
Qed.

Lemma match_id_intro t n :
  32 ≤ n ≤ 36 → length (take n t) = n →
  forallb Notion.is_hex_or_dash (take n t) = true → Notion.at_end (drop n t) = true →
  Notion.match_id t = true.
Proof.
  intros Hn Hlen Hall Hend. unfold Notion.match_id. apply existsb_exists. exists n.
  split; [cbn; lia|]. by rewrite Hlen, Nat.eqb_refl, Hall, Hend.
Qed.

Lemma match_id_id_like s :
  Notion.match_id (Notion.remove_dashes s) = true → id_like (Notion.remove_dashes s).
Proof.
  intros (n & Hn & Hlen & Hall & Hend)%match_id_inv.
  exists (take n (Notion.remove_dashes s)), (drop n (Notion.remove_dashes s)).
  split; [by rewrite take_drop|]. split; [|split; [lia|by apply at_end_inv]].
  apply forallb_Forall. apply forallb_Forall in Hall.
  apply Forall_forall. intros c Hc. rewrite Forall_forall in Hall.
  specialize (Hall c Hc). unfold Notion.is_hex_or_dash in Hall.
  rewrite (remove_dashes_no_dash s c) in Hall; [by rewrite orb_false_r in Hall|].
  by apply (subseteq_take n).
Qed.

Lemma id_like_count r : id_like r → 32 ≤ count_hex r.
Proof.
  intros (h & tail & -> & Hh & Hlen & _). rewrite count_hex_app, (count_hex_all h Hh). lia.
Qed.

Lemma hex32_here_inv s g :
  Notion.hex32_here s = Some g →
  s = g ++ drop 32 s ∧ length g = 32 ∧ forallb Notion.is_hex g = true ∧
  Notion.question_or_end (drop 32 s) = true.
Proof.
  unfold Notion.hex32_here.
  destruct (Nat.eqb_spec (length (take 32 s)) 32) as [Hlen|]; [|done].
  destruct (forallb Notion.is_hex (take 32 s)) eqn:Hall; [|done].
  destruct (Notion.question_or_end (drop 32 s)) eqn:Hend; [|done].
  cbn. intros [= <-]. by rewrite take_drop.
Qed.

Lemma dash_hex32_here_inv s g :
  Notion.dash_hex32_here s = Some g →
  ∃ s', s = Notion.dash :: s' ∧ Notion.hex32_here s' = Some g.
Proof.
  destruct s as [|c s']; [done|]. cbn.
  destruct (Ascii.eqb_spec c Notion.dash) as [->|]; [|done]. by exists s'.
Qed.

Lemma re_search_Some {A} (here : list Ascii.ascii → option A) s m :
  Notion.re_search here s = Some m →
  ∃ pre post, s = pre ++ post ∧ here post = Some m ∧
              ∀ pre1 pre2, pre = pre1 ++ pre2 → pre2 ≠ [] → here (pre2 ++ post) = None.
Proof.
  induction s as [|c s IH]; cbn.
  - destruct (here []) eqn:Hh; [|done]. intros [= ->]. exists [], []. split; [done|].
    split; [done|]. intros [|] [|]; done.
  - destruct (here (c :: s)) eqn:Hh.
    + intros [= ->]. exists [], (c :: s). split; [done|]. split; [done|].
      intros [|] [|]; done.
    + intros (pre & post & -> & Hpost & Hbefore)%IH.
      exists (c :: pre), post. split; [done|]. split; [done|].
      intros [|c1 pre1] pre2 Heq Hne; cbn in Heq.
      * by subst pre2.
      * injection Heq as -> ->. by apply (Hbefore pre1 pre2).
Qed.

Lemma re_search_None {A} (here : list Ascii.ascii → option A) s pre post :
  Notion.re_search here s = None → s = pre ++ post → here post = None.
Proof.
  revert pre. induction s as [|c s IH]; intros pre; cbn.
  - destruct (here []) eqn:Hh; [done|].
    intros _ Heq. symmetry in Heq. apply app_eq_nil in Heq as [_ ->]. done.
  - destruct (here (c :: s)) eqn:Hh; [done|].
    intros Hs Heq. destruct pre as [|c1 pre]; cbn in Heq.
    + by subst post.
    + injection Heq as -> ->. by eapply IH.
Qed.

Lemma re_search_at {A} (here : list Ascii.ascii → option A) pre post m :
  here post = Some m →
  (∀ pre1 pre2, pre = pre1 ++ pre2 → pre2 ≠ [] → here (pre2 ++ post) = None) →
  Notion.re_search here (pre ++ post) = Some m.
Proof.
  intros Hpost. induction pre as [|c pre IH]; intros Hbefore.
  - cbn [app]. destruct post; cbn; by rewrite Hpost.
  - pose proof (Hbefore [] (c :: pre) eq_refl) as Hhead.
    cbn [app Notion.re_search] in *. rewrite Hhead by done.
    apply IH. intros pre1 pre2 -> Hne. by apply (Hbefore (c :: pre1) pre2).
Qed.

(** The third pattern matches only where the second has matched before. *)
Lemma dash_hex32_after_hex32 s :
  Notion.re_search Notion.hex32_here s = None →
  Notion.re_search Notion.dash_hex32_here s = None.
Proof.
  intros Hnone.
  destruct (Notion.re_search Notion.dash_hex32_here s) as [g|] eqn:Hdash; [|done].
  apply re_search_Some in Hdash as (pre & post & -> & Hpost & _).
  apply dash_hex32_here_inv in Hpost as (post' & -> & Hhere).
  rewrite (re_search_None _ _ (pre ++ [Notion.dash]) post' Hnone) in Hhere; [done|].
  by rewrite <- app_assoc.
Qed.

Lemma chars_join l : Notion.chars (Notion.join l) = l.
Proof. apply list_ascii_of_string_of_list_ascii. Qed.

Lemma join_chars s : Notion.join (Notion.chars s) = s.
Proof. apply string_of_list_ascii_of_string. Qed.

Lemma chars_length s : length (Notion.chars s) = String.length s.
Proof. induction s as [|c s IH]; cbn; [done|by rewrite IH]. Qed.

(** What [parse_page_id] returns, branch by branch. *)
Lemma parse_page_id_spec url_or_id :
  let s := Notion.chars url_or_id in
  Notion.parse_page_id url_or_id =
    if Notion.match_id (Notion.remove_dashes s) then Return (Notion.join (Notion.remove_dashes s))
    else
      match Notion.re_search Notion.hex32_here s with
      | Some group => Return (Notion.join group)
      | None =>
          let hex_chars := List.filter Notion.is_hex (map Notion.lower s) in
          if Nat.leb 32 (length hex_chars)
          then Return (Notion.join (drop (length hex_chars - 32) hex_chars))
          else Raise ValueError
      end.
Proof.
  cbn zeta. unfold Notion.parse_page_id.
  destruct (Notion.match_id _); [done|].
  destruct (Notion.re_search Notion.hex32_here _) eqn:Hsearch; [done|].
  by rewrite (dash_hex32_after_hex32 _ Hsearch).
Qed.

Lemma filter_hex_all s : forallb Notion.is_hex (List.filter Notion.is_hex s) = true.
Proof.
  apply forallb_forall. by intros c [_ Hc]%List.filter_In.
Qed.

Lemma forallb_drop {A} (f : A → bool) n l : forallb f l = true → forallb f (drop n l) = true.
Proof.
  rewrite !forallb_Forall. apply Forall_drop.
Qed.

(** X20: [parse_page_id] raises exactly when its argument, put in lower
    case, has fewer than 32 characters of [[a-f0-9]]; the exception is a
    ValueError.  So every string with 32 hexadecimal digits in it, wherever
    they stand, is given an id. *)
Theorem parse_page_id_raises_iff url_or_id :
  (Notion.parse_page_id url_or_id = Raise ValueError
   ↔ count_hex (map Notion.lower (Notion.chars url_or_id)) < 32) ∧
  ∀ e, Notion.parse_page_id url_or_id = Raise e → e = ValueError.
Proof.
  rewrite parse_page_id_spec. cbn zeta.
  set (s := Notion.chars url_or_id). fold (count_hex (map Notion.lower s)).
  pose proof (count_hex_lower s) as Hlower.
  destruct (Notion.match_id (Notion.remove_dashes s)) eqn:Hid.
  { apply match_id_id_like, id_like_count in Hid.
    rewrite count_hex_remove_dashes in Hid. split; [split; [done|lia]|done]. }
  destruct (Notion.re_search Notion.hex32_here s) as [g|] eqn:Hsearch.
  { apply re_search_Some in Hsearch as (pre & post & Hs & Hhere & _).
    apply hex32_here_inv in Hhere as (Hpost & Hlen & Hall & _).
    assert (32 ≤ count_hex s).
    { rewrite Hs, Hpost, !count_hex_app, (count_hex_all g Hall). lia. }
    split; [split; [done|lia]|done]. }
  destruct (Nat.leb_spec 32 (count_hex (map Notion.lower s))).
  - split; [split; [done|lia]|done].
  - split; [done|]. by intros e [= <-].
Qed.

(** X21: what [parse_page_id] returns is 32 to 36 characters of [[a-f0-9]],
    with a newline after them at most; it is 32 characters and nothing else
    unless the argument without its dashes is the result (the first
    pattern).  A result is its own id: [parse_page_id] returns it
    unchanged. *)
Theorem parse_page_id_result url_or_id r :
  Notion.parse_page_id url_or_id = Return r →
  id_like (Notion.chars r) ∧
  (r ≠ Notion.join (Notion.remove_dashes (Notion.chars url_or_id)) →
   String.length r = 32 ∧ forallb Notion.is_hex (Notion.chars r) = true) ∧
  Notion.parse_page_id r = Return r.
Proof.
  rewrite parse_page_id_spec. cbn zeta. set (s := Notion.chars url_or_id). intros Hr.
  assert (id_like (Notion.chars r)
          ∧ (r ≠ Notion.join (Notion.remove_dashes s) →
             length (Notion.chars r) = 32 ∧ forallb Notion.is_hex (Notion.chars r) = true))
    as [Hlike Hshort].
  { assert (∀ g, length g = 32 → forallb Notion.is_hex g = true → id_like g) as Hg.
    { intros g Hlen Hall. exists g, []. rewrite app_nil_r. split; [done|].
      split; [done|]. split; [lia|by left]. }
    destruct (Notion.match_id (Notion.remove_dashes s)) eqn:Hid.
    { injection Hr as <-. rewrite chars_join. split; [by apply match_id_id_like|done]. }
    destruct (Notion.re_search Notion.hex32_here s) as [g|] eqn:Hsearch.
    { injection Hr as <-. rewrite chars_join.
      apply re_search_Some in Hsearch as (pre & post & Hs & Hhere & _).
      apply hex32_here_inv in Hhere as (Hpost & Hlen & Hall & _). split; [by apply Hg|done]. }
    set (hex_chars := List.filter Notion.is_hex (map Notion.lower s)) in *.
    destruct (Nat.leb_spec 32 (length hex_chars)); [|done].
    injection Hr as <-. rewrite chars_join.
    assert (length (drop (length hex_chars - 32) hex_chars) = 32)
      by (rewrite length_drop; lia).
    assert (forallb Notion.is_hex (drop (length hex_chars - 32) hex_chars) = true)
      by apply forallb_drop, filter_hex_all.
    split; [by apply Hg|done]. }
  split; [done|]. split.
  { intros Hne. destruct (Hshort Hne) as [Hlen Hall]. split; [|done].
    by rewrite <- chars_length. }
  destruct Hlike as (h & tail & Hrh & Hh & Hlen & Htail).
  rewrite parse_page_id_spec. cbn zeta.
  assert (Notion.remove_dashes (Notion.chars r) = Notion.chars r) as ->.
  { rewrite Hrh. unfold Notion.remove_dashes. rewrite List.filter_app.
    fold (Notion.remove_dashes h). rewrite (remove_dashes_hex h Hh).
    by destruct Htail as [-> | ->]. }
  rewrite (match_id_intro _ (length h)), join_chars; [done|lia|..].
  - by rewrite Hrh, take_app_length.
  - rewrite Hrh, take_app_length. apply forallb_Forall. apply forallb_Forall in Hh.
    eapply Forall_impl; [exact Hh|]. intros c Hc. unfold Notion.is_hex_or_dash.
    by rewrite Hc.
  - rewrite Hrh, drop_app_length. by destruct Htail as [-> | ->].
Qed.

(** X22: the id of a page is read off its URL: for a string made of a part
    that has a character outside [[a-f0-9-]], has no question mark and does
    not end in a character of [[a-f0-9]], then 32 characters of [[a-f0-9]],
    then nothing or a question mark and anything, [parse_page_id] returns
    the 32 characters. *)
Theorem parse_page_id_of_url before c page_id rest :
  c ∈ before → Notion.is_hex_or_dash c = false →
  Notion.question_mark ∉ before →
  (∀ d, last before = Some d → Notion.is_hex d = false) →
  length page_id = 32 → forallb Notion.is_hex page_id = true →
  Notion.question_or_end rest = true →
  Notion.parse_page_id (Notion.join (before ++ page_id ++ rest)) = Return (Notion.join page_id).
Proof.
  intros Hc Hclass Hq Hlast Hlen Hall Hrest.
  rewrite parse_page_id_spec. cbn zeta. rewrite chars_join.
  assert (Notion.match_id (Notion.remove_dashes (before ++ page_id ++ rest)) = false) as ->.
  { apply not_true_is_false.
    intros (n & Hn & Hlenn & Halln & Hend)%match_id_inv.
    apply list_elem_of_split in Hc as (b1 & b2 & ->).
    assert (Ascii.eqb c Notion.dash = false) as Hdash.
    { unfold Notion.is_hex_or_dash in Hclass. by apply orb_false_iff in Hclass as [_ ?]. }
    unfold Notion.remove_dashes in *.
    rewrite !List.filter_app in *. cbn [List.filter] in *. rewrite Hdash in *. cbn [negb] in *.
    fold (Notion.remove_dashes b1) (Notion.remove_dashes b2) (Notion.remove_dashes page_id)
      (Notion.remove_dashes rest) in *.
    rewrite (remove_dashes_hex page_id Hall) in *.
    set (a := Notion.remove_dashes b1) in *.
    destruct (decide (n ≤ length a)) as [Hle|Hgt].
    - apply at_end_inv in Hend.
      assert (2 ≤ length (drop n ((a ++ c :: Notion.remove_dashes b2)
                                   ++ page_id ++ Notion.remove_dashes rest))) as Hl.
      { rewrite length_drop, !length_app. cbn. lia. }
      destruct Hend as [Hend|Hend]; rewrite Hend in Hl; cbn in Hl; lia.
    - apply forallb_Forall in Halln. rewrite Forall_forall in Halln.
      rewrite (Halln c) in Hclass; [done|].
      apply elem_of_take. exists (length a). split; [|lia].
      rewrite <- !app_assoc. cbn [app]. by apply list_lookup_middle. }
  rewrite (re_search_at Notion.hex32_here before (page_id ++ rest) page_id); [done| |].
  - unfold Notion.hex32_here.
    rewrite (take_app_length' page_id rest 32 (eq_sym Hlen)),
      (drop_app_length' page_id rest 32 (eq_sym Hlen)).
    by rewrite Hlen, Nat.eqb_refl, Hall, Hrest.
  - intros pre1 pre2 -> Hne.
    destruct (Notion.hex32_here (pre2 ++ page_id ++ rest)) as [g|] eqn:Hhere; [|done].
    exfalso. apply hex32_here_inv in Hhere as (Hs & Hg & Hgall & Hend).
    destruct (decide (length pre2 ≤ 32)) as [Hle|Hgt].
    + destruct (last pre2) as [d|] eqn:Hd; [|by apply last_None in Hd].
      assert (Notion.is_hex d = false) as Hdhex.
      { apply Hlast. rewrite last_app, Hd. done. }
      apply last_Some in Hd as [pre2' ->].
      assert (d ∈ g) as Hin.
      { assert (g = take 32 ((pre2' ++ [d]) ++ page_id ++ rest)) as ->.
        { rewrite Hs. symmetry. by apply take_app_length'. }
        apply elem_of_take. exists (length pre2'). rewrite length_app in Hle. cbn in Hle.
        split; [|lia]. rewrite <- !app_assoc. cbn [app]. by apply list_lookup_middle. }
      apply forallb_Forall in Hgall. rewrite Forall_forall in Hgall.
      by rewrite (Hgall d Hin) in Hdhex.
    + assert (∃ x tail, drop 32 (pre2 ++ page_id ++ rest) = x :: tail ∧ x ∈ pre2
                        ∧ 32 ≤ length tail) as (x & tail & Hdrop & Hx & Htail).
      { rewrite drop_app_le by lia.
        destruct (drop 32 pre2) as [|x tail] eqn:Hd.
        - apply (f_equal length) in Hd. rewrite length_drop in Hd. cbn in Hd. lia.
        - exists x, (tail ++ page_id ++ rest). split; [done|]. split.
          + apply (subseteq_drop 32). rewrite Hd. by left.
          + rewrite !length_app. lia. }
      rewrite Hdrop in Hend. unfold Notion.question_or_end in Hend.
      apply orb_true_iff in Hend as [Hend|Hend].
      * destruct (Ascii.eqb_spec x Notion.question_mark) as [->|]; [|done].
        apply Hq. apply elem_of_app. by right.
      * destruct tail as [|? ?]; [cbn in Htail; lia|done].
Qed.

Lemma parse_page_id_result_witness :
  Notion.parse_page_id "cafe-2dfc9c6bdc62803f9ad6fc5f3ec30a34"
    = Return "cafe2dfc9c6bdc62803f9ad6fc5f3ec30a34" ∧
  Notion.parse_page_id "cafe2dfc9c6bdc62803f9ad6fc5f3ec30a34"
    = Return "cafe2dfc9c6bdc62803f9ad6fc5f3ec30a34".
Proof.
  split; [vm_compute; reflexivity|].
  apply (parse_page_id_result "cafe-2dfc9c6bdc62803f9ad6fc5f3ec30a34"
           "cafe2dfc9c6bdc62803f9ad6fc5f3ec30a34").
  vm_compute. reflexivity.
Defined.

(** The page of [ROOT_PAGES] in [src/src/config.py]. *)
Definition ROOT_PAGE : string :=
  "https://www.notion.so/baymac/Workout-2dfc9c6bdc62803f9ad6fc5f3ec30a34".

Lemma parse_page_id_of_url_witness :
  Notion.parse_page_id ROOT_PAGE = Return "2dfc9c6bdc62803f9ad6fc5f3ec30a34".
Proof.
  apply (parse_page_id_of_url (Notion.chars "https://www.notion.so/baymac/Workout-")
           (Ascii.ascii_of_nat 58) (Notion.chars "2dfc9c6bdc62803f9ad6fc5f3ec30a34") []).
  - apply (bool_decide_unpack _). vm_compute. reflexivity.
  - reflexivity.
  - apply (bool_decide_unpack _). vm_compute. reflexivity.
  - intros d Hd. vm_compute in Hd. injection Hd as <-. reflexivity.
  - reflexivity.
  - reflexivity.
  - reflexivity.
Defined.

(** * Properties of the traversal *)

Arguments Fetch.normalize : simpl never.
Arguments Fetch.blank : simpl never.

Section Traversal.
Variables api E page_object : Type.
Variable retrieve : string → api → (E + page_object) * api.
Variable get_page_title : page_object → E + string.
Variable get_page_url : page_object → E + jvalue.
Variable last_edited_time : page_object → E + jvalue.
Variable get_page_content_and_children :
  string → api → (E + (string * list string)) * api.

Abbreviation fetch_page_recursive :=
  (Fetch.fetch_page_recursive api E page_object retrieve get_page_title get_page_url
     last_edited_time get_page_content_and_children).
Abbreviation fetch_root_pages :=
  (Fetch.fetch_root_pages api E page_object retrieve get_page_title get_page_url
     last_edited_time get_page_content_and_children).

(** The state in which a traversal starts on a client. *)
Definition start (c : api) : Fetch.State api E :=
  {| Fetch.client := c; Fetch.visited := ∅; Fetch.yielded := []; Fetch.log := [] |}.

(** What one call of [fetch_page_recursive] does before it turns to the
    child pages. *)
Lemma fetch_page_recursive_spec fuel page_id st :
  fetch_page_recursive (S fuel) page_id st =
    if decide (Fetch.normalize page_id ∈ Fetch.visited st) then (Fetch.Done tt, st)
    else
      let seen := {[Fetch.normalize page_id]} ∪ Fetch.visited st in
      let state c pages lines :=
        {| Fetch.client := c; Fetch.visited := seen; Fetch.yielded := pages;
           Fetch.log := lines |} in
      match retrieve page_id (Fetch.client st) with
      | (inl e, c1) =>
          (Fetch.Done tt,
           state c1 (Fetch.yielded st) (Fetch.log st ++ [Fetch.CouldNotFetch page_id e]))
      | (inr page, c1) =>
          let st1 := state c1 (Fetch.yielded st) (Fetch.log st) in
          match get_page_title page with
          | inl e => (Fetch.Exception (inr e), st1)
          | inr title =>
              match get_page_url page with
              | inl e => (Fetch.Exception (inr e), st1)
              | inr url =>
                  match last_edited_time page with
                  | inl e => (Fetch.Exception (inr e), st1)
                  | inr last_edited =>
                      match get_page_content_and_children page_id c1 with
                      | (inl e, c2) =>
                          (Fetch.Exception (inr e),
                           state c2 (Fetch.yielded st) (Fetch.log st))
                      | (inr (content, child_page_ids), c2) =>
                          Fetch.for_each (fetch_page_recursive fuel) child_page_ids
                            (state c2
                               (Fetch.yielded st
                                ++ (if Fetch.blank content then []
                                    else [{| Indexer.id := page_id;
                                             Indexer.title := title;
                                             Indexer.url := url;
                                             Indexer.last_edited := last_edited;
                                             Indexer.content := content |}]))
                               (Fetch.log st))
                      end
                  end
              end
          end
      end.
Proof.
  cbn [Fetch.fetch_page_recursive].
  unfold mbind, Fetch.M_bind, Fetch.get_visited, Fetch.set_visited, Fetch.call,
    Fetch.raising, Fetch.emit, Fetch.yield, mret, Fetch.M_ret.
  destruct (decide _); [done|]. cbn [Fetch.client Fetch.visited Fetch.yielded Fetch.log].
  destruct (retrieve page_id (Fetch.client st)) as [[e|page] c1]; [done|].
  cbn [Fetch.client Fetch.visited Fetch.yielded Fetch.log].
  destruct (get_page_title page); [done|].
  destruct (get_page_url page); [done|].
  destruct (last_edited_time page); [done|].
  cbn [Fetch.client Fetch.visited Fetch.yielded Fetch.log].
  destruct (get_page_content_and_children page_id c1) as [[e|[content children]] c2];
    [done|].
  cbn [Fetch.client Fetch.visited Fetch.yielded Fetch.log].
  destruct (Fetch.blank content); cbn [negb];
    cbn [Fetch.client Fetch.visited Fetch.yielded Fetch.log]; by rewrite ?app_nil_r.
Qed.

Lemma fetch_for_each_cons {A} (body : A → Fetch.M api E unit) x l st :
  Fetch.for_each body (x :: l) st =
    match body x st with
    | (Fetch.Done _, st') => Fetch.for_each body l st'
    | (Fetch.Exception e, st') => (Fetch.Exception e, st')
    | (Fetch.OutOfFuel, st') => (Fetch.OutOfFuel, st')
    end.
Proof. reflexivity. Qed.

(** The pages yielded are known to [visited], under different ids, and none
    is blank. *)
Definition tidy (st : Fetch.State api E) : Prop :=
  NoDup (map (λ page, Fetch.normalize (Indexer.id page)) (Fetch.yielded st)) ∧
  (∀ page, page ∈ Fetch.yielded st →
           Fetch.normalize (Indexer.id page) ∈ Fetch.visited st) ∧
  Forall (λ page, Fetch.blank (Indexer.content page) = false) (Fetch.yielded st).

(** A step that keeps the state tidy and forgets no visit. *)
Definition keeps_tidy {A} (m : Fetch.M api E A) : Prop :=
  ∀ st, tidy st → tidy (m st).2 ∧ Fetch.visited st ⊆ Fetch.visited (m st).2.

Lemma keeps_tidy_for_each {A} (body : A → Fetch.M api E unit) l :
  (∀ x, keeps_tidy (body x)) → keeps_tidy (Fetch.for_each body l).
Proof.
  intros Hbody. induction l as [|x l IH]; [by intros st Hst|].
  intros st Hst. rewrite fetch_for_each_cons.
  destruct (Hbody x st Hst) as [Ht Hv]. destruct (body x st) as [[[]|e|] st1]; [|done..].
  destruct (IH st1 Ht) as [Ht' Hv']. split; [done|]. cbn in *. set_solver.
Qed.

Lemma fetch_page_recursive_keeps_tidy fuel page_id :
  keeps_tidy (fetch_page_recursive fuel page_id).
Proof.
  revert page_id. induction fuel as [|fuel IH]; intros page_id; [by intros st Hst|].
  intros st Hst. rewrite fetch_page_recursive_spec.
  destruct (decide (Fetch.normalize page_id ∈ Fetch.visited st)) as [|Hnew]; [done|].
  cbn zeta. destruct Hst as (Hnd & Hin & Hblank).
  assert (∀ c pages lines,
            pages = Fetch.yielded st →
            tidy {| Fetch.client := c;
                    Fetch.visited := {[Fetch.normalize page_id]} ∪ Fetch.visited st;
                    Fetch.yielded := pages; Fetch.log := lines |}) as Hsame.
  { intros c pages lines ->. split; [done|]. split; [|done].
    intros page Hpage. cbn in *. specialize (Hin page Hpage). set_solver. }
  assert (Fetch.visited st ⊆ {[Fetch.normalize page_id]} ∪ Fetch.visited st) as Hsub
    by set_solver.
  destruct (retrieve page_id (Fetch.client st)) as [[e|page] c1]; [by split; [apply Hsame|]|].
  destruct (get_page_title page) as [e|title]; [by split; [apply Hsame|]|].
  destruct (get_page_url page) as [e|url]; [by split; [apply Hsame|]|].
  destruct (last_edited_time page) as [e|last_edited]; [by split; [apply Hsame|]|].
  destruct (get_page_content_and_children page_id c1) as [[e|[content children]] c2];
    [by split; [apply Hsame|]|].
  match goal with
  | |- context [Fetch.for_each _ children ?s] =>
      destruct (keeps_tidy_for_each (fetch_page_recursive fuel) children IH s) as [Ht Hv];
        [|split; [done|cbn in Hv; set_solver]]
  end.
  destruct (Fetch.blank content) eqn:Hcontent; [rewrite app_nil_r; by apply Hsame|].
  split; [|split]; cbn [Fetch.yielded Fetch.visited].
  - rewrite map_app. cbn. apply NoDup_app. split; [done|]. split; [|apply NoDup_singleton].
    intros n (page' & Hn & Hpage')%list_elem_of_fmap Heq%list_elem_of_singleton.
    apply Hnew. rewrite <- Heq, Hn. by apply Hin.
  - intros page' [Hpage'| ->%list_elem_of_singleton]%elem_of_app.
    + specialize (Hin page' Hpage'). set_solver.
    + cbn. set_solver.
  - apply Forall_app. split; [done|]. by repeat constructor.
Qed.

Lemma start_tidy c : tidy (start c).
Proof.
  split; [constructor|]. split; [|constructor]. by intros page ?%elem_of_nil.
Qed.

(** One root: what is in the [try], and what follows the [except]. *)
Definition fetch_root (fuel : nat) (url_or_id : string) : Fetch.M api E unit :=
  Fetch.try_except api E
    (page_id ← Fetch.lift_outcome api E (Notion.parse_page_id url_or_id);
     fetch_page_recursive fuel page_id)
    (λ e, Fetch.emit api E (Fetch.FailedToProcess url_or_id e)).

Lemma fetch_root_keeps_tidy fuel url_or_id : keeps_tidy (fetch_root fuel url_or_id).
Proof.
  intros st Hst. unfold fetch_root, Fetch.try_except, mbind, Fetch.M_bind,
    Fetch.lift_outcome.
  destruct (Notion.parse_page_id url_or_id) as [page_id|e]; [|done].
  destruct (fetch_page_recursive_keeps_tidy fuel page_id st Hst) as [Ht Hv].
  by destruct (fetch_page_recursive fuel page_id st) as [[[]|e|] st1].
Qed.

Lemma fetch_root_no_exception fuel url_or_id st e :
  (fetch_root fuel url_or_id st).1 ≠ Fetch.Exception e.
Proof.
  unfold fetch_root, Fetch.try_except, mbind, Fetch.M_bind, Fetch.lift_outcome.
  destruct (Notion.parse_page_id url_or_id) as [page_id|e1]; [|done].
  by destruct (fetch_page_recursive fuel page_id st) as [[[]|e1|] st1].
Qed.

Lemma fetch_root_pages_spec fuel roots st :
  fetch_root_pages fuel roots st =
    match roots with
    | [] => (Fetch.Exception (inl ValueError), st)
    | _ :: _ =>
        Fetch.for_each (fetch_root fuel) roots
          {| Fetch.client := Fetch.client st; Fetch.visited := ∅;
             Fetch.yielded := Fetch.yielded st; Fetch.log := Fetch.log st |}
    end.
Proof. by destruct roots. Qed.

(** What is in the [try] for one root, and the state after the warning of
    the [except]. *)
Definition attempt (fuel : nat) (url_or_id : string) : Fetch.M api E unit :=
  page_id ← Fetch.lift_outcome api E (Notion.parse_page_id url_or_id);
  fetch_page_recursive fuel page_id.

Definition warned (st : Fetch.State api E) (url_or_id : string) (e : exn + E)
    : Fetch.State api E :=
  {| Fetch.client := Fetch.client st; Fetch.visited := Fetch.visited st;
     Fetch.yielded := Fetch.yielded st;
     Fetch.log := Fetch.log st ++ [Fetch.FailedToProcess url_or_id e] |}.

Lemma fetch_root_attempt fuel url_or_id st :
  fetch_root fuel url_or_id st =
    match attempt fuel url_or_id st with
    | (Fetch.Exception e, st1) => (Fetch.Done tt, warned st1 url_or_id e)
    | other => other
    end.
Proof.
  unfold fetch_root, Fetch.try_except. fold (attempt fuel url_or_id).
  by destruct (attempt fuel url_or_id st) as [[[]|e|] st1].
Qed.

Lemma fetch_for_each_app {A} (body : A → Fetch.M api E unit) l1 l2 st :
  Fetch.for_each body (l1 ++ l2) st =
    match Fetch.for_each body l1 st with
    | (Fetch.Done _, st') => Fetch.for_each body l2 st'
    | other => other
    end.
Proof.
  revert st. induction l1 as [|x l1 IH]; intros st; [done|].
  cbn [app]. rewrite !fetch_for_each_cons.
  destruct (body x st) as [[[]|e|] st1]; [apply IH|done..].
Qed.

(** The roots after the first ones: the run goes on with the next root from
    the state the roots before it have left. *)
Lemma fetch_root_pages_split fuel pre root post c st :
  match pre with
  | [] => st = start c
  | _ :: _ => fetch_root_pages fuel pre (start c) = (Fetch.Done tt, st)
  end →
  fetch_root_pages fuel (pre ++ root :: post) (start c) =
    match fetch_root fuel root st with
    | (Fetch.Done _, st') => Fetch.for_each (fetch_root fuel) post st'
    | other => other
    end.
Proof.
  intros Hpre.
  assert (Fetch.for_each (fetch_root fuel) pre (start c) = (Fetch.Done tt, st)) as Hrun.
  { destruct pre as [|x pre]; [by subst st|]. by rewrite fetch_root_pages_spec in Hpre. }
  rewrite fetch_root_pages_spec.
  assert (∀ l, match pre ++ root :: post with
               | [] => (Fetch.Exception (inl ValueError), start c)
               | _ :: _ => l
               end = l) as -> by (intros l; by destruct pre).
  change {| Fetch.client := Fetch.client (start c); Fetch.visited := ∅;
            Fetch.yielded := Fetch.yielded (start c); Fetch.log := Fetch.log (start c) |}
    with (start c).
  by rewrite fetch_for_each_app, Hrun, fetch_for_each_cons.
Qed.

(** X23: the generator [fetch_root_pages] raises only when no root page is
    configured: then it raises a ValueError before any call of the client,
    with nothing yielded or printed.  With root pages, no exception leaves
    it, whatever the client or the reading of its answers raises: the
    traversal of a root that fails is given up with a warning and the next
    root is taken.  When the roots before a root have been gone through and
    the attempt on this root (parsing its id and traversing its pages)
    raises, one warning line with the root and the exception is added to
    the state the attempt has left, pages yielded included, and the run is
    the run over the roots after it from that state; when the attempt
    returns, the run goes on from the state it has left. *)
Theorem fetch_root_pages_raises_only_without_roots fuel roots c :
  (roots = [] →
   fetch_root_pages fuel roots (start c) = (Fetch.Exception (inl ValueError), start c)) ∧
  (roots ≠ [] → ∀ e, (fetch_root_pages fuel roots (start c)).1 ≠ Fetch.Exception e) ∧
  (∀ pre root post st st1,
     roots = pre ++ root :: post →
     match pre with
     | [] => st = start c
     | _ :: _ => fetch_root_pages fuel pre (start c) = (Fetch.Done tt, st)
     end →
     (∀ e, attempt fuel root st = (Fetch.Exception e, st1) →
           fetch_root_pages fuel roots (start c) =
             Fetch.for_each (fetch_root fuel) post (warned st1 root e) ∧
           (post = [] →
            fetch_root_pages fuel roots (start c) = (Fetch.Done tt, warned st1 root e))) ∧
     (attempt fuel root st = (Fetch.Done tt, st1) →
      fetch_root_pages fuel roots (start c) = Fetch.for_each (fetch_root fuel) post st1)).
Proof.
  split; [by intros ->|]. split.
  - intros Hroots e. rewrite fetch_root_pages_spec.
    destruct roots as [|root roots]; [done|]. clear Hroots.
    generalize (root :: roots). intros l. generalize (start c).
    cbn [Fetch.client Fetch.yielded Fetch.log].
    intros st. set (st0 := {| Fetch.client := _ |}). clearbody st0.
    revert st0. induction l as [|x l IH]; intros st0; [done|].
    rewrite fetch_for_each_cons. pose proof (fetch_root_no_exception fuel x st0) as Hx.
    destruct (fetch_root fuel x st0) as [[[]|e1|] st1]; [apply IH| |done].
    by destruct (Hx e1).
  - intros pre root post st st1 -> Hpre.
    rewrite (fetch_root_pages_split fuel pre root post c st Hpre), fetch_root_attempt.
    split.
    + intros e ->. split; [done|]. by intros ->.
    + by intros ->.
Qed.

Lemma fetch_root_pages_tidy fuel roots c :
  tidy (fetch_root_pages fuel roots (start c)).2.
Proof.
  rewrite fetch_root_pages_spec. destruct roots as [|root roots]; [apply start_tidy|].
  apply (keeps_tidy_for_each (fetch_root fuel) (root :: roots)
           (fetch_root_keeps_tidy fuel) (start c)), start_tidy.
Qed.

Lemma normalize_ids_NoDup (pages : list Indexer.Page) :
  NoDup (map (λ page, Fetch.normalize (Indexer.id page)) pages) →
  NoDup (map Indexer.id pages).
Proof.
  rewrite (list_fmap_compose Indexer.id Fetch.normalize). apply NoDup_fmap_1.
Qed.

(** X24: no page is yielded twice in a traversal, whatever the links
    between the pages, the roots and the answers of the client, and
    whatever the depth allowed: the ids of the pages yielded are pairwise
    different, even with their dashes removed, and the content of every
    page yielded has a character that is not whitespace. *)
Theorem fetched_pages_are_distinct fuel roots c :
  let pages := Fetch.yielded (fetch_root_pages fuel roots (start c)).2 in
  NoDup (map (λ page, Fetch.normalize (Indexer.id page)) pages) ∧
  NoDup (map Indexer.id pages) ∧
  Forall (λ page, Fetch.blank (Indexer.content page) = false) pages.
Proof.
  destruct (fetch_root_pages_tidy fuel roots c) as (Hnd & _ & Hblank).
  split; [done|]. split; [by apply normalize_ids_NoDup|done].
Qed.

(** ** Termination *)

(** The child pages the workspace ever shows are among the pages [U]. *)
Definition within (U : gset string) : Prop :=
  ∀ page_id c content child_page_ids c',
    get_page_content_and_children page_id c = (inr (content, child_page_ids), c') →
    ∀ child, child ∈ child_page_ids → Fetch.normalize child ∈ U.

Definition grows {A} (m : Fetch.M api E A) : Prop :=
  ∀ st, Fetch.visited st ⊆ Fetch.visited (m st).2.

Lemma grows_for_each {A} (body : A → Fetch.M api E unit) l :
  (∀ x, grows (body x)) → grows (Fetch.for_each body l).
Proof.
  intros Hbody. induction l as [|x l IH]; [by intros st|].
  intros st. rewrite fetch_for_each_cons. pose proof (Hbody x st) as Hx.
  destruct (body x st) as [[[]|e|] st1]; [|done..].
  pose proof (IH st1). cbn in *. set_solver.
Qed.

Lemma fetch_page_recursive_grows fuel page_id : grows (fetch_page_recursive fuel page_id).
Proof.
  revert page_id. induction fuel as [|fuel IH]; intros page_id st; [done|].
  rewrite fetch_page_recursive_spec. destruct (decide _); [done|]. cbn zeta.
  destruct (retrieve page_id (Fetch.client st)) as [[e|page] c1]; [cbn; set_solver|].
  destruct (get_page_title page) as [e|title]; [cbn; set_solver|].
  destruct (get_page_url page) as [e|url]; [cbn; set_solver|].
  destruct (last_edited_time page) as [e|last_edited]; [cbn; set_solver|].
  destruct (get_page_content_and_children page_id c1) as [[e|[content children]] c2];
    [cbn; set_solver|].
  match goal with
  | |- context [Fetch.for_each _ children ?s] =>
      pose proof (grows_for_each (fetch_page_recursive fuel) children IH s) as Hv
  end.
  cbn in Hv. set_solver.
Qed.

Lemma fetch_page_recursive_enough_fuel U fuel page_id st :
  within U → Fetch.normalize page_id ∈ U →
  size (U ∖ Fetch.visited st) < fuel →
  (fetch_page_recursive fuel page_id st).1 ≠ Fetch.OutOfFuel.
Proof.
  intros HU. revert page_id st. induction fuel as [|fuel IH]; intros page_id st Hid Hsize;
    [lia|].
  rewrite fetch_page_recursive_spec.
  destruct (decide (Fetch.normalize page_id ∈ Fetch.visited st)) as [|Hnew]; [done|].
  cbn zeta.
  assert (size (U ∖ ({[Fetch.normalize page_id]} ∪ Fetch.visited st)) < fuel) as Hless.
  { assert (U ∖ ({[Fetch.normalize page_id]} ∪ Fetch.visited st) ⊂ U ∖ Fetch.visited st)
      as Hsub%subset_size; [|lia].
    split.
    - intros x. rewrite !elem_of_difference, elem_of_union. tauto.
    - intros Hsub. specialize (Hsub (Fetch.normalize page_id)).
      rewrite !elem_of_difference, elem_of_union, elem_of_singleton in Hsub. tauto. }
  destruct (retrieve page_id (Fetch.client st)) as [[e|page] c1]; [done|].
  destruct (get_page_title page) as [e|title]; [done|].
  destruct (get_page_url page) as [e|url]; [done|].
  destruct (last_edited_time page) as [e|last_edited]; [done|].
  destruct (get_page_content_and_children page_id c1) as [[e|[content children]] c2] eqn:Hc;
    [done|].
  pose proof (HU _ _ _ _ _ Hc) as Hchildren.
  match goal with
  | |- (Fetch.for_each _ children ?s).1 ≠ _ =>
      assert (size (U ∖ Fetch.visited s) < fuel) as Hs by done; generalize dependent s
  end.
  clear Hc. induction children as [|child children IHc]; intros s Hs; [done|].
  rewrite fetch_for_each_cons.
  pose proof (IH child s (Hchildren child ltac:(by left)) Hs) as Hchild.
  pose proof (fetch_page_recursive_grows fuel child s) as Hgrow.
  destruct (fetch_page_recursive fuel child s) as [[[]|e|] s1]; [|done..].
  apply IHc; [intros ? ?; apply Hchildren; by right|].
  eapply Nat.le_lt_trans; [|exact Hs]. apply subseteq_size. cbn in Hgrow.
  intros x. rewrite !elem_of_difference. intros [Hx Hv]. split; [done|].
  intros Hin. apply Hv, Hgrow, Hin.
Qed.

(** X25: a traversal over a workspace with finitely many pages finishes:
    when the ids of the roots and of all child pages the client ever shows
    are, without their dashes, among [n] ids, a depth of more than [n]
    calls is never exceeded, and [fetch_root_pages] with at least one root
    ends without an exception, be the pages linked in circles or not. *)
Theorem traversal_finishes U fuel roots c :
  within U →
  (∀ root page_id, root ∈ roots → Notion.parse_page_id root = Return page_id →
                   Fetch.normalize page_id ∈ U) →
  roots ≠ [] →
  size U < fuel →
  (fetch_root_pages fuel roots (start c)).1 = Fetch.Done tt.
Proof.
  intros HU Hroots Hne Hfuel. rewrite fetch_root_pages_spec.
  destruct roots as [|root roots]; [done|]. clear Hne.
  revert Hroots. generalize (root :: roots). intros l Hroots. cbn [start Fetch.client Fetch.yielded Fetch.log].
  set (st0 := {| Fetch.client := c |}). clearbody st0.
  revert st0. induction l as [|x l IH]; intros st0; [done|].
  rewrite fetch_for_each_cons.
  assert (∃ st1, fetch_root fuel x st0 = (Fetch.Done tt, st1)) as [st1 ->].
  { unfold fetch_root, Fetch.try_except, mbind, Fetch.M_bind, Fetch.lift_outcome.
    destruct (Notion.parse_page_id x) as [page_id|e] eqn:Hparse; [|by eexists].
    assert (size (U ∖ Fetch.visited st0) < fuel) as Hsize.
    { eapply Nat.le_lt_trans; [|exact Hfuel]. apply subseteq_size.
      intros y. rewrite elem_of_difference. tauto. }
    pose proof (fetch_page_recursive_enough_fuel U fuel page_id st0 HU
                  (Hroots x page_id ltac:(by left) Hparse) Hsize) as Hfetch.
    destruct (fetch_page_recursive fuel page_id st0) as [[[]|e|] st1]; [by eexists..|done]. }
  apply IH. intros r p Hr. apply Hroots. by right.
Qed.

(** ** From the traversal to the list of sources *)

Variable split_text : string → list string.
Variable embed_documents : string → list string → list (list float).

(** X26: when the traversal has ended and the indexer, run on the pages it
    yielded, returns, [get_indexed_sources] lists each page yielded that
    has a chunk once, in the order of the traversal, with its title, url
    and last edit: no hypothesis on the ids is needed, the traversal yields
    no page twice. *)
Theorem traversal_then_index_lists_pages fuel roots c key failure verbose ist n ist' :
  let run := fetch_root_pages fuel roots (start c) in
  run.1 = Fetch.Done tt →
  Indexer.index_all_pages key split_text embed_documents (Fetch.yielded run.2) failure
    verbose ist = (Return n, ist') →
  Indexer.get_indexed_sources (VectorStore.disk (Indexer.world ist')) =
    Return (map source_of
              (filter (λ page, has_chunks split_text page = true) (Fetch.yielded run.2))).
Proof.
  intros run _ Hindex.
  eapply list_sources_after_index; [|exact Hindex].
  destruct (fetch_root_pages_tidy fuel roots c) as (Hnd%normalize_ids_NoDup & _).
  fold run in Hnd. eapply sublist_NoDup; [exact Hnd|].
  apply fmap_sublist, sublist_filter.
Qed.
End Traversal.

(** An example of a workspace: the root page with two child pages, of which
    the first is blank and links back to the root, and the second links to
    the first; the client counts its calls. *)
Definition example_retrieve (page_id : string) (calls : nat)
    : (string + string) * nat :=
  (if decide (page_id = "dead") then inl "not found" else inr page_id, S calls).

Definition example_children (page_id : string) (calls : nat)
    : (string + (string * list string)) * nat :=
  (inr (if decide (page_id = "2dfc9c6bdc62803f9ad6fc5f3ec30a34")
        then ("Workout plan", ["b-1"; "c2"])
        else if decide (page_id = "b-1")
        then ("  ", ["c2"; "2dfc9c6b-dc62-803f-9ad6-fc5f3ec30a34"])
        else if decide (page_id = "c2")
        then ("Squats", ["b1"; "dead"])
        else ("", [])),
   S calls).

Definition example_workspace : gset string :=
  {["2dfc9c6bdc62803f9ad6fc5f3ec30a34"; "b1"; "c2"; "dead"]}.

Definition example_traversal : Fetch.result string unit * Fetch.State nat string :=
  Fetch.fetch_root_pages nat string string example_retrieve
    (λ page, inr ("Page " +:+ page)) (λ page, inr (JStr ("https://notion.so/" +:+ page)))
    (λ page, inr (JStr "2024-01-01")) example_children 5 [ROOT_PAGE] (start nat string 0).

Lemma example_children_within : within nat string example_children example_workspace.
Proof.
  intros page_id calls content children calls'. unfold example_children.
  intros [= Hc _]. intros child Hchild.
  repeat case_decide; injection Hc as <- <-;
    repeat (apply elem_of_cons in Hchild as [->|Hchild]);
    try (by apply elem_of_nil in Hchild);
    apply (bool_decide_unpack _); vm_compute; reflexivity.
Qed.

Lemma fetch_root_pages_raises_only_without_roots_witness :
  let run :=
    Fetch.fetch_root_pages nat string string example_retrieve
      (λ page, inr ("Page " +:+ page)) (λ page, inr (JStr ("https://notion.so/" +:+ page)))
      (λ page, inr (JStr "2024-01-01")) example_children 5 ["not a page"; ROOT_PAGE]
      (start nat string 0) in
  run.1 = Fetch.Done tt ∧
  Fetch.log run.2 = [Fetch.FailedToProcess "not a page" (inl ValueError);
                     Fetch.CouldNotFetch "dead" "not found"] ∧
  map Indexer.id (Fetch.yielded run.2) = ["2dfc9c6bdc62803f9ad6fc5f3ec30a34"; "c2"].
Proof.
  destruct (fetch_root_pages_raises_only_without_roots nat string string example_retrieve
              (λ page, inr ("Page " +:+ page))
              (λ page, inr (JStr ("https://notion.so/" +:+ page)))
              (λ page, inr (JStr "2024-01-01")) example_children 5
              ["not a page"; ROOT_PAGE] 0) as (_ & _ & Hroots).
  destruct (Hroots [] "not a page" [ROOT_PAGE] (start nat string 0) (start nat string 0)
              eq_refl eq_refl) as [Hfail _].
  destruct (Hfail (inl ValueError)) as [Hrun _]; [vm_compute; reflexivity|].
  cbn zeta. rewrite Hrun. vm_compute. repeat split.
Defined.

Lemma traversal_finishes_witness :
  example_traversal.1 = Fetch.Done tt ∧
  map Indexer.id (Fetch.yielded example_traversal.2)
    = ["2dfc9c6bdc62803f9ad6fc5f3ec30a34"; "c2"].
Proof.
  split; [|vm_compute; reflexivity].
  apply (traversal_finishes nat string string example_retrieve
           (λ page, inr ("Page " +:+ page))
           (λ page, inr (JStr ("https://notion.so/" +:+ page)))
           (λ page, inr (JStr "2024-01-01")) example_children example_workspace 5
           [ROOT_PAGE] 0).
  - exact example_children_within.
  - intros root page_id ->%list_elem_of_singleton Hparse.
    vm_compute in Hparse. injection Hparse as <-.
    apply (bool_decide_unpack _). vm_compute. reflexivity.
  - discriminate.
  - vm_compute. lia.
Defined.

Lemma traversal_then_index_lists_pages_witness :
  Indexer.get_indexed_sources
    (VectorStore.disk (Indexer.world
       (Indexer.index_all_pages (Some "secret") example_split example_embed
          (Fetch.yielded example_traversal.2) None false example_state).2)) =
    Return [ {| Indexer.source_title := JStr "Page 2dfc9c6bdc62803f9ad6fc5f3ec30a34";
                Indexer.source_url :=
                  JStr "https://notion.so/2dfc9c6bdc62803f9ad6fc5f3ec30a34";
                Indexer.source_last_edited := JStr "2024-01-01" |};
             {| Indexer.source_title := JStr "Page c2";
                Indexer.source_url := JStr "https://notion.so/c2";
                Indexer.source_last_edited := JStr "2024-01-01" |} ].
Proof.
  apply (traversal_then_index_lists_pages nat string string example_retrieve
           (λ page, inr ("Page " +:+ page))
           (λ page, inr (JStr ("https://notion.so/" +:+ page)))
           (λ page, inr (JStr "2024-01-01")) example_children
           example_split example_embed 5 [ROOT_PAGE] 0 (Some "secret") None false
           example_state 2).
  - vm_compute. reflexivity.
  - vm_compute. reflexivity.
Defined.
